(** * Drain reconciliation of a Vitess shard: a shallow embedding

    This development embeds
    [pkg/controller/vitessshardreplication/reconcile_drain.go] and proves
    properties of its functions: [safeMysqldUpgrade], [isShardHealthy],
    [updateDrainStatus], [candidatePrimary] and the pass [reconcileDrain].

    Conventions of the embedding:
    - Go strings are byte strings ([string]); Go [int] is [Z], and the one
      place where it can saturate ([strconv.Atoi]) is written out.
    - A Go [map[string]V] is a [gmap string V].  Go does not fix the order
      in which [range] visits a map, so every [range] over a map takes the
      list of keys in the order of the visit as an argument; a key of that
      list which is not in the map is skipped.
    - Pods are shared mutable objects: the map alias -> pod of the pass is
      the store of these objects, threaded through the pass, so that an
      annotation written by one phase is seen by the next.
    - Calls to the outside world (Kubernetes client, topology server, tablet
      manager RPCs) take their outcome from an environment record; every
      call that writes something is appended to a trace.  A call that runs
      into the deadline of its context is a call that fails.
    - The goroutines of [candidatePrimary] each send one result; the
      collector receives them in an order given by the environment. *)

From Stdlib Require Import ZArith Lia Ascii String.
From stdpp Require Import gmap strings list fin_maps pretty.

Open Scope string_scope.
Open Scope Z_scope.

(** ** Go values *)

(** A Go [error] value is represented by its message. *)
Definition Error : Type := string.

(** [time.Duration], in nanoseconds. *)
Definition Duration : Type := Z.

Definition Second : Duration := 1000000000.

Definition reconcileDrainTimeout : Duration := 60 * Second.
Definition reconcileDrainReadTimeout : Duration := 10 * Second.
Definition plannedReparentTimeout : Duration := 30 * Second.
Definition tolerableReplicationLag : Duration := 15 * Second.
Definition candidatePrimaryTimeout : Duration := 2 * Second.

(** ** The part of the Go standard library used by [safeMysqldUpgrade] *)

Module GoStrings.

(** [\d] of Go's regexp package: an ASCII digit. *)
Definition is_digit (c : ascii) : bool :=
  let n := nat_of_ascii c in (48 <=? n)%nat && (n <=? 57)%nat.

Definition digit_val (c : ascii) : Z := Z.of_nat (nat_of_ascii c) - 48.

(** The longest prefix of digits of [s], and what follows it: the greedy
    [\d*]. *)
Fixpoint span_digits (s : string) : string * string :=
  match s with
  | EmptyString => (EmptyString, EmptyString)
  | String c s' =>
      if is_digit c
      then let '(d, r) := span_digits s' in (String c d, r)
      else (EmptyString, s)
  end.

(** [strings.HasPrefix s prefix]. *)
Fixpoint HasPrefix (s prefix : string) {struct prefix} : bool :=
  match prefix with
  | EmptyString => true
  | String a prefix' =>
      match s with
      | EmptyString => false
      | String b s' => Ascii.eqb a b && HasPrefix s' prefix'
      end
  end.

(** The slice [s[n:]]. *)
Fixpoint slice_from (n : nat) (s : string) : string :=
  match n, s with
  | O, _ => s
  | S n', String _ s' => slice_from n' s'
  | S _, EmptyString => EmptyString
  end.

(** [strings.Cut s sep]: the text before and after the first occurrence of
    [sep] in [s]. *)
Fixpoint Cut (s sep : string) {struct s} : option (string * string) :=
  if HasPrefix s sep
  then Some (EmptyString, slice_from (String.length sep) s)
  else match s with
       | EmptyString => None
       | String c s' =>
           match Cut s' sep with
           | Some (before, after) => Some (String c before, after)
           | None => None
           end
       end.

(** [strings.SplitN s sep n] for a non-empty separator and [n >= 0]: at most
    [n] pieces, the last one holding the unsplit remainder.  (With an empty
    separator Go splits after each UTF-8 sequence; the program never does
    that.) *)
Fixpoint SplitN (s sep : string) (n : nat) : list string :=
  match n with
  | O => []
  | S O => [s]
  | S n' =>
      match Cut s sep with
      | Some (before, after) => before :: SplitN after sep n'
      | None => [s]
      end
  end.

(** The value of a string of digits, most significant first. *)
Fixpoint digits_value (acc : Z) (s : string) : Z :=
  match s with
  | EmptyString => acc
  | String c s' => digits_value (10 * acc + digit_val c) s'
  end.

Definition all_digits (s : string) : bool :=
  forallb is_digit (list_ascii_of_string s).

(** The largest [int] of a 64-bit platform. *)
Definition maxInt : Z := 2 ^ 63 - 1.

(** [strconv.Atoi]: an optional sign and decimal digits.  A value that does
    not fit an [int] yields the largest magnitude of that sign together with
    a range error; anything else that is not a number yields 0 and a syntax
    error. *)
Definition Atoi (s : string) : Z * option Error :=
  let '(neg, body) :=
    match s with
    | String "-" r => (true, r)
    | String "+" r => (false, r)
    | _ => (false, s)
    end in
  if bool_decide (body = EmptyString) || negb (all_digits body)
  then (0, Some ("strconv.Atoi: parsing " +:+ s +:+ ": invalid syntax"))
  else
    let v := digits_value 0 body in
    if neg
    then if v >? maxInt + 1
         then (- (maxInt + 1),
               Some ("strconv.Atoi: parsing " +:+ s +:+ ": value out of range"))
         else (- v, None)
    else if v >? maxInt
         then (maxInt,
               Some ("strconv.Atoi: parsing " +:+ s +:+ ": value out of range"))
         else (v, None).

End GoStrings.

Import GoStrings.

(** ** Safe-upgrade version gate *)

(** The three groups of [^(\d+)\.(\d+)\.(\d+)] on [s], when it matches.  Each
    [\d+] is greedy and is followed by something that is not a digit, so a
    match takes the whole run of digits each time. *)
Definition match_version (s : string) : option (string * string * string) :=
  let '(d1, r1) := span_digits s in
  if bool_decide (d1 = EmptyString) then None else
  match r1 with
  | String "." r1' =>
      let '(d2, r2) := span_digits r1' in
      if bool_decide (d2 = EmptyString) then None else
      match r2 with
      | String "." r2' =>
          let '(d3, _) := span_digits r2' in
          if bool_decide (d3 = EmptyString) then None
          else Some (d1, d2, d3)
      | _ => None
      end
  | _ => None
  end.

(** [mysqlImageVersion.FindStringSubmatch]: nil when there is no match,
    otherwise the matched text followed by the three groups. *)
Definition mysqlImageVersion_FindStringSubmatch (s : string) : list string :=
  match match_version s with
  | None => []
  | Some (d1, d2, d3) => [d1 +:+ "." +:+ d2 +:+ "." +:+ d3; d1; d2; d3]
  end.

(** The elements [1:] of a submatch, converted with [strconv.Atoi], the
    error dropped as in the source. *)
Definition version_parts (strParts : list string) : list Z :=
  map (fun part => fst (Atoi part)) (tail strParts).

(** [parts[i]] of a Go slice of ints known to hold three elements. *)
Definition part (parts : list Z) (i : nat) : Z := nth i parts 0.

Definition safeMysqldUpgrade (currentImage desiredImage : string)
  : bool * option Error :=
  if bool_decide (currentImage = "") || bool_decide (desiredImage = "")
  then (false, None) else
  if bool_decide (desiredImage = currentImage) then (false, None) else
  let currentParts := SplitN currentImage ":" 2 in
  if negb (length currentParts =? 2)%nat then (false, None) else
  let desiredParts := SplitN desiredImage ":" 2 in
  if negb (length desiredParts =? 2)%nat then (false, None) else
  let current := nth 1 currentParts "" in
  let desired := nth 1 desiredParts "" in
  let curStrParts := mysqlImageVersion_FindStringSubmatch current in
  if negb (length curStrParts =? 4)%nat then (true, None) else
  let dstStrParts := mysqlImageVersion_FindStringSubmatch desired in
  if negb (length dstStrParts =? 4)%nat then (true, None) else
  if bool_decide (curStrParts = dstStrParts) then (false, None) else
  let dstParts := version_parts dstStrParts in
  let curParts := version_parts curStrParts in
  if part dstParts 0 <? part curParts 0
  then (false, Some ("cannot downgrade major version from " +:+ current
                       +:+ " to " +:+ desired)) else
  if (part dstParts 0 =? part curParts 1) && (part dstParts 1 <? part curParts 1)
  then (false, Some ("cannot downgrade minor version from " +:+ current
                       +:+ " to " +:+ desired)) else
  if (part dstParts 0 =? 8) && (part dstParts 1 =? 0)
     && (part curParts 0 =? 8) && (part curParts 1 =? 0)
  then
    if (part dstParts 2 >=? 34) && (part curParts 2 >=? 34)
    then (false, None) else
    if part dstParts 2 <? part curParts 2
    then (false, Some ("cannot downgrade patch version from " +:+ current
                         +:+ " to " +:+ desired))
    else (negb (part dstParts 2 =? part curParts 2), None)
  else
    (negb (part dstParts 0 =? part curParts 0)
     || negb (part dstParts 1 =? part curParts 1), None).

(** ** Kubernetes and Vitess data, as far as the program reads it *)

(** [topodatapb.TabletType]. *)
Inductive TabletType :=
| TabletType_UNKNOWN | TabletType_PRIMARY | TabletType_REPLICA
| TabletType_RDONLY | TabletType_SPARE | TabletType_EXPERIMENTAL
| TabletType_BACKUP | TabletType_RESTORE | TabletType_DRAINED.

#[global] Instance TabletType_eq_dec : EqDecision TabletType.
Proof. solve_decision. Defined.

(** [topodatapb.TabletAlias]; [Uid] is a [uint32]. *)
Record TabletAlias := { Cell : string; Uid : N }.

#[global] Instance TabletAlias_eq_dec : EqDecision TabletAlias.
Proof. solve_decision. Defined.

(** [topoproto.TabletAliasEqual] on two pointers: two nil pointers are equal,
    a nil pointer equals no alias. *)
Definition TabletAliasEqual (left right : option TabletAlias) : bool :=
  bool_decide (left = right).

(** [topoproto.TabletAliasIsZero]. *)
Definition TabletAliasIsZero (ta : option TabletAlias) : bool :=
  match ta with
  | None => true
  | Some a => bool_decide (Cell a = "") && bool_decide (Uid a = 0%N)
  end.

(** The [%010d] verb of [fmt] on a [uint32]. *)
Definition pad010 (n : N) : string :=
  let digits := pretty n in
  String.concat "" (replicate (10 - String.length digits)%nat "0") +:+ digits.

(** [topoproto.TabletAliasString]. *)
Definition TabletAliasString (ta : option TabletAlias) : string :=
  match ta with
  | None => "<nil>"
  | Some a => Cell a +:+ "-" +:+ pad010 (Uid a)
  end.

(** [topo.TabletInfo]: the tablet record of the topology server. *)
Record TabletInfo := { Alias : option TabletAlias; Type_ : TabletType }.

#[global] Instance TabletInfo_eq_dec : EqDecision TabletInfo.
Proof. solve_decision. Defined.

(** [topo.ShardInfo]. *)
Record ShardInfo := { PrimaryAlias : option TabletAlias }.

Definition HasPrimary (si : ShardInfo) : bool :=
  negb (TabletAliasIsZero (PrimaryAlias si)).

(** [corev1.ConditionStatus] is a string type. *)
Definition ConditionTrue : string := "True".
Definition PodReady : string := "Ready".

Record PodCondition := { cond_Type : string; cond_Status : string }.

Record Container := { container_Name : string; container_Image : string }.

(** Modelled from the spec: package [drain] of this repository is not among
    the sources.  Its marker protocol is "presence/absence of "started",
    "acknowledged", "finished" keys" on the annotations of a pod; the record
    holds the presence of each of the three keys. *)
Record DrainMarkers := {
  started : bool;
  acknowledged : bool;
  finished : bool
}.

#[global] Instance DrainMarkers_eq_dec : EqDecision DrainMarkers.
Proof. solve_decision. Defined.

(** [corev1.Pod]: name, labels, the drain markers among its annotations, the
    containers of its spec and the conditions of its status. *)
Record Pod := {
  pod_Name : string;
  pod_Labels : gmap string string;
  pod_Markers : DrainMarkers;
  pod_Containers : list Container;
  pod_Conditions : list PodCondition
}.

Definition with_markers (pod : Pod) (m : DrainMarkers) : Pod :=
  {| pod_Name := pod_Name pod; pod_Labels := pod_Labels pod;
     pod_Markers := m; pod_Containers := pod_Containers pod;
     pod_Conditions := pod_Conditions pod |}.

(** [podutils.IsPodReady]: the first condition of type Ready exists and its
    status is True. *)
Definition IsPodReady (pod : Pod) : bool :=
  match List.find (fun c => bool_decide (cond_Type c = PodReady))
                  (pod_Conditions pod) with
  | Some c => bool_decide (cond_Status c = ConditionTrue)
  | None => false
  end.

(** [m[k]] on a [map[string]string]: the empty string when [k] is absent. *)
Definition label (labels : gmap string string) (k : string) : string :=
  default "" (labels !! k).

Module drain.

(** Modelled from the spec: [drain.State], "absent (not draining),
    "started", "acknowledged", "finished"", under the names the program
    uses. *)
Inductive State :=
| NotDrainingState | DrainingState | AcknowledgedState | FinishedState.

#[global] Instance State_eq_dec : EqDecision State.
Proof. solve_decision. Defined.

(** Modelled from the spec: the accessors of package [drain] report the
    presence of a marker. *)
Definition Started (pod : Pod) : bool := started (pod_Markers pod).
Definition Acknowledged (pod : Pod) : bool := acknowledged (pod_Markers pod).
Definition Finished (pod : Pod) : bool := finished (pod_Markers pod).

(** Modelled from the spec: the mutators of package [drain] set or remove
    one marker and leave the others. *)
Definition Finish (pod : Pod) : Pod :=
  let m := pod_Markers pod in
  with_markers pod {| started := started m; acknowledged := acknowledged m;
                      finished := true |}.
Definition Unfinish (pod : Pod) : Pod :=
  let m := pod_Markers pod in
  with_markers pod {| started := started m; acknowledged := acknowledged m;
                      finished := false |}.
Definition Acknowledge (pod : Pod) : Pod :=
  let m := pod_Markers pod in
  with_markers pod {| started := started m; acknowledged := true;
                      finished := finished m |}.
Definition Unacknowledge (pod : Pod) : Pod :=
  let m := pod_Markers pod in
  with_markers pod {| started := started m; acknowledged := false;
                      finished := finished m |}.

End drain.

(** [planetscalev2.VitessTabletStatus] and the fields of
    [planetscalev2.VitessShard] that the pass reads. *)
Record VitessTabletStatus := { Available : string }.

Record VitessShard := {
  vts_Status_Tablets : gmap string VitessTabletStatus;
  vts_UsingExternalDatastore : bool;
  vts_MysqldImage : string
}.

(** ** Replication positions *)

(** [replication.GTIDSet] is an interface of Vitess; the program only relies
    on containment and on decoding. *)
Class GTIDSet (G : Type) := {
  Contains : G -> G -> bool;
  parseGTIDSet : string -> Error + G
}.

Section Positions.

Context {G : Type} `{GTIDSet G}.

(** [replication.Position]: a struct around a [GTIDSet] interface value,
    [None] being the nil interface of the zero value [Position{}]. *)
Definition Position : Type := option G.

Definition IsZero (rp : Position) : bool :=
  match rp with None => true | Some _ => false end.

(** [Position.AtLeast]: a nil set is contained in every set. *)
Definition AtLeast (rp other : Position) : bool :=
  match other with
  | None => true
  | Some o => match rp with
              | None => false
              | Some r => Contains r o
              end
  end.

(** [replication.DecodePosition]: the empty string decodes to the zero
    position without an error. *)
Definition DecodePosition (s : string) : Position * option Error :=
  if bool_decide (s = "") then (None, None)
  else match parseGTIDSet s with
       | inl e => (None, Some e)
       | inr g => (Some g, None)
       end.

Record candidateInfo := {
  tablet : TabletInfo;
  position : Position;
  err : option Error
}.

End Positions.

Arguments Position G : clear implicits.
Arguments candidateInfo G : clear implicits.

(** ** The outside world *)

(** What the pass writes, in the order of the writes: events of the recorder,
    updates of a pod through the Kubernetes client, commands and reparent
    calls sent through the wrangler, and the reparent counter. *)
Inductive Action :=
| Eventf (eventtype reason : string)
| Update (tabletAliasStr : string) (pod : Pod)
| ExecuteFetchAsDba (tabletAliasStr : string) (query : string)
| PlannedReparentShard (newPrimary : option TabletAlias)
    (waitReplicasTimeout tolerableLag : Duration)
| TabletExternallyReparented (newPrimary : option TabletAlias)
| ChangeTabletType (tabletAlias : option TabletAlias) (tabletType : TabletType)
| plannedReparentCount_Inc (succeeded : bool).

Definition EventTypeNormal : string := "Normal".
Definition EventTypeWarning : string := "Warning".

(** The outcome of every call to a collaborator, and the order of every
    visit that Go leaves open.  A call that can be repeated within a pass
    takes the number of writes made so far, so that its outcome may change
    from one call to the next. *)
Record Env := {
  client_List : Error + list Pod;
  topo_GetShard : Error + ShardInfo;
  topo_GetTabletMapForShardByCell : Error + gmap string TabletInfo;
  client_Update : nat -> Pod -> option Error;
  tmc_ReplicationStatus : TabletInfo -> Error + string;
  tmc_ExecuteFetchAsDba : nat -> TabletInfo -> option Error;
  wr_PlannedReparentShard : option TabletAlias -> option Error;
  wr_TabletExternallyReparented : option TabletAlias -> option Error;
  wr_ChangeTabletType : option TabletAlias -> TabletType -> option Error;
  (** the order of [range vts.Status.Tablets] in [isShardHealthy] *)
  range_status : list string;
  (** the order of [range pods] in [reconcileDrain] *)
  range_pods : list string;
  (** the order of [range transitions] *)
  range_transitions : list string;
  (** the order of [range pods] in [disableFastShutdown] *)
  range_pods_upgrade : list string;
  (** the order of [range tablets] in [candidatePrimary] *)
  range_tablets : list string;
  (** the order in which the results of the probes are received: the
      indices of the candidates *)
  recv_order : list nat
}.

(** [reconcile.Result] of controller-runtime. *)
Record Result := { Requeue : bool; RequeueAfter : Duration }.

Module results.

(** Modelled from the spec: package [results] of this repository is not
    among the sources.  A pass ends either with "returns error" or with
    "schedule a retry after a fixed backoff delay"; the builder holds the
    error and the delay recorded so far. *)
Record Builder := { b_err : option Error; b_requeueAfter : Duration }.

Definition empty : Builder := {| b_err := None; b_requeueAfter := 0 |}.

Definition recordError (b : Builder) (e : Error) : Builder :=
  {| b_err := match b_err b with Some e0 => Some e0 | None => Some e end;
     b_requeueAfter := b_requeueAfter b |}.

Definition recordRequeueAfter (b : Builder) (d : Duration) : Builder :=
  {| b_err := b_err b; b_requeueAfter := d |}.

Definition build (b : Builder) : Result * option Error :=
  ({| Requeue := false; RequeueAfter := b_requeueAfter b |}, b_err b).

End results.

(** ** The state of a pass and its monad *)

(** The pod objects reachable from the map [pods], the writes made so far and
    the result builder. *)
Record World := {
  w_pods : gmap string Pod;
  w_trace : list Action;
  w_builder : results.Builder
}.

Definition initial : World :=
  {| w_pods := ∅; w_trace := []; w_builder := results.empty |}.

(** A computation either returns or panics; the state reached is kept in
    both cases. *)
Inductive Res (A : Type) :=
| Done (a : A)
| Panic (msg : string).

Arguments Done {A} a.
Arguments Panic {A} msg.

Definition M (A : Type) : Type := World -> Res A * World.

Definition ret {A} (a : A) : M A := fun w => (Done a, w).

Definition bind {A B} (m : M A) (k : A -> M B) : M B :=
  fun w => match m w with
           | (Done a, w') => k a w'
           | (Panic msg, w') => (Panic msg, w')
           end.

Definition panic {A} (msg : string) : M A := fun w => (Panic msg, w).

Declare Scope go_scope.
Delimit Scope go_scope with go.
Notation "x <- m ;; k" := (bind m (fun x => k))
  (at level 100, m at next level, right associativity) : go_scope.
Notation "m ;; k" := (bind m (fun _ => k))
  (at level 100, right associativity) : go_scope.
Open Scope go_scope.

Definition emit (a : Action) : M unit :=
  fun w => (Done tt, {| w_pods := w_pods w; w_trace := w_trace w ++ [a];
                        w_builder := w_builder w |}).

(** [r.recorder.Eventf]. *)
Definition recorder_Eventf (eventtype reason : string) : M unit :=
  emit (Eventf eventtype reason).

Definition get_pods : M (gmap string Pod) := fun w => (Done (w_pods w), w).

Definition set_pods (pods : gmap string Pod) : M unit :=
  fun w => (Done tt, {| w_pods := pods; w_trace := w_trace w;
                        w_builder := w_builder w |}).

(** Writing through a pod pointer: the object stored under the alias is
    replaced. *)
Definition store_pod (tabletAliasStr : string) (pod : Pod) : M unit :=
  fun w => (Done tt, {| w_pods := <[tabletAliasStr := pod]> (w_pods w);
                        w_trace := w_trace w; w_builder := w_builder w |}).

(** Reading through a pod pointer; [pods[k]] is nil for an absent key. *)
Definition deref (tabletAliasStr : string) : M Pod :=
  fun w => match w_pods w !! tabletAliasStr with
           | Some pod => (Done pod, w)
           | None => (Panic "invalid memory address or nil pointer dereference", w)
           end.

(** The number of writes made so far. *)
Definition now : M nat := fun w => (Done (length (w_trace w)), w).

(** [resultBuilder.Error], [resultBuilder.RequeueAfter] and
    [resultBuilder.Result]. *)
Definition resultBuilder_Error (e : Error) : M (Result * option Error) :=
  fun w => let b := results.recordError (w_builder w) e in
           (Done (results.build b),
            {| w_pods := w_pods w; w_trace := w_trace w; w_builder := b |}).

Definition resultBuilder_RequeueAfter (d : Duration) : M (Result * option Error) :=
  fun w => let b := results.recordRequeueAfter (w_builder w) d in
           (Done (results.build b),
            {| w_pods := w_pods w; w_trace := w_trace w; w_builder := b |}).

Definition resultBuilder_Result : M (Result * option Error) :=
  fun w => (Done (results.build (w_builder w)), w).

(** ** The program *)

Section Operator.

Import drain.

(** Constants of packages [planetscalev2] and [vttablet] and of this
    package that are declared outside the file. *)
Variable TabletTypeLabel : string.
Variable ExternalMasterTabletPoolName : string.
Variable MysqldContainerName : string.
Variable replicationRequeueDelay : Duration.

(** [vttablet.AliasFromPod], declared outside the file. *)
Variable AliasFromPod : Pod -> TabletAlias.

(** [drain.GetState] and the state machine [drain.StateTransitions],
    declared outside the file: the pass is embedded for any such pair of
    functions. *)
Variable GetState : Pod -> State * option Error.
Variable StateTransitions : gmap string State -> gmap string State.

Context {G : Type} `{GTIDSet G}.

(** *** updateDrainStatus *)

(** [r.client.Update(ctx, pod)]: the object is sent as it is now. *)
Definition clientUpdate (env : Env) (tabletAliasStr : string) : M (option Error) :=
  pod <- deref tabletAliasStr ;;
  n <- now ;;
  emit (Update tabletAliasStr pod) ;;
  ret (client_Update env n pod).

(** The pod is named by its key in [pods]; the object is changed in place
    before the update is sent. *)
Definition updateDrainStatus (env : Env) (tabletAliasStr : string)
    (drainStatus : State) : M (option Error) :=
  hasUpdated <-
    match drainStatus with
    | FinishedState =>
        pod <- deref tabletAliasStr ;;
        if negb (Finished pod)
        then store_pod tabletAliasStr (Finish pod) ;; ret true
        else ret false
    | AcknowledgedState =>
        pod <- deref tabletAliasStr ;;
        if negb (Acknowledged pod)
        then store_pod tabletAliasStr (Acknowledge pod) ;; ret true
        else ret false
    | NotDrainingState =>
        pod <- deref tabletAliasStr ;;
        hasUpdated <-
          (if Finished pod
           then store_pod tabletAliasStr (Unfinish pod) ;; ret true
           else ret false) ;;
        pod <- deref tabletAliasStr ;;
        if Acknowledged pod
        then store_pod tabletAliasStr (Unacknowledge pod) ;; ret true
        else ret hasUpdated
    | DrainingState =>
        panic "Programming error, the controller should never set a pod as Draining"
    end ;;
  if negb hasUpdated then ret None
  else clientUpdate env tabletAliasStr.

(** *** isShardHealthy *)

Fixpoint isShardHealthy_range (tablets : gmap string VitessTabletStatus)
    (order : list string) : option Error :=
  match order with
  | [] => None
  | name :: rest =>
      match tablets !! name with
      | Some tablet =>
          if bool_decide (Available tablet ≠ ConditionTrue)
          then Some ("tablet " +:+ name +:+ " is not Available")
          else isShardHealthy_range tablets rest
      | None => isShardHealthy_range tablets rest
      end
  end.

Definition isShardHealthy (order : list string) (vts : VitessShard)
  : option Error :=
  isShardHealthy_range (vts_Status_Tablets vts) order.

(** *** candidatePrimary *)

(** The body of the first loop for one tablet: [true] when the tablet is
    appended to the candidates. *)
Definition isCandidate (shard : ShardInfo) (pods : gmap string Pod)
    (usingExternal : bool) (tabletAliasStr : string) (tablet : TabletInfo)
  : bool :=
  if TabletAliasEqual (Alias tablet) (PrimaryAlias shard) then false else
  match pods !! tabletAliasStr with
  | None => false
  | Some pod =>
      if (if usingExternal
          then
            if bool_decide (label (pod_Labels pod) TabletTypeLabel
                            ≠ ExternalMasterTabletPoolName)
            then true
            else bool_decide (Type_ tablet ≠ TabletType_SPARE)
                 && bool_decide (Type_ tablet ≠ TabletType_PRIMARY)
          else bool_decide (Type_ tablet ≠ TabletType_REPLICA))
      then false else
      if negb (IsPodReady pod) then false else
      if Started pod || Acknowledged pod || Finished pod then false else
      true
  end.

Fixpoint candidates_range (shard : ShardInfo)
    (tablets : gmap string TabletInfo) (pods : gmap string Pod)
    (usingExternal : bool) (order : list string) : list TabletInfo :=
  match order with
  | [] => []
  | tabletAliasStr :: rest =>
      let more := candidates_range shard tablets pods usingExternal rest in
      match tablets !! tabletAliasStr with
      | Some tablet =>
          if isCandidate shard pods usingExternal tabletAliasStr tablet
          then tablet :: more else more
      | None => more
      end
  end.

(** The body of one goroutine: the result it sends.  A probe that does not
    answer before the deadline of [candidatePrimaryTimeout] returns the
    error of the context. *)
Definition probe (env : Env) (tablet : TabletInfo) : candidateInfo G :=
  match tmc_ReplicationStatus env tablet with
  | inl e => {| tablet := tablet; position := None; err := Some e |}
  | inr statusPosition =>
      let '(p, e) := DecodePosition statusPosition in
      {| tablet := tablet; position := p; err := e |}
  end.

(** What the collector reads from the channel, given the results sent by
    the goroutines in the order of [candidates] and the order in which they
    arrive. *)
Definition received (arrival : list nat) (sent : list (candidateInfo G))
  : list (candidateInfo G) :=
  omap (fun i => sent !! i) arrival.

(** One iteration of the loop that remembers the high point. *)
Definition remember (acc : option TabletInfo * Position G)
    (result : candidateInfo G) : option TabletInfo * Position G :=
  let '(bestCandidate, highestPosition) := acc in
  match err result with
  | Some _ => acc
  | None =>
      if IsZero highestPosition
         || negb (AtLeast highestPosition (position result))
      then (Some (tablet result), position result)
      else acc
  end.

Definition candidatePrimary (env : Env) (shard : ShardInfo)
    (tablets : gmap string TabletInfo) (pods : gmap string Pod)
    (usingExternal : bool) : option TabletInfo :=
  let candidates :=
    candidates_range shard tablets pods usingExternal (range_tablets env) in
  match candidates with
  | [] => None
  | first :: _ =>
      let results := received (recv_order env) (probe env <$> candidates) in
      match fst (fold_left remember results (None, None)) with
      | Some bestCandidate => Some bestCandidate
      | None => Some first
      end
  end.

(** *** disableFastShutdown *)

Definition disableFastShutdownQuery : string :=
  "set @@global.innodb_fast_shutdown = 0".

(** The image of the first container named [MysqldContainerName], or the
    empty string. *)
Fixpoint mysqldImage (containers : list Container) : string :=
  match containers with
  | [] => ""
  | container :: rest =>
      if bool_decide (container_Name container = MysqldContainerName)
      then container_Image container
      else mysqldImage rest
  end.

Fixpoint disableFastShutdown (env : Env) (tablets : gmap string TabletInfo)
    (desiredImage : string) (order : list string) : M (option Error) :=
  match order with
  | [] => ret None
  | tabletAlias :: rest =>
      pods <- get_pods ;;
      match pods !! tabletAlias, tablets !! tabletAlias with
      | Some pod, Some tablet =>
          let current := mysqldImage (pod_Containers pod) in
          match safeMysqldUpgrade current desiredImage with
          | (_, Some e) => ret (Some e)
          | (false, None) => disableFastShutdown env tablets desiredImage rest
          | (true, None) =>
              n <- now ;;
              emit (ExecuteFetchAsDba tabletAlias disableFastShutdownQuery) ;;
              match tmc_ExecuteFetchAsDba env n tablet with
              | Some e =>
                  ret (Some ("failed to disable fast shutdown for tablet "
                               +:+ tabletAlias +:+ ": " +:+ e))
              | None =>
                  recorder_Eventf EventTypeNormal "MySQL_Upgrade" ;;
                  disableFastShutdown env tablets desiredImage rest
              end
          end
      | _, _ => disableFastShutdown env tablets desiredImage rest
      end
  end.

(** *** handleExternalReparent *)

Definition handleExternalReparent (env : Env)
    (newPrimaryAlias oldPrimaryAlias : option TabletAlias) : M (option Error) :=
  emit (TabletExternallyReparented newPrimaryAlias) ;;
  match wr_TabletExternallyReparented env newPrimaryAlias with
  | Some e => ret (Some e)
  | None =>
      emit (ChangeTabletType oldPrimaryAlias TabletType_SPARE) ;;
      ret (wr_ChangeTabletType env oldPrimaryAlias TabletType_SPARE)
  end.

(** *** reconcileDrain *)

(** The alias -> pod map built from the listed pods; a later pod replaces
    an earlier one with the same alias. *)
Definition buildPods (items : list Pod) : gmap string Pod :=
  foldl (fun pods pod =>
           <[TabletAliasString (Some (AliasFromPod pod)) := pod]> pods)
        ∅ items.

(** [m[k]] on a map of drain states; the zero value of [drain.State] is
    taken to be [NotDrainingState]. *)
Definition stateAt (m : gmap string State) (k : string) : State :=
  default NotDrainingState (m !! k).

(** Phase 2: the loop over [pods] that loads the drain state and clears
    the annotations of pods without a drain request.  It returns [drains]
    and [abortingDrain]. *)
Fixpoint loadDrainState (env : Env) (order : list string)
    (drains : gmap string State) (abortingDrain : bool)
  : M (gmap string State * bool) :=
  match order with
  | [] => ret (drains, abortingDrain)
  | tabletAliasStr :: rest =>
      pods <- get_pods ;;
      match pods !! tabletAliasStr with
      | None => loadDrainState env rest drains abortingDrain
      | Some pod =>
          if Started pod then
            let '(state, e) := GetState pod in
            (match e with
             | Some _ => recorder_Eventf EventTypeWarning "InvalidDrainState"
             | None => ret tt
             end) ;;
            loadDrainState env rest (<[tabletAliasStr := state]> drains)
                           abortingDrain
          else
            abortingDrain <-
              (if Acknowledged pod || Finished pod
               then recorder_Eventf EventTypeWarning "AbortingDrain" ;; ret true
               else ret abortingDrain) ;;
            e <- updateDrainStatus env tabletAliasStr NotDrainingState ;;
            (match e with
             | Some e =>
                 recorder_Eventf EventTypeWarning "UpdateFailed" ;;
                 resultBuilder_Error e ;; ret tt
             | None => ret tt
             end) ;;
            loadDrainState env rest drains abortingDrain
      end
  end.

(** Phase 3: the loop over [transitions].  It returns
    [acknowledgedDrain]. *)
Fixpoint applyTransitions (env : Env) (primaryAliasStr : string)
    (transitions : gmap string State) (order : list string)
    (acknowledgedDrain : bool) : M bool :=
  match order with
  | [] => ret acknowledgedDrain
  | tabletAliasStr :: rest =>
      match transitions !! tabletAliasStr with
      | None =>
          applyTransitions env primaryAliasStr transitions rest
                           acknowledgedDrain
      | Some state =>
          if bool_decide (state = FinishedState)
             && bool_decide (tabletAliasStr = primaryAliasStr)
          then applyTransitions env primaryAliasStr transitions rest
                                acknowledgedDrain
          else
            let acknowledgedDrain :=
              if bool_decide (state = AcknowledgedState) then true
              else acknowledgedDrain in
            e <- updateDrainStatus env tabletAliasStr state ;;
            (match e with
             | Some e =>
                 recorder_Eventf EventTypeWarning "UpdateFailed" ;;
                 resultBuilder_Error e ;; ret tt
             | None => ret tt
             end) ;;
            applyTransitions env primaryAliasStr transitions rest
                             acknowledgedDrain
      end
  end.

(** Phases 3 to 5, entered with [drains] non-empty and no drain being
    aborted. *)
Definition transitionAndReparent (env : Env) (vts : VitessShard)
    (shard : ShardInfo) (tablets : gmap string TabletInfo)
    (drains : gmap string State) : M (Result * option Error) :=
  let primaryAliasStr := TabletAliasString (PrimaryAlias shard) in
  let transitions := StateTransitions drains in
  acknowledgedDrain <-
    applyTransitions env primaryAliasStr transitions
                     (range_transitions env) false ;;
  e <- disableFastShutdown env tablets (vts_MysqldImage vts)
                           (range_pods_upgrade env) ;;
  match e with
  | Some e =>
      recorder_Eventf EventTypeWarning "MysqldSafeUpgradeFailed" ;;
      resultBuilder_Error e
  | None =>
      if acknowledgedDrain
         && bool_decide (stateAt drains primaryAliasStr ≠ FinishedState)
      then recorder_Eventf EventTypeNormal "NotReparentingPrimary" ;;
           resultBuilder_Result
      else
      if bool_decide (stateAt drains primaryAliasStr ≠ FinishedState)
         && bool_decide (stateAt transitions primaryAliasStr ≠ FinishedState)
      then recorder_Eventf EventTypeNormal "NotReparentingPrimary" ;;
           resultBuilder_Result
      else
      pods <- get_pods ;;
      match candidatePrimary env shard tablets pods
                             (vts_UsingExternalDatastore vts) with
      | None =>
          recorder_Eventf EventTypeWarning "DrainBlocked" ;;
          resultBuilder_RequeueAfter replicationRequeueDelay
      | Some newPrimary =>
          reparentErr <-
            (if vts_UsingExternalDatastore vts
             then handleExternalReparent env (Alias newPrimary)
                                         (PrimaryAlias shard)
             else
               emit (PlannedReparentShard (Alias newPrimary)
                       plannedReparentTimeout tolerableReplicationLag) ;;
               ret (wr_PlannedReparentShard env (Alias newPrimary))) ;;
          (match reparentErr with
           | Some _ => recorder_Eventf EventTypeWarning "PlannedReparentFailed"
           | None => recorder_Eventf EventTypeNormal "PlannedReparent"
           end) ;;
          emit (plannedReparentCount_Inc
                  (bool_decide (reparentErr = None))) ;;
          resultBuilder_Result
      end
  end.

(** The pass after the health check: phase 2 onwards. *)
Definition reconcileHealthy (env : Env) (vts : VitessShard)
    (shard : ShardInfo) (tablets : gmap string TabletInfo)
  : M (Result * option Error) :=
  if negb (HasPrimary shard)
  then recorder_Eventf EventTypeWarning "NotReconcilingDrain" ;;
       resultBuilder_Result
  else
    loaded <- loadDrainState env (range_pods env) ∅ false ;;
    let '(drains, abortingDrain) := loaded in
    if bool_decide (size drains = 0%nat) then resultBuilder_Result else
    if abortingDrain
    then recorder_Eventf EventTypeWarning "AbortingDrain" ;;
         resultBuilder_Result
    else transitionAndReparent env vts shard tablets drains.

(** The pass from the health check on, once the three reads have
    succeeded and [pods] is built. *)
Definition reconcileAfterReads (env : Env) (vts : VitessShard)
    (shard : ShardInfo) (tablets : gmap string TabletInfo)
  : M (Result * option Error) :=
  match isShardHealthy (range_status env) vts with
  | Some _ =>
      recorder_Eventf EventTypeWarning "NotReconcilingDrain" ;;
      resultBuilder_Result
  | None => reconcileHealthy env vts shard tablets
  end.

Definition reconcileDrain (env : Env) (vts : VitessShard)
  : M (Result * option Error) :=
  match client_List env with
  | inl e =>
      recorder_Eventf EventTypeWarning "ListFailed" ;;
      resultBuilder_Error e
  | inr podList =>
      match topo_GetShard env with
      | inl _ =>
          recorder_Eventf EventTypeWarning "TopoGetFailed" ;;
          resultBuilder_RequeueAfter replicationRequeueDelay
      | inr shard =>
          match topo_GetTabletMapForShardByCell env with
          | inl _ =>
              recorder_Eventf EventTypeWarning "TopoGetFailed" ;;
              resultBuilder_RequeueAfter replicationRequeueDelay
          | inr tablets =>
              set_pods (buildPods podList) ;;
              reconcileAfterReads env vts shard tablets
          end
      end
  end.

End Operator.


(** * Specification *)

Import drain.
Open Scope list_scope.

(** ** Vocabulary of the statements *)

(** The list [order] visits every key of the map [m]: what a [range] over
    [m] guarantees. *)
Definition visits_all {V} (order : list string) (m : gmap string V) : Prop :=
  dom m ⊆ list_to_set order.

#[global] Instance visits_all_dec {V} (order : list string)
    (m : gmap string V) : Decision (visits_all order m).
Proof. unfold visits_all. apply _. Defined.

(** The annotations of [pod] already encode the drain state [s], as far as
    [updateDrainStatus] looks at them. *)
Definition encodes (pod : Pod) (s : State) : Prop :=
  match s with
  | FinishedState => Finished pod = true
  | AcknowledgedState => Acknowledged pod = true
  | NotDrainingState => Finished pod = false ∧ Acknowledged pod = false
  | DrainingState => False
  end.

(** The four eligibility rules of a candidate primary, for the tablet [t]
    stored under the alias [k]. *)
Definition eligible (TabletTypeLabel ExternalMasterTabletPoolName : string)
    (shard : ShardInfo) (pods : gmap string Pod) (usingExternal : bool)
    (k : string) (t : TabletInfo) : Prop :=
  TabletAliasEqual (Alias t) (PrimaryAlias shard) = false
  ∧ ∃ pod, pods !! k = Some pod
      ∧ IsPodReady pod = true
      ∧ Started pod = false ∧ Acknowledged pod = false ∧ Finished pod = false
      ∧ (if usingExternal
         then label (pod_Labels pod) TabletTypeLabel
              = ExternalMasterTabletPoolName
              ∧ (Type_ t = TabletType_SPARE ∨ Type_ t = TabletType_PRIMARY)
         else Type_ t = TabletType_REPLICA).

(** The result [r], received as number [i], is the first among the
    responders to report its position: every responder received before it
    is strictly behind. *)
Definition earliest_seen {G} `{GTIDSet G} (results : list (candidateInfo G))
    (i : nat) (r : candidateInfo G) : Prop :=
  ∀ j r', (j < i)%nat → results !! j = Some r' → err r' = None →
          AtLeast (position r') (position r) = false.

(** The position of [r] is at least that of every responder. *)
Definition highest {G} `{GTIDSet G} (results : list (candidateInfo G))
    (r : candidateInfo G) : Prop :=
  ∀ r', r' ∈ results → err r' = None →
        AtLeast (position r) (position r') = true.

(** What the collector holds after the results [rs]: nothing when nobody
    has responded, otherwise a highest responder, which is the earliest such
    responder unless its position is the zero position. *)
Definition remembered {G} `{GTIDSet G} (rs : list (candidateInfo G))
    (acc : option TabletInfo * Position G) : Prop :=
  (acc = (None, None) ∧ ∀ r, r ∈ rs → err r ≠ None)
  ∨ ∃ i r, rs !! i = Some r ∧ err r = None
           ∧ acc = (Some (tablet r), position r)
           ∧ highest rs r
           ∧ (IsZero (position r) = false → earliest_seen rs i r).

(** When no candidate responds, the first candidate is chosen. *)
Definition selects_first_candidate {G} `{GTIDSet G}
    (env : Env) (cands : list TabletInfo) (chosen : option TabletInfo) : Prop :=
  (∀ c, c ∈ cands → err (probe env c) ≠ None) → chosen = head cands.

(** When every candidate responds, a candidate with the furthest position
    is chosen.  It is the earliest received among them, always when
    [ties_always_earliest] is set, and otherwise when its position is not
    the zero position. *)
Definition selects_highest {G} `{GTIDSet G} (ties_always_earliest : bool)
    (env : Env) (cands : list TabletInfo) (chosen : option TabletInfo) : Prop :=
  (∀ c, c ∈ cands → err (probe env c) = None) → cands ≠ [] →
  let results := received (recv_order env) (probe env <$> cands) in
  ∃ i r, results !! i = Some r ∧ chosen = Some (tablet r)
         ∧ (∀ c, c ∈ cands →
                 AtLeast (position r) (position (probe env c)) = true)
         ∧ (ties_always_earliest || negb (IsZero (position r)) = true →
            earliest_seen results i r).

(** The pod stored under [k] carries the finished marker. *)
Definition finished_at (pods : gmap string Pod) (k : string) : Prop :=
  ∃ pod, pods !! k = Some pod ∧ Finished pod = true.

(** No write of the pass has put the finished marker on the pod stored
    under [k]: neither the object nor an update sent to Kubernetes carries
    it, unless the pod was listed with it. *)
Definition never_finished (k : string) (pods0 : gmap string Pod) (w : World)
  : Prop :=
  (finished_at (w_pods w) k → finished_at pods0 k)
  ∧ (∀ pod, Update k pod ∈ w_trace w → Finished pod = true →
            finished_at pods0 k).

(** The pods of the pass, as listed. *)
Definition listed_pods (AliasFromPod : Pod → TabletAlias) (env : Env)
  : gmap string Pod :=
  match client_List env with
  | inr items => buildPods AliasFromPod items
  | inl _ => ∅
  end.

(** The computation [m] keeps the property [I] of the state, whether it
    returns or panics. *)
Definition preserves {A} (I : World → Prop) (m : M A) : Prop :=
  ∀ w, I w → I (m w).2.

(** A property of the state that does not depend on the result builder. *)
Definition ignores_builder (I : World → Prop) : Prop :=
  ∀ w b, I w → I {| w_pods := w_pods w; w_trace := w_trace w; w_builder := b |}.

Definition isUpdate (a : Action) : bool :=
  match a with Update _ _ => true | _ => false end.

(** Weakest precondition: [m] run from [w] returns a value and a state in
    [Q], or panics in a state of [E]. *)
Definition wp {A} (m : M A) (Q : A → World → Prop) (E : World → Prop)
    (w : World) : Prop :=
  match m w with
  | (Done a, w') => Q a w'
  | (Panic _, w') => E w'
  end.

(** The pod without its acknowledged and finished markers. *)
Definition cleared (pod : Pod) : Pod :=
  with_markers pod {| started := started (pod_Markers pod);
                      acknowledged := false; finished := false |}.

(** Acknowledged or finished, but without a drain request: the condition of
    an aborted drain. *)
Definition aborting (pod : Pod) : Prop :=
  Started pod = false ∧ (Acknowledged pod || Finished pod) = true.

(** The writes of a pass that aborts: events, and updates that clear the
    markers of a pod listed without a drain request. *)
Definition clears_only (pods0 : gmap string Pod) (a : Action) : Prop :=
  match a with
  | Eventf _ _ => True
  | Update k pod =>
      ∃ pod0, pods0 !! k = Some pod0 ∧ Started pod0 = false ∧ pod = cleared pod0
  | _ => False
  end.

(** Every pod is as listed, or is a pod listed without a drain request
    whose markers have been cleared; and nothing but that has been
    written. *)
Definition frozen (pods0 : gmap string Pod) (w : World) : Prop :=
  (∀ k pod, w_pods w !! k = Some pod →
     ∃ pod0, pods0 !! k = Some pod0
             ∧ (pod = pod0 ∨ (Started pod0 = false ∧ pod = cleared pod0)))
  ∧ Forall (clears_only pods0) (w_trace w).

(** The image carries a version after its first colon, and this version
    does not match [mysqlImageVersion]. *)
Definition unparsed_version (image : string) : Prop :=
  ∃ name version, SplitN image ":" 2 = [name; version]
                  ∧ mysqlImageVersion_FindStringSubmatch version = [].

(** The image holds no colon: it carries no version portion. *)
Definition untagged (image : string) : Prop :=
  ∀ name version, image ≠ name +:+ ":" +:+ version.

(** The text starts with three non-empty runs of decimal digits separated
    by dots, which is what [mysqlImageVersion] looks for; what follows the
    third run is free. *)
Definition starts_with_version (s : string) : Prop :=
  ∃ d1 d2 d3 rest,
    d1 ≠ "" ∧ d2 ≠ "" ∧ d3 ≠ ""
    ∧ all_digits d1 = true ∧ all_digits d2 = true ∧ all_digits d3 = true
    ∧ s = d1 +:+ "." +:+ d2 +:+ "." +:+ d3 +:+ rest.

(** ** Scenarios *)

(** Replication positions as numbers, a larger number being further
    ahead, written in decimal. *)
#[global] Instance numeric_GTIDSet : GTIDSet N := {|
  Contains r o := (o <=? r)%N;
  parseGTIDSet s :=
    if all_digits s then inr (Z.to_N (digits_value 0 s))
    else inl ("parse error: " +:+ s)
|}.

Module Scenario.

Definition CellLabel : string := "planetscale.com/cell".
Definition TabletUidLabel : string := "planetscale.com/tablet-uid".
Definition TabletTypeLabel : string := "planetscale.com/tablet-type".
Definition ExternalMasterTabletPoolName : string := "externalmaster".
Definition MysqldContainerName : string := "mysqld".
Definition replicationRequeueDelay : Duration := 5 * Second.

Definition AliasFromPod (pod : Pod) : TabletAlias :=
  {| Cell := label (pod_Labels pod) CellLabel;
     Uid := Z.to_N (digits_value 0 (label (pod_Labels pod) TabletUidLabel)) |}.

Definition GetState (pod : Pod) : State * option Error :=
  (if Finished pod then FinishedState
   else if Acknowledged pod then AcknowledgedState
   else if Started pod then DrainingState
   else NotDrainingState, None).

(** A state machine that moves every draining tablet one step forward. *)
Definition StateTransitions (drains : gmap string State) : gmap string State :=
  (λ s, match s with
        | DrainingState => AcknowledgedState
        | AcknowledgedState => FinishedState
        | s => s
        end) <$> drains.

Definition markers (s a f : bool) : DrainMarkers :=
  {| started := s; acknowledged := a; finished := f |}.

(** A ready pod of cell zone1 that runs MySQL 8.0.30. *)
Definition pod (uid : string) (m : DrainMarkers) : Pod :=
  {| pod_Name := "vttablet-" +:+ uid;
     pod_Labels := {[ CellLabel := "zone1"; TabletUidLabel := uid;
                      TabletTypeLabel := "replica" ]};
     pod_Markers := m;
     pod_Containers := [ {| container_Name := "mysqld";
                            container_Image := "mysql:8.0.30" |} ];
     pod_Conditions := [ {| cond_Type := PodReady;
                            cond_Status := ConditionTrue |} ] |}.

Definition alias (uid : N) : option TabletAlias :=
  Some {| Cell := "zone1"; Uid := uid |}.

Definition tabletInfo (uid : N) (t : TabletType) : TabletInfo :=
  {| Alias := alias uid; Type_ := t |}.

Definition key (uid : N) : string := TabletAliasString (alias uid).

Definition keys (ts : list TabletInfo) : list string :=
  (λ t, TabletAliasString (Alias t)) <$> ts.

Definition tablets (ts : list TabletInfo) : gmap string TabletInfo :=
  list_to_map ((λ t, (TabletAliasString (Alias t), t)) <$> ts).

Definition vts : VitessShard :=
  {| vts_Status_Tablets := ∅; vts_UsingExternalDatastore := false;
     vts_MysqldImage := "mysql:8.0.30" |}.

(** An environment in which every write succeeds.  The tablet [uid]
    answers a probe with [positions uid]; every map is visited in the order
    of [ts]; the results of the probes arrive in the order [arrival]. *)
Definition env (items : list Pod) (primary : N) (ts : list TabletInfo)
    (positions : N → Error + string) (arrival : list nat) : Env :=
  {| client_List := inr items;
     topo_GetShard := inr {| PrimaryAlias := alias primary |};
     topo_GetTabletMapForShardByCell := inr (tablets ts);
     client_Update := λ _ _, None;
     tmc_ReplicationStatus :=
       λ t, match Alias t with
            | Some a => positions (Uid a)
            | None => inl "no alias"
            end;
     tmc_ExecuteFetchAsDba := λ _ _, None;
     wr_PlannedReparentShard := λ _, None;
     wr_TabletExternallyReparented := λ _, None;
     wr_ChangeTabletType := λ _ _, None;
     range_status := [];
     range_pods := keys ts;
     range_transitions := keys ts;
     range_pods_upgrade := keys ts;
     range_tablets := keys ts;
     recv_order := arrival |}.

Definition reconcileDrain (e : Env) : Res (Result * option Error) * World :=
  reconcileDrain TabletTypeLabel ExternalMasterTabletPoolName
    MysqldContainerName replicationRequeueDelay AliasFromPod GetState
    StateTransitions (G:=N) e vts initial.

Definition three : list TabletInfo :=
  [tabletInfo 100 TabletType_PRIMARY; tabletInfo 101 TabletType_REPLICA;
   tabletInfo 102 TabletType_REPLICA].

Definition abortedPods : list Pod :=
  [pod "100" (markers false false false);
   pod "101" (markers false false true);
   pod "102" (markers true false false)].

(** Tablet 101 carries a finished marker but no drain request; tablet 102
    has a drain request. *)
Definition aborted : Env :=
  env abortedPods 100 three (λ _, inr "7") [0; 1]%nat.

(** The primary 100 has a drain request which has been acknowledged. *)
Definition primaryAcknowledged : Env :=
  env [pod "100" (markers true true false);
       pod "101" (markers false false false);
       pod "102" (markers false false false)]
      100 three (λ _, inr "7") [0; 1]%nat.

(** As [aborted], but the pods cannot be listed. *)
Definition listFails : Env :=
  {| client_List := inl "the server is currently unable to handle the request";
     topo_GetShard := topo_GetShard aborted;
     topo_GetTabletMapForShardByCell := topo_GetTabletMapForShardByCell aborted;
     client_Update := client_Update aborted;
     tmc_ReplicationStatus := tmc_ReplicationStatus aborted;
     tmc_ExecuteFetchAsDba := tmc_ExecuteFetchAsDba aborted;
     wr_PlannedReparentShard := wr_PlannedReparentShard aborted;
     wr_TabletExternallyReparented := wr_TabletExternallyReparented aborted;
     wr_ChangeTabletType := wr_ChangeTabletType aborted;
     range_status := range_status aborted;
     range_pods := range_pods aborted;
     range_transitions := range_transitions aborted;
     range_pods_upgrade := range_pods_upgrade aborted;
     range_tablets := range_tablets aborted;
     recv_order := recv_order aborted |}.

(** As [aborted], but the shard record cannot be read. *)
Definition topoFails : Env :=
  {| client_List := client_List aborted;
     topo_GetShard := inl "node doesn't exist";
     topo_GetTabletMapForShardByCell := topo_GetTabletMapForShardByCell aborted;
     client_Update := client_Update aborted;
     tmc_ReplicationStatus := tmc_ReplicationStatus aborted;
     tmc_ExecuteFetchAsDba := tmc_ExecuteFetchAsDba aborted;
     wr_PlannedReparentShard := wr_PlannedReparentShard aborted;
     wr_TabletExternallyReparented := wr_TabletExternallyReparented aborted;
     wr_ChangeTabletType := wr_ChangeTabletType aborted;
     range_status := range_status aborted;
     range_pods := range_pods aborted;
     range_transitions := range_transitions aborted;
     range_pods_upgrade := range_pods_upgrade aborted;
     range_tablets := range_tablets aborted;
     recv_order := recv_order aborted |}.

(** A primary and the three replicas A, B and C. *)
Definition A : TabletInfo := tabletInfo 1 TabletType_REPLICA.
Definition B : TabletInfo := tabletInfo 2 TabletType_REPLICA.
Definition C : TabletInfo := tabletInfo 3 TabletType_REPLICA.

Definition four : list TabletInfo :=
  [tabletInfo 100 TabletType_PRIMARY; A; B; C].

Definition fourPods : gmap string Pod :=
  buildPods AliasFromPod
    [pod "100" (markers true true false); pod "1" (markers false false false);
     pod "2" (markers false false false); pod "3" (markers false false false)].

Definition shard100 : ShardInfo := {| PrimaryAlias := alias 100 |}.

Definition candidates (ts : list TabletInfo) (e : Env) : list TabletInfo :=
  candidates_range TabletTypeLabel ExternalMasterTabletPoolName
    shard100 (tablets ts) fourPods false (range_tablets e).

Definition candidatePrimary (ts : list TabletInfo) (e : Env)
  : option TabletInfo :=
  candidatePrimary TabletTypeLabel ExternalMasterTabletPoolName (G:=N) e
    shard100 (tablets ts) fourPods false.

(** A, B and C report the positions 5, 9 and 3. *)
Definition positions593 (uid : N) : Error + string :=
  if (uid =? 1)%N then inr "5" else if (uid =? 2)%N then inr "9" else inr "3".

Definition probes593 : Env := env [] 100 four positions593 [0; 1; 2]%nat.

(** A, B and C all report the empty position. *)
Definition probesEmpty : Env := env [] 100 four (λ _, inr "") [0; 1; 2]%nat.

(** A primary and the two replicas A and B, whose probes do not answer
    before the deadline. *)
Definition primaryAB : list TabletInfo :=
  [tabletInfo 100 TabletType_PRIMARY; A; B].

Definition probesTimeout : Env :=
  env [] 100 primaryAB (λ _, inl "context deadline exceeded") [0; 1]%nat.

(** A world that holds one pod. *)
Definition onePod (m : DrainMarkers) : World :=
  {| w_pods := {[ key 101 := pod "101" m ]}; w_trace := [];
     w_builder := results.empty |}.

(** A shard whose only tracked tablet is not available. *)
Definition unavailable : VitessShard :=
  {| vts_Status_Tablets := {[ key 101 := {| Available := "False" |} ]};
     vts_UsingExternalDatastore := false;
     vts_MysqldImage := "mysql:8.0.30" |}.

End Scenario.



(** ** Vocabulary of the further properties *)

(** The image carries, after its first colon, a version that the gate reads
    as [major.minor.patch]. *)
Definition tagged_version (image : string) (major minor patch : Z) : Prop :=
  ∃ name version f a b c,
    SplitN image ":" 2 = [name; version]
    ∧ mysqlImageVersion_FindStringSubmatch version = [f; a; b; c]
    ∧ fst (Atoi a) = major ∧ fst (Atoi b) = minor ∧ fst (Atoi c) = patch.

(** The three refusals of the gate, on the numbers of the current and of
    the desired version, as the source tests them. *)
Definition refused (major1 minor1 patch1 major2 minor2 patch2 : Z) : Prop :=
  major2 < major1
  ∨ (major2 = minor1 ∧ minor2 < minor1)
  ∨ (major1 = 8 ∧ minor1 = 0 ∧ major2 = 8 ∧ minor2 = 0
     ∧ patch2 < patch1 ∧ (patch1 < 34 ∨ patch2 < 34)).

(** The two pods differ at most in their acknowledged and finished
    markers. *)
Definition same_identity (pod pod0 : Pod) : Prop :=
  pod_Name pod = pod_Name pod0
  ∧ pod_Labels pod = pod_Labels pod0
  ∧ pod_Containers pod = pod_Containers pod0
  ∧ pod_Conditions pod = pod_Conditions pod0
  ∧ Started pod = Started pod0.

(** The pod stored under [k] has a tablet record, and the move from its
    mysqld image to [desiredImage] needs the safe upgrade. *)
Definition needs_safe_upgrade (MysqldContainerName : string)
    (pods : gmap string Pod) (tablets : gmap string TabletInfo)
    (desiredImage : string) (k : string) : Prop :=
  ∃ pod tablet,
    pods !! k = Some pod ∧ tablets !! k = Some tablet
    ∧ safeMysqldUpgrade (mysqldImage MysqldContainerName (pod_Containers pod))
        desiredImage = (true, None).

(** The writes of [disableFastShutdown]: the command that disables the
    fast shutdown, sent to a visited tablet that needs the safe upgrade, and
    the event that follows it. *)
Definition upgrade_write (MysqldContainerName : string)
    (pods : gmap string Pod) (tablets : gmap string TabletInfo)
    (desiredImage : string) (order : list string) (a : Action) : Prop :=
  match a with
  | ExecuteFetchAsDba k query =>
      query = disableFastShutdownQuery ∧ k ∈ order
      ∧ needs_safe_upgrade MysqldContainerName pods tablets desiredImage k
  | Eventf t r => t = EventTypeNormal ∧ r = "MySQL_Upgrade"
  | _ => False
  end.

(** Every pod of the state and every pod sent in an update differs from
    the pod listed under the same alias at most in its acknowledged and
    finished markers. *)
Definition only_markers_changed (pods0 : gmap string Pod) (w : World) : Prop :=
  (∀ k pod, w_pods w !! k = Some pod →
            ∃ pod0, pods0 !! k = Some pod0 ∧ same_identity pod pod0)
  ∧ (∀ k pod, Update k pod ∈ w_trace w →
              ∃ pod0, pods0 !! k = Some pod0 ∧ same_identity pod pod0).

(** The writes of a handover: the reparent calls of the wrangler and the
    reparent counter. *)
Definition isReparentWrite (a : Action) : bool :=
  match a with
  | PlannedReparentShard _ _ _ | TabletExternallyReparented _
  | ChangeTabletType _ _ | plannedReparentCount_Inc _ => true
  | _ => false
  end.

(** The handover writes of the trace, in their order. *)
Definition reparentWrites (tr : list Action) : list Action :=
  List.filter isReparentWrite tr.

(** The writes of one handover from [oldPrimary] to [newPrimary]. *)
Definition handover_writes (env : Env) (usingExternal : bool)
    (oldPrimary newPrimary : option TabletAlias) : list Action :=
  if usingExternal then
    match wr_TabletExternallyReparented env newPrimary with
    | Some _ =>
        [TabletExternallyReparented newPrimary; plannedReparentCount_Inc false]
    | None =>
        [TabletExternallyReparented newPrimary;
         ChangeTabletType oldPrimary TabletType_SPARE;
         plannedReparentCount_Inc
           (bool_decide (wr_ChangeTabletType env oldPrimary TabletType_SPARE
                         = None))]
    end
  else
    [PlannedReparentShard newPrimary plannedReparentTimeout
       tolerableReplicationLag;
     plannedReparentCount_Inc
       (bool_decide (wr_PlannedReparentShard env newPrimary = None))].

(** The new primary that a reparent call names. *)
Definition handover_target (a : Action) : option (option TabletAlias) :=
  match a with
  | PlannedReparentShard newPrimary _ _ => Some newPrimary
  | TabletExternallyReparented newPrimary => Some newPrimary
  | _ => None
  end.

(** The drain states that the pass loads: the state of every listed pod
    that carries a drain request. *)
Definition drainStates (GetState : Pod → State * option Error)
    (pods0 : gmap string Pod) : gmap string State :=
  (λ pod, (GetState pod).1) <$> filter (λ kp, Started kp.2 = true) pods0.

(** The drain states loaded by a loop that visits [order], starting from
    [drains]. *)
Definition drains_loaded (GetState : Pod → State * option Error)
    (pods0 : gmap string Pod) (order : list string)
    (drains : gmap string State) : gmap string State :=
  foldl (λ drains k,
           match pods0 !! k with
           | Some pod =>
               if Started pod then <[k := (GetState pod).1]> drains
               else drains
           | None => drains
           end) drains order.

(** No handover write has been made. *)
Definition quiet (w : World) : Prop := reparentWrites (w_trace w) = [].

(** Every alias without a pod in the state has no listed pod. *)
Definition covers (pods0 : gmap string Pod) (w : World) : Prop :=
  ∀ k, w_pods w !! k = None → pods0 !! k = None.

(** An update of the pass is accounted for: it clears the markers of a pod
    listed without a drain request, or it carries a pod that encodes the
    state proposed for it by [transitions], which is not the finished state
    for the primary [P]. *)
Definition accounted (pods0 : gmap string Pod)
    (transitions : gmap string State) (P : string) (a : Action) : Prop :=
  match a with
  | Update k pod =>
      (∃ pod0, pods0 !! k = Some pod0 ∧ Started pod0 = false
               ∧ pod = cleared pod0)
      ∨ (∃ s, transitions !! k = Some s ∧ encodes pod s
              ∧ ¬ (s = FinishedState ∧ k = P))
  | _ => True
  end.

(** ** Further scenarios *)

Module Cases.

(** The primary 100 without a drain request and the replica 101 with its
    markers cleared by hand but for the acknowledged one: no pod carries a
    drain request. *)
Definition noRequests : Env :=
  Scenario.env [Scenario.pod "100" (Scenario.markers false false false);
                Scenario.pod "101" (Scenario.markers false true false)]
               100 Scenario.three (λ _, inr "7") [0; 1]%nat.

(** As [Scenario.aborted], but the health check visits tablet 101. *)
Definition statusVisited : Env :=
  {| client_List := client_List Scenario.aborted;
     topo_GetShard := topo_GetShard Scenario.aborted;
     topo_GetTabletMapForShardByCell :=
       topo_GetTabletMapForShardByCell Scenario.aborted;
     client_Update := client_Update Scenario.aborted;
     tmc_ReplicationStatus := tmc_ReplicationStatus Scenario.aborted;
     tmc_ExecuteFetchAsDba := tmc_ExecuteFetchAsDba Scenario.aborted;
     wr_PlannedReparentShard := wr_PlannedReparentShard Scenario.aborted;
     wr_TabletExternallyReparented :=
       wr_TabletExternallyReparented Scenario.aborted;
     wr_ChangeTabletType := wr_ChangeTabletType Scenario.aborted;
     range_status := [Scenario.key 101];
     range_pods := range_pods Scenario.aborted;
     range_transitions := range_transitions Scenario.aborted;
     range_pods_upgrade := range_pods_upgrade Scenario.aborted;
     range_tablets := range_tablets Scenario.aborted;
     recv_order := recv_order Scenario.aborted |}.

(** The pass of [statusVisited] on the shard whose tablet 101 is not
    available. *)
Definition unhealthyPass : Res (Result * option Error) * World :=
  reconcileDrain Scenario.TabletTypeLabel
    Scenario.ExternalMasterTabletPoolName Scenario.MysqldContainerName
    Scenario.replicationRequeueDelay Scenario.AliasFromPod Scenario.GetState
    Scenario.StateTransitions (G:=N) statusVisited Scenario.unavailable
    initial.

(** The replica 101 has a drain request that nobody has acknowledged. *)
Definition replicaDraining : Env :=
  Scenario.env [Scenario.pod "100" (Scenario.markers false false false);
                Scenario.pod "101" (Scenario.markers true false false)]
               100 Scenario.three (λ _, inr "7") [0; 1]%nat.

(** A state machine that leaves every tablet in its state, and so proposes
    the draining state for a draining tablet. *)
Definition stuck (drains : gmap string State) : gmap string State := drains.

Definition stuckPass : Res (Result * option Error) * World :=
  reconcileDrain Scenario.TabletTypeLabel
    Scenario.ExternalMasterTabletPoolName Scenario.MysqldContainerName
    Scenario.replicationRequeueDelay Scenario.AliasFromPod Scenario.GetState
    stuck (G:=N) replicaDraining Scenario.vts initial.

(** The three pods of a shard, all running MySQL 8.0.30, before a change
    of the mysqld image. *)
Definition threePods : World :=
  {| w_pods :=
       buildPods Scenario.AliasFromPod
         [Scenario.pod "100" (Scenario.markers false false false);
          Scenario.pod "101" (Scenario.markers false false false);
          Scenario.pod "102" (Scenario.markers true false false)];
     w_trace := []; w_builder := results.empty |}.

Definition disableFastShutdown (desiredImage : string)
  : Res (option Error) * World :=
  disableFastShutdown Scenario.MysqldContainerName Scenario.aborted
    (Scenario.tablets Scenario.three) desiredImage
    (Scenario.keys Scenario.three) threePods.

(** The primary 100 and the replica 101, whose drain request has been
    acknowledged and is finished by this pass. *)
Definition replicaAcknowledged : Env :=
  Scenario.env [Scenario.pod "100" (Scenario.markers false false false);
                Scenario.pod "101" (Scenario.markers true true false)]
               100 Scenario.three (λ _, inr "7") [0; 1]%nat.

(** The pods of [replicaAcknowledged], and the loop over the transitions
    that finishes the drain of the replica 101. *)
Definition twoPods : World :=
  {| w_pods :=
       buildPods Scenario.AliasFromPod
         [Scenario.pod "100" (Scenario.markers false false false);
          Scenario.pod "101" (Scenario.markers true true false)];
     w_trace := []; w_builder := results.empty |}.

Definition finishReplica : gmap string State :=
  {[ Scenario.key 101 := FinishedState ]}.

Definition applyTransitions : Res bool * World :=
  applyTransitions Scenario.aborted (Scenario.key 100) finishReplica
    (Scenario.keys Scenario.three) false twoPods.

End Cases.

(** * Proofs *)

(** ** The safe-upgrade version gate *)

Example safeMysqldUpgrade_upgrade_8_0_33 :
  safeMysqldUpgrade "docker.io/vitess/mysql:8.0.33" "docker.io/vitess/mysql:8.0.34"
  = (true, None).
Proof. reflexivity. Qed.

Example SplitN_first_colon : SplitN "a:b:c" ":" 2 = ["a"; "b:c"].
Proof. reflexivity. Qed.

Example FindStringSubmatch_suffix :
  mysqlImageVersion_FindStringSubmatch "8.0.34-debian"
  = ["8.0.34"; "8"; "0"; "34"].
Proof. reflexivity. Qed.

Example Atoi_saturates : fst (Atoi "99999999999999999999") = maxInt.
Proof. reflexivity. Qed.

(** An image [name:version] whose name holds no colon is cut at that
    colon. *)
Lemma Cut_tagged (name version : string) :
  Cut name ":" = None →
  Cut (name +:+ ":" +:+ version) ":" = Some (name, version).
Proof.
  induction name as [|c name IH]; intros Hn.
  - reflexivity.
  - change (Cut (String c (name +:+ ":" +:+ version)) ":"
            = Some (String c name, version)).
    cbn [Cut HasPrefix] in *.
    destruct (Ascii.eqb ":" c); [done|]. cbn [andb] in *.
    destruct (Cut name ":") as [[b a]|] eqn:E; [done|].
    by rewrite IH.
Qed.

Lemma SplitN_tagged (name version : string) :
  Cut name ":" = None →
  SplitN (name +:+ ":" +:+ version) ":" 2 = [name; version].
Proof. intros Hn. cbn [SplitN]. by rewrite (Cut_tagged _ _ Hn). Qed.

Lemma tagged_inj n1 v1 n2 v2 :
  Cut n1 ":" = None → Cut n2 ":" = None →
  n1 +:+ ":" +:+ v1 = n2 +:+ ":" +:+ v2 → n1 = n2 ∧ v1 = v2.
Proof.
  intros H1 H2 E. pose proof (Cut_tagged n1 v1 H1) as C1.
  rewrite E, (Cut_tagged n2 v2 H2) in C1. by simplify_eq.
Qed.

Lemma tagged_nonempty n v : n +:+ ":" +:+ v ≠ "".
Proof. by destruct n. Qed.

(** The gate only looks at the versions of two tagged images. *)
Lemma safeMysqldUpgrade_tagged n1 v1 n2 v2 :
  Cut n1 ":" = None → Cut n2 ":" = None → v1 ≠ v2 →
  safeMysqldUpgrade (n1 +:+ ":" +:+ v1) (n2 +:+ ":" +:+ v2)
  = safeMysqldUpgrade (String ":" v1) (String ":" v2).
Proof.
  intros H1 H2 Hv. unfold safeMysqldUpgrade.
  rewrite !SplitN_tagged by done.
  change (SplitN (String ":" v1) ":" 2) with [""; v1].
  change (SplitN (String ":" v2) ":" 2) with [""; v2].
  rewrite (bool_decide_eq_false_2 (n1 +:+ ":" +:+ v1 = ""))
    by apply tagged_nonempty.
  rewrite (bool_decide_eq_false_2 (n2 +:+ ":" +:+ v2 = ""))
    by apply tagged_nonempty.
  rewrite (bool_decide_eq_false_2 (n2 +:+ ":" +:+ v2 = n1 +:+ ":" +:+ v1))
    by (intros E; apply tagged_inj in E as [_ ?]; done).
  rewrite (bool_decide_eq_false_2 (String ":" v1 = "")) by done.
  rewrite (bool_decide_eq_false_2 (String ":" v2 = "")) by done.
  rewrite (bool_decide_eq_false_2 (String ":" v2 = String ":" v1))
    by (intros E; by inversion E).
  reflexivity.
Qed.

(** A downgrade of the major version is refused. *)
Example major_downgrade_rejected :
  safeMysqldUpgrade "mysql:8.0.36" "mysql:5.7.44"
  = (false, Some "cannot downgrade major version from 8.0.36 to 5.7.44").
Proof. reflexivity. Qed.

(** The one shape of minor downgrade that is refused: the current minor
    number equals the major number. *)
Example minor_downgrade_rejected_when_minor_is_major :
  safeMysqldUpgrade "mysql:8.8.0" "mysql:8.7.0"
  = (false, Some "cannot downgrade minor version from 8.8.0 to 8.7.0").
Proof. reflexivity. Qed.

(** A downgrade of the major version is refused, whatever the rest of the
    two versions. *)
Lemma major_downgrade_always_rejected
    (currentImage desiredImage name1 current name2 desired : string)
    (f1 major1 minor1 patch1 f2 major2 minor2 patch2 : string) :
  currentImage ≠ "" → desiredImage ≠ "" → desiredImage ≠ currentImage →
  SplitN currentImage ":" 2 = [name1; current] →
  SplitN desiredImage ":" 2 = [name2; desired] →
  mysqlImageVersion_FindStringSubmatch current = [f1; major1; minor1; patch1] →
  mysqlImageVersion_FindStringSubmatch desired = [f2; major2; minor2; patch2] →
  fst (Atoi major2) < fst (Atoi major1) →
  safeMysqldUpgrade currentImage desiredImage
  = (false, Some ("cannot downgrade major version from " +:+ current
                    +:+ " to " +:+ desired)).
Proof.
  intros Hc Hd Hne Hsc Hsd Hpc Hpd Hmajor. unfold safeMysqldUpgrade.
  rewrite (bool_decide_eq_false_2 (currentImage = "")) by done.
  rewrite (bool_decide_eq_false_2 (desiredImage = "")) by done.
  rewrite (bool_decide_eq_false_2 (desiredImage = currentImage)) by done.
  rewrite Hsc, Hsd. cbn [length Nat.eqb negb orb nth].
  rewrite Hpc, Hpd. cbn [length Nat.eqb negb].
  rewrite bool_decide_eq_false_2 by (intros [= -> -> -> ->]; lia).
  unfold version_parts, part. cbn [tail map nth fst].
  by rewrite (proj2 (Z.ltb_lt _ _) Hmajor).
Qed.

(** C3 (code defect): a downgrade of the minor version within one major
    version is not refused, unless the current minor number happens to
    equal the major number.  The test of the source compares the desired
    major number with the current minor number
    ([dstParts[0] == curParts[1]]), so the branch that returns "cannot
    downgrade minor version" is not taken, and the gate answers that a safe
    upgrade is needed, without an error. *)
Theorem minor_downgrade_not_rejected
    (currentImage desiredImage name1 current name2 desired : string)
    (f1 major1 minor1 patch1 f2 major2 minor2 patch2 : string) :
  currentImage ≠ "" → desiredImage ≠ "" → desiredImage ≠ currentImage →
  SplitN currentImage ":" 2 = [name1; current] →
  SplitN desiredImage ":" 2 = [name2; desired] →
  mysqlImageVersion_FindStringSubmatch current = [f1; major1; minor1; patch1] →
  mysqlImageVersion_FindStringSubmatch desired = [f2; major2; minor2; patch2] →
  fst (Atoi major2) = fst (Atoi major1) →
  fst (Atoi minor2) < fst (Atoi minor1) →
  fst (Atoi major2) ≠ fst (Atoi minor1) →
  safeMysqldUpgrade currentImage desiredImage = (true, None).
Proof.
  intros Hc Hd Hne Hsc Hsd Hpc Hpd Hmajor Hminor Hslip.
  unfold safeMysqldUpgrade.
  rewrite (bool_decide_eq_false_2 (currentImage = "")) by done.
  rewrite (bool_decide_eq_false_2 (desiredImage = "")) by done.
  rewrite (bool_decide_eq_false_2 (desiredImage = currentImage)) by done.
  rewrite Hsc, Hsd. cbn [length Nat.eqb negb orb nth].
  rewrite Hpc, Hpd. cbn [length Nat.eqb negb].
  rewrite bool_decide_eq_false_2 by (intros [= -> -> -> ->]; lia).
  unfold version_parts, part. cbn [tail map nth fst].
  rewrite Hmajor, Z.ltb_irrefl.
  rewrite <- Hmajor at 1.
  rewrite (proj2 (Z.eqb_neq _ _) Hslip). cbn [andb].
  rewrite Z.eqb_refl. cbn [negb orb].
  assert ((fst (Atoi minor2) =? fst (Atoi minor1)) = false) as ->
    by (apply Z.eqb_neq; lia).
  destruct (fst (Atoi major1) =? 8); cbn [andb negb orb]; [|done].
  destruct (fst (Atoi minor2) =? 0) eqn:H2; cbn [andb]; [|done].
  assert ((fst (Atoi minor1) =? 0) = false) as ->; [|done].
  apply Z.eqb_eq in H2. apply Z.eqb_neq. lia.
Qed.

(** The failing input of C3: from 8.4.0 down to 8.0.36. *)
Lemma minor_downgrade_not_rejected_witness :
  safeMysqldUpgrade "mysql:8.4.0" "mysql:8.0.36" = (true, None).
Proof.
  apply (minor_downgrade_not_rejected
           "mysql:8.4.0" "mysql:8.0.36" "mysql" "8.4.0" "mysql" "8.0.36"
           "8.4.0" "8" "4" "0" "8.0.36" "8" "0" "36");
    [discriminate | discriminate | discriminate | reflexivity | reflexivity
    | reflexivity | reflexivity | reflexivity | reflexivity | discriminate].
Defined.

(** The strings of the spec hold no colon, and the gate does not look for a
    version in them. *)
Example gate_on_bare_versions_values :
  safeMysqldUpgrade "8.0.33" "8.0.34" = (false, None)
  ∧ safeMysqldUpgrade "8.0.35" "8.0.36" = (false, None)
  ∧ safeMysqldUpgrade "8.0.34" "8.0.20" = (false, None)
  ∧ safeMysqldUpgrade "5.7.9" "8.0.1" = (false, None).
Proof. by split_and!. Qed.

(** C5 as the spec states it, on the bare version strings, does not hold:
    without a colon in the image the gate returns false and no error for
    each of the four pairs. *)
Lemma gate_on_bare_versions :
  ¬ (safeMysqldUpgrade "8.0.33" "8.0.34" = (true, None)
     ∧ safeMysqldUpgrade "8.0.35" "8.0.36" = (false, None)
     ∧ snd (safeMysqldUpgrade "8.0.34" "8.0.20") ≠ None
     ∧ safeMysqldUpgrade "5.7.9" "8.0.1" = (true, None)).
Proof. intros (Hfirst & _). vm_compute in Hfirst. discriminate. Qed.

(** C5 (amended): on images [name:version] tagged with the versions of the
    spec, whatever the names, the gate yields: 8.0.33 to 8.0.34, safe
    upgrade needed; 8.0.35 to 8.0.36, not needed; 8.0.34 to 8.0.20, the error
    of a patch downgrade; 5.7.9 to 8.0.1, needed. *)
Theorem gate_on_tagged_images (current desired : string) :
  Cut current ":" = None → Cut desired ":" = None →
  safeMysqldUpgrade (current +:+ ":" +:+ "8.0.33") (desired +:+ ":" +:+ "8.0.34")
  = (true, None)
  ∧ safeMysqldUpgrade (current +:+ ":" +:+ "8.0.35")
                      (desired +:+ ":" +:+ "8.0.36")
    = (false, None)
  ∧ safeMysqldUpgrade (current +:+ ":" +:+ "8.0.34")
                      (desired +:+ ":" +:+ "8.0.20")
    = (false, Some "cannot downgrade patch version from 8.0.34 to 8.0.20")
  ∧ safeMysqldUpgrade (current +:+ ":" +:+ "5.7.9")
                      (desired +:+ ":" +:+ "8.0.1")
    = (true, None).
Proof.
  intros Hc Hd. split_and!;
    by rewrite (safeMysqldUpgrade_tagged current _ desired _ Hc Hd).
Qed.

Lemma gate_on_tagged_images_witness :
  safeMysqldUpgrade "mysql:8.0.33" "mysql:8.0.34" = (true, None)
  ∧ safeMysqldUpgrade "mysql:8.0.35" "mysql:8.0.36" = (false, None)
  ∧ safeMysqldUpgrade "mysql:8.0.34" "mysql:8.0.20"
    = (false, Some "cannot downgrade patch version from 8.0.34 to 8.0.20")
  ∧ safeMysqldUpgrade "mysql:5.7.9" "mysql:8.0.1" = (true, None).
Proof.
  apply (gate_on_tagged_images "mysql" "mysql"); reflexivity.
Defined.

(** C8 as the spec states it does not hold: the version "latest" of the
    current image does not parse, yet with a desired image that holds no
    colon the gate returns false. *)
Lemma unparsed_version_without_tag :
  ¬ (∀ currentImage desiredImage,
       currentImage ≠ "" → desiredImage ≠ "" → desiredImage ≠ currentImage →
       unparsed_version currentImage ∨ unparsed_version desiredImage →
       safeMysqldUpgrade currentImage desiredImage = (true, None)).
Proof.
  intros Hclaim.
  specialize (Hclaim "mysql:latest" "mysql").
  assert (safeMysqldUpgrade "mysql:latest" "mysql" = (false, None)) as Hrun
    by reflexivity.
  rewrite Hrun in Hclaim.
  assert ((false, @None Error) = (true, None)) as Habsurd; [|discriminate].
  apply Hclaim; [done..|]. left. by exists "mysql", "latest".
Qed.

Lemma append_cons c s1 s2 : String c s1 +:+ s2 = String c (s1 +:+ s2).
Proof. reflexivity. Qed.

Lemma append_nil s : "" +:+ s = s.
Proof. reflexivity. Qed.

Lemma all_digits_cons c s :
  all_digits (String c s) = is_digit c && all_digits s.
Proof. reflexivity. Qed.

(** [span_digits] splits the text after a run of digits. *)
Lemma span_digits_split s :
  s = (span_digits s).1 +:+ (span_digits s).2
  ∧ all_digits (span_digits s).1 = true.
Proof.
  induction s as [|c s [IH1 IH2]]; [done|].
  cbn [span_digits]. destruct (is_digit c) eqn:Hc; [|done].
  destruct (span_digits s) as [d r]. cbn [fst snd] in *.
  rewrite append_cons, all_digits_cons, Hc, IH2. by rewrite <- IH1.
Qed.

(** A run of digits in front is taken whole. *)
Lemma span_digits_app d r :
  all_digits d = true →
  span_digits (d +:+ r) = (d +:+ (span_digits r).1, (span_digits r).2).
Proof.
  induction d as [|c d IH]; intros Hd.
  - rewrite !append_nil. by destruct (span_digits r).
  - rewrite all_digits_cons in Hd. apply andb_prop in Hd as [Hc Hd].
    rewrite append_cons. cbn [span_digits]. rewrite Hc, (IH Hd).
    by rewrite append_cons.
Qed.

Lemma span_digits_dot r : span_digits (String "." r) = ("", String "." r).
Proof. reflexivity. Qed.

Lemma append_empty s1 s2 : s1 +:+ s2 = "" → s1 = "".
Proof. by destruct s1. Qed.

(** [mysqlImageVersion] matches exactly the texts that start with three
    runs of digits separated by dots. *)
Lemma match_version_starts s :
  match_version s ≠ None ↔ starts_with_version s.
Proof.
  split.
  - unfold match_version. intros Hm.
    destruct (span_digits_split s) as [Hs1 Hd1].
    destruct (span_digits s) as [d1 r1]. cbn [fst snd] in *.
    case_bool_decide as Hn1; [done|].
    destruct r1 as [|c1 r1']; [done|].
    destruct (Ascii.eqb_spec c1 ".") as [->|Hc1].
    2: { destruct c1 as [[] [] [] [] [] [] [] []]; done. }
    destruct (span_digits_split r1') as [Hs2 Hd2].
    destruct (span_digits r1') as [d2 r2]. cbn [fst snd] in *.
    case_bool_decide as Hn2; [done|].
    destruct r2 as [|c2 r2']; [done|].
    destruct (Ascii.eqb_spec c2 ".") as [->|Hc2].
    2: { destruct c2 as [[] [] [] [] [] [] [] []]; done. }
    destruct (span_digits_split r2') as [Hs3 Hd3].
    destruct (span_digits r2') as [d3 r3]. cbn [fst snd] in *.
    case_bool_decide as Hn3; [done|].
    exists d1, d2, d3, r3. split_and!; [done..|].
    by rewrite Hs1, Hs2, Hs3 at 1.
  - intros (d1 & d2 & d3 & rest & Hn1 & Hn2 & Hn3 & Hd1 & Hd2 & Hd3 & ->).
    unfold match_version.
    rewrite (span_digits_app d1 _ Hd1), append_cons, append_nil.
    rewrite span_digits_dot. cbn [fst snd].
    rewrite (bool_decide_eq_false_2 (d1 +:+ "" = ""))
      by (intros ?%append_empty; done).
    rewrite (span_digits_app d2 _ Hd2), append_cons, append_nil.
    rewrite span_digits_dot. cbn [fst snd].
    rewrite (bool_decide_eq_false_2 (d2 +:+ "" = ""))
      by (intros ?%append_empty; done).
    rewrite (span_digits_app d3 _ Hd3).
    destruct (span_digits rest) as [d r]. cbn [fst snd].
    by rewrite bool_decide_eq_false_2 by (intros ?%append_empty; done).
Qed.

Lemma FindStringSubmatch_nil s :
  mysqlImageVersion_FindStringSubmatch s = [] ↔ ¬ starts_with_version s.
Proof.
  rewrite <- match_version_starts. unfold mysqlImageVersion_FindStringSubmatch.
  destruct (match_version s) as [[[d1 d2] d3]|]; split.
  - done.
  - intros Hn. by destruct Hn.
  - intros _ Hn. by apply Hn.
  - done.
Qed.

(** [Cut] finds the first colon of a text that holds one. *)
Lemma Cut_Some s before after :
  Cut s ":" = Some (before, after) → s = before +:+ ":" +:+ after.
Proof.
  revert before. induction s as [|c s IH]; intros before; [done|].
  cbn [Cut HasPrefix]. destruct (Ascii.eqb_spec ":" c) as [<-|Hc]; cbn [andb].
  - intros [= <- <-]. reflexivity.
  - destruct (Cut s ":") as [[b a]|]; [|done]. intros [= <- <-].
    by rewrite append_cons, <- (IH b).
Qed.

Lemma Cut_colon name version : Cut (name +:+ ":" +:+ version) ":" ≠ None.
Proof.
  induction name as [|c name IH]; [done|].
  rewrite append_cons. cbn [Cut HasPrefix].
  destruct (Ascii.eqb ":" c); cbn [andb]; [done|].
  by destruct (Cut (name +:+ ":" +:+ version) ":") as [[b a]|].
Qed.

Lemma untagged_Cut image : untagged image ↔ Cut image ":" = None.
Proof.
  split.
  - intros Hu. destruct (Cut image ":") as [[b a]|] eqn:Hc; [|done].
    apply Cut_Some in Hc. by destruct (Hu b a).
  - intros Hc name version ->. by apply Cut_colon in Hc.
Qed.

Lemma SplitN_untagged image : untagged image → SplitN image ":" 2 = [image].
Proof. intros Hu%untagged_Cut. cbn [SplitN]. by rewrite Hu. Qed.

Lemma Cut_before s before after :
  Cut s ":" = Some (before, after) → Cut before ":" = None.
Proof.
  revert before. induction s as [|c s IH]; intros before; [done|].
  cbn [Cut HasPrefix]. destruct (Ascii.eqb ":" c) eqn:Hc; cbn [andb].
  - by intros [= <- <-].
  - destruct (Cut s ":") as [[b a]|]; [|done]. intros [= <- <-].
    cbn [Cut HasPrefix]. rewrite Hc. cbn [andb]. by rewrite (IH b).
Qed.

(** Every image that holds a colon is a name without a colon, the colon
    and the text after it. *)
Lemma tagged_first_colon image :
  ¬ untagged image →
  ∃ name version, untagged name ∧ image = name +:+ ":" +:+ version.
Proof.
  intros Hn. destruct (Cut image ":") as [[name version]|] eqn:Hc.
  - exists name, version. split.
    + apply untagged_Cut. by eapply Cut_before.
    + by apply Cut_Some.
  - destruct Hn. by apply untagged_Cut.
Qed.

(** A version that is not a semantic version but starts with three numbers
    is read from these numbers: the fourth number and the suffixes below
    are not looked at, and the gate answers from 8.0.34 to 8.0.35 and from
    8.0.36 to 8.0.20. *)
Example version_prefix_is_parsed :
  safeMysqldUpgrade "mysql:8.0.34.1" "mysql:8.0.35.1" = (false, None)
  ∧ safeMysqldUpgrade "mysql:8.0.36_a" "mysql:8.0.20_b"
    = (false, Some "cannot downgrade patch version from 8.0.36_a to 8.0.20_b").
Proof. split; reflexivity. Qed.

(** C8 (amended): for two different images that both hold a colon, when
    the text after the first colon of either one does not start with three
    runs of decimal digits separated by dots, which is what
    [mysqlImageVersion] looks for, the gate answers that a safe upgrade is
    needed, with no error.  When either image holds no colon, the gate
    answers that no safe upgrade is needed, with no error. *)
Theorem unparsed_version_needs_safe_upgrade :
  (∀ name1 current name2 desired : string,
     untagged name1 → untagged name2 →
     name2 +:+ ":" +:+ desired ≠ name1 +:+ ":" +:+ current →
     ¬ starts_with_version current ∨ ¬ starts_with_version desired →
     safeMysqldUpgrade (name1 +:+ ":" +:+ current) (name2 +:+ ":" +:+ desired)
     = (true, None))
  ∧ (∀ currentImage desiredImage : string,
       untagged currentImage ∨ untagged desiredImage →
       safeMysqldUpgrade currentImage desiredImage = (false, None)).
Proof.
  split.
  - intros name1 current name2 desired Hn1%untagged_Cut Hn2%untagged_Cut
      Hne Hparse.
    unfold safeMysqldUpgrade.
    rewrite (bool_decide_eq_false_2 (name1 +:+ ":" +:+ current = ""))
      by apply tagged_nonempty.
    rewrite (bool_decide_eq_false_2 (name2 +:+ ":" +:+ desired = ""))
      by apply tagged_nonempty.
    rewrite (bool_decide_eq_false_2 (_ = _)) by exact Hne.
    rewrite !SplitN_tagged by done. cbn [length Nat.eqb negb orb nth].
    destruct Hparse as [Hp%FindStringSubmatch_nil|Hp%FindStringSubmatch_nil].
    + by rewrite Hp.
    + rewrite Hp. cbn [length Nat.eqb negb].
      by destruct (negb (length (mysqlImageVersion_FindStringSubmatch current)
                         =? 4)%nat).
  - intros currentImage desiredImage Hun. unfold safeMysqldUpgrade.
    destruct (_ || _); [done|]. destruct (bool_decide _); [done|].
    destruct Hun as [Hu|Hu].
    + by rewrite (SplitN_untagged _ Hu).
    + destruct (negb (length (SplitN currentImage ":" 2) =? 2)%nat); [done|].
      by rewrite (SplitN_untagged _ Hu).
Qed.

Lemma unparsed_version_needs_safe_upgrade_witness :
  safeMysqldUpgrade "mysql:latest" "mysql:8.0.34" = (true, None)
  ∧ safeMysqldUpgrade "mysql:latest" "mysql" = (false, None).
Proof.
  split.
  - apply (proj1 unparsed_version_needs_safe_upgrade
             "mysql" "latest" "mysql" "8.0.34").
    + apply untagged_Cut. reflexivity.
    + apply untagged_Cut. reflexivity.
    + discriminate.
    + left. apply FindStringSubmatch_nil. reflexivity.
  - apply (proj2 unparsed_version_needs_safe_upgrade "mysql:latest" "mysql").
    right. apply untagged_Cut. reflexivity.
Defined.

(** ** The shard health gate *)

Lemma visits_all_elem {V} order (m : gmap string V) k v :
  visits_all order m → m !! k = Some v → k ∈ order.
Proof.
  intros Hall Hk. assert (k ∈ dom m) as Hd by (apply elem_of_dom; eauto).
  apply Hall in Hd. by apply elem_of_list_to_set in Hd.
Qed.

Lemma isShardHealthy_range_Some tablets order e :
  isShardHealthy_range tablets order = Some e →
  ∃ name t, name ∈ order ∧ tablets !! name = Some t
            ∧ Available t ≠ ConditionTrue.
Proof.
  induction order as [|name rest IH]; [done|]. cbn [isShardHealthy_range].
  destruct (tablets !! name) as [t|] eqn:Ht.
  - case_bool_decide as Ha.
    + intros _. exists name, t. split_and!; [left | done | done].
    + intros Hr. destruct (IH Hr) as (n & t' & ? & ? & ?).
      exists n, t'. split_and!; [by right | done | done].
  - intros Hr. destruct (IH Hr) as (n & t' & ? & ? & ?).
    exists n, t'. split_and!; [by right | done | done].
Qed.

Lemma isShardHealthy_range_None tablets order :
  isShardHealthy_range tablets order = None →
  ∀ name t, name ∈ order → tablets !! name = Some t →
            Available t = ConditionTrue.
Proof.
  induction order as [|n rest IH]; intros Hr name t Hin Ht.
  - by apply elem_of_nil in Hin.
  - cbn [isShardHealthy_range] in Hr.
    apply elem_of_cons in Hin as [->|Hin].
    + rewrite Ht in Hr. case_bool_decide as Ha; [done|].
      destruct (decide (Available t = ConditionTrue)); [done | by destruct Ha].
    + destruct (tablets !! n) as [t'|]; [|by eapply IH].
      case_bool_decide; [done|]. by eapply IH.
Qed.

Lemma isShardHealthy_range_empty order : isShardHealthy_range ∅ order = None.
Proof.
  induction order as [|n rest IH]; [done|]. cbn [isShardHealthy_range].
  by rewrite lookup_empty.
Qed.

Section HealthGate.

Variable TabletTypeLabel : string.
Variable ExternalMasterTabletPoolName : string.
Variable MysqldContainerName : string.
Variable replicationRequeueDelay : Duration.
Variable GetState : Pod -> State * option Error.
Variable StateTransitions : gmap string State -> gmap string State.
Context {G : Type} `{GTIDSet G}.

(** C10: [isShardHealthy] reports an error exactly when some entry of the
    status map of the shard is not marked Available; it looks at nothing
    else.  For a shard whose status map is empty it reports no error, and
    the pass goes on to phase 2 whatever pods are in the store. *)
Theorem shard_health_gate (vts : VitessShard) (order : list string) :
  visits_all order (vts_Status_Tablets vts) →
  (isShardHealthy order vts ≠ None ↔
     ∃ name t, vts_Status_Tablets vts !! name = Some t
               ∧ Available t ≠ ConditionTrue)
  ∧ (vts_Status_Tablets vts = ∅ →
     isShardHealthy order vts = None
     ∧ ∀ env shard tablets, range_status env = order →
         reconcileAfterReads TabletTypeLabel ExternalMasterTabletPoolName
           MysqldContainerName replicationRequeueDelay GetState
           StateTransitions env vts shard tablets
         = reconcileHealthy TabletTypeLabel ExternalMasterTabletPoolName
             MysqldContainerName replicationRequeueDelay GetState
             StateTransitions env vts shard tablets).
Proof.
  intros Hall. unfold isShardHealthy. split; [split|].
  - destruct (isShardHealthy_range _ order) as [e|] eqn:E; [|done].
    intros _. apply isShardHealthy_range_Some in E as (n & t & _ & ? & ?).
    eauto.
  - intros (name & t & Ht & Ha) Hn.
    apply Ha. eapply isShardHealthy_range_None; [done| |done].
    by eapply visits_all_elem.
  - intros Hempty. rewrite Hempty. split; [apply isShardHealthy_range_empty|].
    intros env shard tablets Horder. unfold reconcileAfterReads, isShardHealthy.
    by rewrite Hempty, isShardHealthy_range_empty.
Qed.

End HealthGate.

Lemma shard_health_gate_witness :
  isShardHealthy [Scenario.key 101] Scenario.unavailable ≠ None.
Proof.
  apply (shard_health_gate "" "" "" 0 Scenario.GetState
           Scenario.StateTransitions (G:=N) Scenario.unavailable
           [Scenario.key 101]).
  - apply (bool_decide_unpack _). vm_compute. exact I.
  - exists (Scenario.key 101), {| Available := "False" |}.
    split; [reflexivity | discriminate].
Defined.

(** ** updateDrainStatus *)

Lemma updateDrainStatus_fixed env k s w pod :
  w_pods w !! k = Some pod → encodes pod s →
  updateDrainStatus env k s w = (Done None, w).
Proof.
  intros Hk He. destruct s; cbn [encodes] in He;
    unfold updateDrainStatus, bind, deref, ret; cbn [w_pods].
  - destruct He as [Hf Ha]. rewrite Hk, Hf. cbn. by rewrite Hk, Ha.
  - done.
  - by rewrite Hk, He.
  - by rewrite Hk, He.
Qed.

Lemma updateDrainStatus_reaches env k s w pod :
  w_pods w !! k = Some pod → s ≠ DrainingState →
  ∃ r w' pod', updateDrainStatus env k s w = (Done r, w')
               ∧ w_pods w' !! k = Some pod' ∧ encodes pod' s.
Proof.
  intros Hk Hs. destruct pod as [n l [st ak fi] c cd].
  destruct s; [|done| |];
    unfold updateDrainStatus, clientUpdate, bind, deref, ret, store_pod, now,
      emit, encodes; cbn [w_pods w_trace w_builder].
  - destruct fi, ak;
      repeat first [rewrite Hk | rewrite lookup_insert_eq | progress cbn];
      eexists _, _, _; (split; [reflexivity|]); cbn;
      rewrite ?lookup_insert_eq; eauto.
  - destruct ak;
      repeat first [rewrite Hk | rewrite lookup_insert_eq | progress cbn];
      eexists _, _, _; (split; [reflexivity|]); cbn;
      rewrite ?lookup_insert_eq; eauto.
  - destruct fi;
      repeat first [rewrite Hk | rewrite lookup_insert_eq | progress cbn];
      eexists _, _, _; (split; [reflexivity|]); cbn;
      rewrite ?lookup_insert_eq; eauto.
Qed.

(** C9: for a pod of the store and a target state among finished,
    acknowledged and not-draining, [updateDrainStatus] on a pod whose
    annotations already encode the target sends no update, leaves the pod
    and the rest of the state as they are, and returns no error.  Hence a
    second call with the same target, right after a first one, changes
    nothing: the call returns, and calling it again from the state it
    reached returns no error and that same state. *)
Theorem updateDrainStatus_idempotent env k s w pod :
  w_pods w !! k = Some pod → s ≠ DrainingState →
  (encodes pod s → updateDrainStatus env k s w = (Done None, w))
  ∧ ∃ r w', updateDrainStatus env k s w = (Done r, w')
            ∧ updateDrainStatus env k s w' = (Done None, w').
Proof.
  intros Hk Hs. split; [by apply updateDrainStatus_fixed|].
  destruct (updateDrainStatus_reaches env k s w pod Hk Hs)
    as (r & w' & pod' & Hrun & Hk' & He).
  exists r, w'. split; [done|]. by eapply updateDrainStatus_fixed.
Qed.

Lemma updateDrainStatus_idempotent_witness :
  ∃ r w',
    updateDrainStatus Scenario.aborted (Scenario.key 101) FinishedState
      (Scenario.onePod (Scenario.markers true true false)) = (Done r, w')
    ∧ updateDrainStatus Scenario.aborted (Scenario.key 101) FinishedState w'
      = (Done None, w').
Proof.
  apply (updateDrainStatus_idempotent Scenario.aborted (Scenario.key 101)
           FinishedState (Scenario.onePod (Scenario.markers true true false))
           (Scenario.pod "101" (Scenario.markers true true false)));
    [vm_compute; reflexivity | discriminate].
Defined.

(** The first call of the witness does send an update. *)
Example updateDrainStatus_first_call_updates :
  w_trace (updateDrainStatus Scenario.aborted (Scenario.key 101) FinishedState
             (Scenario.onePod (Scenario.markers true true false))).2
  = [Update (Scenario.key 101)
       (Scenario.pod "101" (Scenario.markers true true true))].
Proof. vm_compute. reflexivity. Qed.

(** ** The candidate primary selector *)

Lemma bool_decide_ne_false {A} `{EqDecision A} (x y : A) :
  bool_decide (x ≠ y) = false → x = y.
Proof. intros Hb%bool_decide_eq_false_1. by destruct (decide (x = y)). Qed.

Section Candidates.

Variable TabletTypeLabel : string.
Variable ExternalMasterTabletPoolName : string.
Context {G : Type} `{GTIDSet G}.

Lemma isCandidate_eligible shard pods usingExternal k t :
  isCandidate TabletTypeLabel ExternalMasterTabletPoolName
    shard pods usingExternal k t = true →
  eligible TabletTypeLabel ExternalMasterTabletPoolName
    shard pods usingExternal k t.
Proof.
  unfold isCandidate, eligible.
  destruct (TabletAliasEqual _ _); [done|].
  destruct (pods !! k) as [pod|]; [|done].
  intros Hc. split; [done|]. exists pod. split; [done|].
  destruct (IsPodReady pod), (Started pod), (Acknowledged pod), (Finished pod);
    cbn [negb orb] in Hc; try (by repeat case_match).
  split_and!; [done..|].
  destruct usingExternal.
  - destruct (bool_decide (label _ _ ≠ _)) eqn:Hl; [done|].
    apply bool_decide_ne_false in Hl. split; [done|].
    destruct (bool_decide (Type_ t ≠ TabletType_SPARE)) eqn:Hs.
    + destruct (bool_decide (Type_ t ≠ TabletType_PRIMARY)) eqn:Hp; [done|].
      right. by apply bool_decide_ne_false.
    + left. by apply bool_decide_ne_false.
  - destruct (bool_decide (Type_ t ≠ TabletType_REPLICA)) eqn:Hr; [done|].
    by apply bool_decide_ne_false.
Qed.

Lemma candidates_range_elem shard tablets pods usingExternal order t :
  t ∈ candidates_range TabletTypeLabel ExternalMasterTabletPoolName
        shard tablets pods usingExternal order →
  ∃ k, k ∈ order ∧ tablets !! k = Some t
       ∧ isCandidate TabletTypeLabel ExternalMasterTabletPoolName
           shard pods usingExternal k t = true.
Proof.
  induction order as [|k rest IH]; cbn [candidates_range].
  - intros Hin. by apply elem_of_nil in Hin.
  - destruct (tablets !! k) as [t'|] eqn:Ht.
    + destruct (isCandidate _ _ shard pods usingExternal k t') eqn:Hc.
      * intros [->|Hin]%elem_of_cons.
        -- exists k. split_and!; [left|done|done].
        -- destruct (IH Hin) as (k' & ? & ? & ?). exists k'.
           split_and!; [by right|done|done].
      * intros Hin. destruct (IH Hin) as (k' & ? & ? & ?). exists k'.
        split_and!; [by right|done|done].
    + intros Hin. destruct (IH Hin) as (k' & ? & ? & ?). exists k'.
      split_and!; [by right|done|done].
Qed.

(** Every result received was sent by the goroutine of a candidate. *)
Lemma received_elem arrival (sent : list (candidateInfo G)) r :
  r ∈ received arrival sent → r ∈ sent.
Proof.
  unfold received. intros (i & _ & Hi)%list_elem_of_omap.
  by eapply list_elem_of_lookup_2.
Qed.

Lemma probe_tablet env (t : TabletInfo) : tablet (probe (G:=G) env t) = t.
Proof.
  unfold probe. destruct (tmc_ReplicationStatus env t); [done|].
  by destruct (DecodePosition _).
Qed.

Lemma remember_best (results : list (candidateInfo G)) acc t :
  fst (fold_left remember results acc) = Some t →
  fst acc = Some t ∨ ∃ r, r ∈ results ∧ tablet r = t.
Proof.
  revert acc. induction results as [|r rest IH]; intros acc; cbn [fold_left].
  - by left.
  - intros Hb. destruct (IH _ Hb) as [Ha|(r' & ? & ?)].
    + unfold remember in Ha. destruct acc as [b h].
      destruct (err r); [by left|].
      destruct (IsZero h || negb (AtLeast h (position r))); [|by left].
      right. exists r. split; [left|]. by simplify_eq/=.
    + right. exists r'. split; [by right|done].
Qed.

(** C6: whenever [candidatePrimary] returns a tablet, this tablet is a
    tablet of the map which is not the current primary, whose pod exists, is
    ready and carries no started, acknowledged or finished marker, and whose
    type is REPLICA, or, with an external datastore, SPARE or PRIMARY in a pod
    of the external primary pool. *)
Theorem candidatePrimary_eligible env shard tablets pods usingExternal t :
  candidatePrimary TabletTypeLabel ExternalMasterTabletPoolName
    env shard tablets pods usingExternal = Some t →
  ∃ k, k ∈ range_tablets env ∧ tablets !! k = Some t
       ∧ eligible TabletTypeLabel ExternalMasterTabletPoolName
           shard pods usingExternal k t.
Proof.
  unfold candidatePrimary.
  destruct (candidates_range _ _ _ _ _ _ _) as [|first more] eqn:Hc; [done|].
  intros Hres.
  assert (t ∈ first :: more) as Hin.
  { destruct (fst (fold_left remember _ _)) as [b|] eqn:Hb.
    - simplify_eq. apply remember_best in Hb as [?|(r & Hr & <-)]; [done|].
      apply received_elem in Hr.
      apply list_elem_of_fmap in Hr as (c & -> & Hc').
      by rewrite probe_tablet.
    - simplify_eq. left. }
  rewrite <- Hc in Hin.
  apply candidates_range_elem in Hin as (k & ? & ? & ?%isCandidate_eligible).
  eauto.
Qed.

Lemma omap_lookup_seq {A} (pre l : list A) :
  omap (λ i, (pre ++ l) !! i) (seq (length pre) (length l)) = l.
Proof.
  revert pre. induction l as [|x l IH]; intros pre; [done|].
  cbn [length seq]. cbn [omap list_omap].
  rewrite list_lookup_middle by done. f_equal.
  specialize (IH (pre ++ [x])). rewrite <- app_assoc in IH. cbn in IH.
  rewrite length_app in IH. cbn in IH. by rewrite Nat.add_1_r in IH.
Qed.

(** When every goroutine has sent its result, the collector receives
    exactly the results sent. *)
Lemma received_all (arrival : list nat) (sent : list (candidateInfo G)) :
  arrival ≡ₚ seq 0 (length sent) → received arrival sent ≡ₚ sent.
Proof.
  intros Hp. unfold received. rewrite Hp.
  pose proof (omap_lookup_seq [] sent) as Hs. cbn in Hs. by rewrite Hs.
Qed.

Section TotalOrder.

(** The positions of one shard are totally ordered by containment. *)
Hypothesis Contains_total :
  ∀ a b : G, Contains a b = true ∨ Contains b a = true.
Hypothesis Contains_trans :
  ∀ a b c : G, Contains a b = true → Contains b c = true → Contains a c = true.

Lemma AtLeast_refl (p : Position G) : AtLeast p p = true.
Proof. destruct p as [a|]; [|done]. cbn. by destruct (Contains_total a a). Qed.

Lemma AtLeast_total (p q : Position G) :
  AtLeast p q = true ∨ AtLeast q p = true.
Proof. destruct p as [a|], q as [b|]; cbn; auto. Qed.

Lemma AtLeast_trans (p q r : Position G) :
  AtLeast p q = true → AtLeast q r = true → AtLeast p r = true.
Proof. destruct p as [a|], q as [b|], r as [c|]; cbn; eauto; done. Qed.

Lemma AtLeast_zero (q : Position G) : AtLeast None q = true → q = None.
Proof. by destruct q. Qed.

Lemma remembered_step (rs : list (candidateInfo G)) acc x :
  remembered rs acc → remembered (rs ++ [x]) (remember acc x).
Proof.
  intros [[-> Hnone]|(i & r & Hi & Hr & -> & Hmax & Hearly)].
  - unfold remember. destruct (err x) as [e|] eqn:Hx.
    + left. split; [done|].
      intros r [?|Hs%list_elem_of_singleton]%elem_of_app; [auto|subst r].
      by rewrite Hx.
    + right. exists (length rs), x. cbn [IsZero orb].
      split_and!; [by rewrite list_lookup_middle|done|done|..].
      * intros r' [Hin|Hs%list_elem_of_singleton]%elem_of_app Hr';
          [|subst r'].
        -- by destruct (Hnone _ Hin).
        -- apply AtLeast_refl.
      * intros _ j r' Hj Hl Hr'. rewrite lookup_app_l in Hl by done.
        apply list_elem_of_lookup_2 in Hl. by destruct (Hnone _ Hl).
  - unfold remember. destruct (err x) as [e|] eqn:Hx.
    + right. exists i, r. split_and!; [|done|done|..].
      * by apply lookup_app_l_Some.
      * intros r' [Hin|Hs%list_elem_of_singleton]%elem_of_app Hr';
          [auto|subst r'].
        by rewrite Hx in Hr'.
      * intros Hz j r' Hj Hl Hr'. apply (Hearly Hz j r' Hj); [|done].
        apply lookup_lt_Some in Hi. by rewrite lookup_app_l in Hl by lia.
    + destruct (IsZero (position r) || negb (AtLeast (position r) (position x)))
        eqn:Hupd.
      * right. exists (length rs), x.
        split_and!; [by rewrite list_lookup_middle|done|done|..].
        -- intros r' [Hin|Hs%list_elem_of_singleton]%elem_of_app Hr';
             [|subst r'; apply AtLeast_refl].
           pose proof (Hmax r' Hin Hr') as Hge.
           apply orb_true_iff in Hupd as [Hz|Hlt].
           ++ destruct (position r); [done|].
              apply AtLeast_zero in Hge. rewrite Hge. by destruct (position x).
           ++ apply negb_true_iff in Hlt.
              destruct (AtLeast_total (position x) (position r)) as [?|?];
                [|congruence]. by eapply AtLeast_trans.
        -- intros Hz j r' Hj Hl Hr'. rewrite lookup_app_l in Hl by done.
           apply list_elem_of_lookup_2 in Hl.
           pose proof (Hmax r' Hl Hr') as Hge.
           destruct (AtLeast (position r') (position x)) eqn:Hge'; [|done].
           pose proof (AtLeast_trans _ _ _ Hge Hge') as Hrx.
           rewrite Hrx in Hupd. cbn [negb] in Hupd.
           rewrite orb_false_r in Hupd.
           destruct (position r); [done|].
           apply AtLeast_zero in Hrx. by rewrite Hrx in Hz.
      * apply orb_false_iff in Hupd as [Hz Hge].
        apply negb_false_iff in Hge.
        right. exists i, r. split_and!; [|done|done|..].
        -- by apply lookup_app_l_Some.
        -- intros r' [Hin|Hs%list_elem_of_singleton]%elem_of_app Hr';
             [auto|by subst r'].
        -- intros _ j r' Hj Hl Hr'. apply (Hearly Hz j r' Hj); [|done].
           apply lookup_lt_Some in Hi. by rewrite lookup_app_l in Hl by lia.
Qed.

Lemma remembered_fold (rs : list (candidateInfo G)) :
  remembered rs (fold_left remember rs (None, None)).
Proof.
  induction rs as [|x rs IH] using rev_ind.
  - left. split; [done|]. intros r Hr. by apply elem_of_nil in Hr.
  - rewrite fold_left_app. cbn [fold_left]. by apply remembered_step.
Qed.

(** C7 (amended): let the positions be totally ordered and let the
    collector receive one result per candidate.  When every candidate
    responds, [candidatePrimary] returns a candidate whose position is at
    least that of every candidate; provided this position is not the zero
    position, ties are kept by the earliest received: every result received
    before it is strictly behind.  When no candidate responds, it returns
    the first candidate of the list. *)
Theorem candidatePrimary_furthest env shard tablets pods usingExternal :
  let cands :=
    candidates_range TabletTypeLabel ExternalMasterTabletPoolName
      shard tablets pods usingExternal (range_tablets env) in
  let chosen :=
    candidatePrimary TabletTypeLabel ExternalMasterTabletPoolName
      env shard tablets pods usingExternal in
  recv_order env ≡ₚ seq 0 (length cands) →
  selects_highest false env cands chosen
  ∧ selects_first_candidate env cands chosen.
Proof.
  intros cands chosen Hperm.
  pose proof (remembered_fold
                (received (recv_order env) (probe env <$> cands))) as Hrem.
  assert (received (recv_order env) (probe env <$> cands)
          ≡ₚ probe env <$> cands) as Hall.
  { apply received_all. by rewrite length_fmap. }
  subst chosen. unfold candidatePrimary. fold cands.
  split.
  - intros Hresp Hne results.
    destruct cands as [|first more] eqn:Hc; [done|]. fold results in Hrem.
    destruct Hrem as [[_ Hnone]|(i & r & Hi & Hr & Hacc & Hmax & Hearly)].
    + exfalso. apply (Hnone (probe env first)).
      * subst results. rewrite Hall. left.
      * apply Hresp. left.
    + fold results. rewrite Hacc. cbn [fst]. exists i, r.
      split_and!; [done|done| |].
      * intros c Hin. apply Hmax; [|by apply Hresp].
        subst results. rewrite Hall. by apply list_elem_of_fmap_2.
      * cbn [orb]. intros Hz. apply Hearly. by apply negb_true_iff.
  - intros Hnone. destruct cands as [|first more] eqn:Hc; [done|].
    destruct Hrem as [[-> _]|(i & r & Hi & Hr & _)]; [done|].
    exfalso. apply list_elem_of_lookup_2, received_elem in Hi.
    apply list_elem_of_fmap in Hi as (c & -> & Hin). by apply (Hnone c).
Qed.

End TotalOrder.

End Candidates.

Lemma numeric_Contains_total (a b : N) :
  Contains a b = true ∨ Contains b a = true.
Proof.
  cbn. destruct (N.leb_spec b a); [by left|right]. apply N.leb_le. lia.
Qed.

Lemma numeric_Contains_trans (a b c : N) :
  Contains a b = true → Contains b c = true → Contains a c = true.
Proof. cbn. rewrite !N.leb_le. lia. Qed.

(** With the positions 5, 9 and 3 for the candidates A, B and C, B is
    chosen. *)
Example candidatePrimary_5_9_3 :
  Scenario.candidates Scenario.four Scenario.probes593
  = [Scenario.A; Scenario.B; Scenario.C]
  ∧ Scenario.candidatePrimary Scenario.four Scenario.probes593
    = Some Scenario.B.
Proof. split; vm_compute; reflexivity. Qed.

(** Whatever the order in which the three results arrive, B is chosen. *)
Example candidatePrimary_5_9_3_any_arrival :
  Forall (λ arrival,
            Scenario.candidatePrimary Scenario.four
              (Scenario.env [] 100 Scenario.four Scenario.positions593 arrival)
            = Some Scenario.B)
         [[0; 1; 2]; [0; 2; 1]; [1; 0; 2]; [1; 2; 0]; [2; 0; 1]; [2; 1; 0]]%nat.
Proof. repeat constructor. Qed.

(** With no response for the candidates A and B, A is chosen. *)
Example candidatePrimary_no_response :
  Scenario.candidates Scenario.primaryAB Scenario.probesTimeout
  = [Scenario.A; Scenario.B]
  ∧ Scenario.candidatePrimary Scenario.primaryAB Scenario.probesTimeout
    = Some Scenario.A.
Proof. split; vm_compute; reflexivity. Qed.

Lemma candidatePrimary_eligible_witness :
  ∃ k, k ∈ range_tablets Scenario.probes593
       ∧ Scenario.tablets Scenario.four !! k = Some Scenario.B
       ∧ eligible Scenario.TabletTypeLabel Scenario.ExternalMasterTabletPoolName
           Scenario.shard100 Scenario.fourPods false k Scenario.B.
Proof.
  apply (candidatePrimary_eligible Scenario.TabletTypeLabel
           Scenario.ExternalMasterTabletPoolName (G:=N) Scenario.probes593).
  vm_compute. reflexivity.
Defined.

Lemma candidatePrimary_furthest_witness :
  let cands := Scenario.candidates Scenario.four Scenario.probes593 in
  let chosen := Scenario.candidatePrimary Scenario.four Scenario.probes593 in
  selects_highest false Scenario.probes593 cands chosen
  ∧ selects_first_candidate Scenario.probes593 cands chosen.
Proof.
  apply (candidatePrimary_furthest Scenario.TabletTypeLabel
           Scenario.ExternalMasterTabletPoolName (G:=N)
           numeric_Contains_total numeric_Contains_trans Scenario.probes593).
  vm_compute. reflexivity.
Defined.

(** C7 as the spec states it does not hold: the tie is not always kept by
    the earliest responder.  When A, B and C all report the empty position,
    which decodes to the zero position without an error, and their results
    arrive in this order, the collector replaces its choice at every result
    and C, the last one, is returned. *)
Lemma zero_positions_keep_latest :
  ¬ (∀ env : Env,
       let cands := Scenario.candidates Scenario.four env in
       recv_order env ≡ₚ seq 0 (length cands) →
       selects_highest true env cands
         (Scenario.candidatePrimary Scenario.four env)).
Proof.
  intros Hclaim. specialize (Hclaim Scenario.probesEmpty). cbv zeta in Hclaim.
  assert (Scenario.candidates Scenario.four Scenario.probesEmpty
          = [Scenario.A; Scenario.B; Scenario.C]) as Hc
    by (vm_compute; reflexivity).
  rewrite Hc in Hclaim. unfold selects_highest in Hclaim.
  destruct Hclaim as (i & r & Hi & Hchosen & _ & Hearly).
  - reflexivity.
  - intros c Hin. rewrite !elem_of_cons in Hin.
    destruct Hin as [->|[->|[->|Hin]]]; [reflexivity..|].
    inversion Hin.
  - discriminate.
  - assert (Scenario.candidatePrimary Scenario.four Scenario.probesEmpty
            = Some Scenario.C) as Hrun by (vm_compute; reflexivity).
    rewrite Hrun in Hchosen.
    assert (received (recv_order Scenario.probesEmpty)
              (probe Scenario.probesEmpty
                 <$> [Scenario.A; Scenario.B; Scenario.C])
            = [ {| tablet := Scenario.A; position := None; err := None |};
                {| tablet := Scenario.B; position := None; err := None |};
                {| tablet := Scenario.C; position := None; err := None |} ])
      as Hres by (vm_compute; reflexivity).
    rewrite Hres in Hi, Hearly. clear Hres Hrun Hc.
    specialize (Hearly eq_refl 0%nat
                  {| tablet := Scenario.A; position := None; err := None |}).
    destruct i as [|[|[|i]]].
    + injection Hi as <-. discriminate Hchosen.
    + injection Hi as <-. discriminate Hchosen.
    + injection Hi as <-.
      discriminate Hearly; [lia | reflexivity | reflexivity].
    + discriminate Hi.
Qed.

(** ** Properties of the state kept by a pass *)

Section Preserve.

Context (I : World → Prop).

Lemma preserves_ret {A} (a : A) : preserves I (ret a).
Proof. by intros w. Qed.

Lemma preserves_panic {A} msg : preserves I (panic (A:=A) msg).
Proof. by intros w. Qed.

Lemma preserves_bind {A B} (m : M A) (k : A → M B) :
  preserves I m → (∀ a, preserves I (k a)) → preserves I (bind m k).
Proof.
  intros Hm Hk w Hw. unfold bind. specialize (Hm w Hw).
  destruct (m w) as [[a|msg] w']; [by apply Hk | done].
Qed.

Lemma preserves_get_pods : preserves I get_pods.
Proof. by intros w. Qed.

Lemma preserves_now : preserves I now.
Proof. by intros w. Qed.

Lemma preserves_deref k : preserves I (deref k).
Proof. intros w Hw. unfold deref. by destruct (w_pods w !! k). Qed.

Lemma preserves_Result : preserves I resultBuilder_Result.
Proof. by intros w. Qed.

Lemma preserves_Error e :
  ignores_builder I → preserves I (resultBuilder_Error e).
Proof. intros HI w Hw. by apply HI. Qed.

Lemma preserves_RequeueAfter d :
  ignores_builder I → preserves I (resultBuilder_RequeueAfter d).
Proof. intros HI w Hw. by apply HI. Qed.

End Preserve.

(** ** The primary is never marked as finished *)

Section NeverFinished.

Variable TabletTypeLabel : string.
Variable ExternalMasterTabletPoolName : string.
Variable MysqldContainerName : string.
Variable replicationRequeueDelay : Duration.
Variable AliasFromPod : Pod -> TabletAlias.
Variable GetState : Pod -> State * option Error.
Variable StateTransitions : gmap string State -> gmap string State.
Context {G : Type} `{GTIDSet G}.

(** The alias of the primary and the pods as listed. *)
Variable P : string.
Variable pods0 : gmap string Pod.

Lemma never_finished_ignores_builder :
  ignores_builder (never_finished P pods0).
Proof. by intros w b. Qed.

Lemma never_finished_emit a :
  isUpdate a = false → preserves (never_finished P pods0) (emit a).
Proof.
  intros Ha w [Hp Ht]. split; [done|]. cbn. intros pod Hin.
  apply elem_of_app in Hin as [Hin|Hin%list_elem_of_singleton];
    [by apply Ht|].
  by subst a.
Qed.

Lemma never_finished_Eventf t r :
  preserves (never_finished P pods0) (recorder_Eventf t r).
Proof. by apply never_finished_emit. Qed.

Lemma never_finished_clientUpdate env k :
  preserves (never_finished P pods0) (clientUpdate env k).
Proof.
  intros w [Hp Ht]. unfold clientUpdate, bind, deref, now, emit, ret.
  destruct (w_pods w !! k) as [pod|] eqn:Hk; [|done]. cbn.
  split; [done|]. intros pod' Hin Hf.
  apply elem_of_app in Hin as [Hin|Hin%list_elem_of_singleton];
    [by eapply Ht|].
  simplify_eq. apply Hp. by exists pod.
Qed.

(** [updateDrainStatus] keeps the property unless it is asked to finish
    the primary. *)
Lemma never_finished_updateDrainStatus env k s :
  ¬ (s = FinishedState ∧ k = P) →
  preserves (never_finished P pods0) (updateDrainStatus env k s).
Proof.
  intros Hks. unfold updateDrainStatus.
  apply preserves_bind.
  2: { intros []; cbn [negb];
         [apply never_finished_clientUpdate|apply preserves_ret]. }
  destruct s.
  - intros w Hw. unfold bind, deref.
    destruct (w_pods w !! k) as [pod|] eqn:Hk; [|done].
    destruct pod as [n l [st ak fi] c cd]. destruct Hw as [Hp Ht].
    assert (fi = true → finished_at pods0 P ∨ k ≠ P) as Hfi.
    { intros ->. destruct (decide (k = P)) as [->|]; [left|by right].
      apply Hp. eexists. by split. }
    destruct fi, ak; cbn; rewrite ?lookup_insert_eq, ?Hk; cbn;
      (split; [|done]); cbn; try done; intros (pod' & Hl & Hf);
      (destruct (decide (k = P)) as [->|Hne];
       [rewrite ?insert_insert_eq, lookup_insert_eq in Hl; by simplify_eq
       |rewrite ?lookup_insert_ne in Hl by done; apply Hp; by exists pod']).
  - apply preserves_panic.
  - intros w Hw. unfold bind, deref.
    destruct (w_pods w !! k) as [pod|] eqn:Hk; [|done].
    destruct (Acknowledged pod); cbn; [done|].
    destruct Hw as [Hp Ht]. split; [|done]. cbn. intros (pod' & Hl & Hf).
    destruct (decide (k = P)) as [->|Hne].
    + rewrite lookup_insert_eq in Hl. simplify_eq. apply Hp. by exists pod.
    + rewrite lookup_insert_ne in Hl by done. apply Hp. by exists pod'.
  - intros w Hw. unfold bind, deref.
    destruct (w_pods w !! k) as [pod|] eqn:Hk; [|done].
    destruct (Finished pod); cbn; [done|].
    destruct Hw as [Hp Ht]. split; [|done]. cbn. intros (pod' & Hl & Hf).
    destruct (decide (k = P)) as [->|Hne].
    + destruct Hks. done.
    + rewrite lookup_insert_ne in Hl by done. apply Hp. by exists pod'.
Qed.

Ltac pres_step :=
  match goal with
  | |- preserves _ (ret _) => apply preserves_ret
  | |- preserves _ (panic _) => apply preserves_panic
  | |- preserves _ (bind _ _) => apply preserves_bind; [|intros ?]
  | |- preserves _ (recorder_Eventf _ _) => apply never_finished_Eventf
  | |- preserves _ (emit _) => apply never_finished_emit; reflexivity
  | |- preserves _ get_pods => apply preserves_get_pods
  | |- preserves _ now => apply preserves_now
  | |- preserves _ resultBuilder_Result => apply preserves_Result
  | |- preserves _ (resultBuilder_Error _) =>
      apply preserves_Error, never_finished_ignores_builder
  | |- preserves _ (resultBuilder_RequeueAfter _) =>
      apply preserves_RequeueAfter, never_finished_ignores_builder
  | |- preserves _ (match ?x with _ => _ end) => destruct x eqn:?
  end.

Lemma never_finished_loadDrainState env order drains abortingDrain :
  preserves (never_finished P pods0)
    (loadDrainState GetState env order drains abortingDrain).
Proof.
  revert drains abortingDrain.
  induction order as [|k rest IH]; intros drains abortingDrain;
    cbn [loadDrainState]; repeat pres_step; try apply IH.
  apply never_finished_updateDrainStatus. by intros [? _].
Qed.

(** The loop over the transitions never asks to finish the primary. *)
Lemma never_finished_applyTransitions env transitions order acknowledgedDrain :
  preserves (never_finished P pods0)
    (applyTransitions env P transitions order acknowledgedDrain).
Proof.
  revert acknowledgedDrain.
  induction order as [|k rest IH]; intros acknowledgedDrain;
    cbn [applyTransitions]; repeat pres_step; try apply IH.
  apply never_finished_updateDrainStatus. intros [-> ->].
  by rewrite !bool_decide_eq_true_2 in * by done.
Qed.

Lemma never_finished_disableFastShutdown env tablets desiredImage order :
  preserves (never_finished P pods0)
    (disableFastShutdown MysqldContainerName env tablets desiredImage order).
Proof.
  induction order as [|k rest IH]; cbn [disableFastShutdown];
    repeat pres_step; apply IH.
Qed.

Lemma never_finished_handleExternalReparent env new old :
  preserves (never_finished P pods0) (handleExternalReparent env new old).
Proof. unfold handleExternalReparent. repeat pres_step. Qed.

Lemma never_finished_transitionAndReparent env vts shard tablets drains :
  P = TabletAliasString (PrimaryAlias shard) →
  preserves (never_finished P pods0)
    (transitionAndReparent TabletTypeLabel ExternalMasterTabletPoolName
       MysqldContainerName replicationRequeueDelay StateTransitions
       env vts shard tablets drains).
Proof.
  intros HP. unfold transitionAndReparent. rewrite <- HP.
  apply preserves_bind; [apply never_finished_applyTransitions|intros ack].
  apply preserves_bind; [apply never_finished_disableFastShutdown|intros e].
  repeat pres_step. apply never_finished_handleExternalReparent.
Qed.

Lemma never_finished_reconcileAfterReads env vts shard tablets :
  P = TabletAliasString (PrimaryAlias shard) →
  preserves (never_finished P pods0)
    (reconcileAfterReads TabletTypeLabel ExternalMasterTabletPoolName
       MysqldContainerName replicationRequeueDelay GetState StateTransitions
       env vts shard tablets).
Proof.
  intros HP. unfold reconcileAfterReads, reconcileHealthy.
  repeat pres_step; try apply never_finished_loadDrainState.
  by apply never_finished_transitionAndReparent.
Qed.

End NeverFinished.

Section Pass.

Variable TabletTypeLabel : string.
Variable ExternalMasterTabletPoolName : string.
Variable MysqldContainerName : string.
Variable replicationRequeueDelay : Duration.
Variable AliasFromPod : Pod -> TabletAlias.
Variable GetState : Pod -> State * option Error.
Variable StateTransitions : gmap string State -> gmap string State.
Context {G : Type} `{GTIDSet G}.

(** C1: in every pass, whatever the state machine proposes, the pod of the
    current primary never receives the finished marker from the reconciler:
    when the pass ends (or panics), the object stored under the alias of the
    primary carries the marker only if it was listed with it, and so does
    every update of that pod sent to Kubernetes. *)
Theorem primary_never_marked_finished env vts shard :
  topo_GetShard env = inr shard →
  never_finished (TabletAliasString (PrimaryAlias shard))
    (listed_pods AliasFromPod env)
    (reconcileDrain TabletTypeLabel ExternalMasterTabletPoolName
       MysqldContainerName replicationRequeueDelay AliasFromPod GetState
       StateTransitions env vts initial).2.
Proof.
  intros Hshard.
  set (P := TabletAliasString (PrimaryAlias shard)).
  set (pods0 := listed_pods AliasFromPod env).
  assert (never_finished P pods0 initial) as Hinit.
  { split; [intros (? & Hl & _); cbn in Hl; by rewrite lookup_empty in Hl|].
    by intros pod ?%elem_of_nil. }
  revert Hinit. generalize initial.
  change (preserves (never_finished P pods0)
    (reconcileDrain TabletTypeLabel ExternalMasterTabletPoolName
       MysqldContainerName replicationRequeueDelay AliasFromPod GetState
       StateTransitions env vts)).
  unfold reconcileDrain. subst pods0. unfold listed_pods. rewrite Hshard.
  destruct (client_List env) as [e|items].
  { apply preserves_bind; [apply never_finished_Eventf|intros _].
    apply preserves_Error, never_finished_ignores_builder. }
  destruct (topo_GetTabletMapForShardByCell env) as [e|tablets].
  { apply preserves_bind; [apply never_finished_Eventf|intros _].
    apply preserves_RequeueAfter, never_finished_ignores_builder. }
  apply preserves_bind;
    [|intros _; by apply never_finished_reconcileAfterReads].
  intros w [Hp Ht]. by split.
Qed.

End Pass.

Lemma primary_never_marked_finished_witness :
  never_finished (Scenario.key 100)
    (listed_pods Scenario.AliasFromPod Scenario.primaryAcknowledged)
    (Scenario.reconcileDrain Scenario.primaryAcknowledged).2.
Proof.
  apply (primary_never_marked_finished Scenario.TabletTypeLabel
           Scenario.ExternalMasterTabletPoolName Scenario.MysqldContainerName
           Scenario.replicationRequeueDelay Scenario.AliasFromPod
           Scenario.GetState Scenario.StateTransitions (G:=N)
           Scenario.primaryAcknowledged Scenario.vts
           {| PrimaryAlias := Scenario.alias 100 |}).
  reflexivity.
Defined.

(** In the pass of the witness the state machine does propose the finished
    state for the primary; the pass leaves the pod of the primary as it was
    and hands the shard over to tablet 101. *)
Example primary_proposed_finished_is_skipped :
  Scenario.StateTransitions {[ Scenario.key 100 := AcknowledgedState ]}
    !! Scenario.key 100 = Some FinishedState
  ∧ w_pods (Scenario.reconcileDrain Scenario.primaryAcknowledged).2
      !! Scenario.key 100
    = Some (Scenario.pod "100" (Scenario.markers true true false))
  ∧ w_trace (Scenario.reconcileDrain Scenario.primaryAcknowledged).2
    = [PlannedReparentShard (Scenario.alias 101) plannedReparentTimeout
         tolerableReplicationLag;
       Eventf EventTypeNormal "PlannedReparent";
       plannedReparentCount_Inc true].
Proof. split_and!; vm_compute; reflexivity. Qed.

(** ** A pass that finds an aborted drain *)

Lemma wp_bind {A B} (m : M A) (k : A → M B) Q E w :
  wp m (λ a w', wp (k a) Q E w') E w → wp (bind m k) Q E w.
Proof. unfold wp, bind. by destruct (m w) as [[a|msg] w']. Qed.

Lemma wp_mono {A} (m : M A) (Q Q' : A → World → Prop) (E E' : World → Prop) w :
  wp m Q E w → (∀ a w', Q a w' → Q' a w') → (∀ w', E w' → E' w') →
  wp m Q' E' w.
Proof. unfold wp. destruct (m w) as [[a|msg] w']; auto. Qed.

Lemma wp_snd {A} (m : M A) (F : World → Prop) w :
  wp m (λ _, F) F w → F (m w).2.
Proof. unfold wp. by destruct (m w) as [[a|msg] w']. Qed.

Lemma wp_ret {A} (a : A) Q E w : Q a w → wp (ret a) Q E w.
Proof. done. Qed.

Lemma wp_get_pods Q E w : Q (w_pods w) w → wp get_pods Q E w.
Proof. done. Qed.

Lemma wp_set_pods pods Q E w :
  Q tt {| w_pods := pods; w_trace := w_trace w; w_builder := w_builder w |} →
  wp (set_pods pods) Q E w.
Proof. done. Qed.

Lemma wp_Eventf t r Q E w :
  Q tt {| w_pods := w_pods w; w_trace := w_trace w ++ [Eventf t r];
          w_builder := w_builder w |} →
  wp (recorder_Eventf t r) Q E w.
Proof. done. Qed.

Lemma wp_Error e Q E w :
  (∀ r b, Q r {| w_pods := w_pods w; w_trace := w_trace w; w_builder := b |}) →
  wp (resultBuilder_Error e) Q E w.
Proof. intros HQ. apply HQ. Qed.

Lemma wp_RequeueAfter d Q E w :
  (∀ r b, Q r {| w_pods := w_pods w; w_trace := w_trace w; w_builder := b |}) →
  wp (resultBuilder_RequeueAfter d) Q E w.
Proof. intros HQ. apply HQ. Qed.

Lemma wp_Result Q E w :
  (∀ r, Q r w) → wp resultBuilder_Result Q E w.
Proof. intros HQ. apply HQ. Qed.

Lemma cleared_cleared pod : cleared (cleared pod) = cleared pod.
Proof. done. Qed.

Section Frozen.

Variable pods0 : gmap string Pod.

Lemma frozen_emit_event pods tr b t r :
  frozen pods0 {| w_pods := pods; w_trace := tr; w_builder := b |} →
  frozen pods0 {| w_pods := pods; w_trace := tr ++ [Eventf t r];
                  w_builder := b |}.
Proof.
  intros [Hp Ht]. split; [done|]. cbn. apply Forall_app. split; [done|].
  by apply Forall_singleton.
Qed.

Lemma frozen_builder pods tr b b' :
  frozen pods0 {| w_pods := pods; w_trace := tr; w_builder := b |} →
  frozen pods0 {| w_pods := pods; w_trace := tr; w_builder := b' |}.
Proof. by intros [Hp Ht]. Qed.

Lemma frozen_eta w :
  frozen pods0 w →
  frozen pods0 {| w_pods := w_pods w; w_trace := w_trace w;
                  w_builder := w_builder w |}.
Proof. by destruct w. Qed.

(** The effect of [updateDrainStatus] with [NotDrainingState]: the pod is
    cleared, and an update is sent when there was a marker to clear. *)
Lemma updateDrainStatus_NotDraining env k w pod :
  w_pods w !! k = Some pod →
  ∃ r, updateDrainStatus env k NotDrainingState w
       = (Done r,
          {| w_pods := <[k := cleared pod]> (w_pods w);
             w_trace := w_trace w ++
               (if Acknowledged pod || Finished pod
                then [Update k (cleared pod)] else []);
             w_builder := w_builder w |}).
Proof.
  intros Hk. destruct w as [pods tr b]. cbn in Hk.
  destruct pod as [n l [st ak fi] c cd].
  unfold updateDrainStatus, clientUpdate, bind, deref, ret, store_pod, now, emit.
  cbn [w_pods w_trace w_builder].
  destruct fi, ak;
    repeat first [rewrite Hk | rewrite lookup_insert_eq
                 | rewrite insert_insert_eq | progress cbn];
    eexists; try reflexivity.
  rewrite app_nil_r, insert_id; done.
Qed.

Lemma frozen_clear w k pod :
  frozen pods0 w → w_pods w !! k = Some pod → Started pod = false →
  frozen pods0
    {| w_pods := <[k := cleared pod]> (w_pods w);
       w_trace := w_trace w ++
         (if Acknowledged pod || Finished pod
          then [Update k (cleared pod)] else []);
       w_builder := w_builder w |}.
Proof.
  intros [Hp Ht] Hk Hs.
  destruct (Hp k pod Hk) as (pod0 & Hk0 & Hrel).
  assert (Started pod0 = false ∧ cleared pod = cleared pod0) as [Hs0 Hc].
  { destruct Hrel as [Heq|[Hs0 Heq]]; subst pod; by split. }
  split; cbn.
  - intros k' pod'. destruct (decide (k = k')) as [<-|Hne].
    + rewrite lookup_insert_eq. intros [= <-]. exists pod0.
      split; [done|]. right. by split.
    + rewrite lookup_insert_ne by done. apply Hp.
  - apply Forall_app. split; [done|].
    destruct (_ || _); [|done]. apply Forall_singleton. by exists pod0.
Qed.

End Frozen.

Section Aborting.

Variable TabletTypeLabel : string.
Variable ExternalMasterTabletPoolName : string.
Variable MysqldContainerName : string.
Variable replicationRequeueDelay : Duration.
Variable AliasFromPod : Pod -> TabletAlias.
Variable GetState : Pod -> State * option Error.
Variable StateTransitions : gmap string State -> gmap string State.
Context {G : Type} `{GTIDSet G}.

Variable pods0 : gmap string Pod.

(** The loop over the pods only clears, and it returns [abortingDrain] set
    when a pod that it is still to visit is in the condition of an aborted
    drain. *)
Lemma loadDrainState_aborting env order : ∀ drains abortingDrain w,
  frozen pods0 w →
  (abortingDrain = true
   ∨ ∃ k pod, k ∈ order ∧ w_pods w !! k = Some pod ∧ aborting pod) →
  wp (loadDrainState GetState env order drains abortingDrain)
     (λ r w', frozen pods0 w' ∧ r.2 = true) (frozen pods0) w.
Proof.
  induction order as [|k1 rest IH]; intros drains ab w Hw Hflag;
    cbn [loadDrainState].
  { apply wp_ret. split; [done|].
    destruct Hflag as [->|(k & pod & Hin & _)]; [done|].
    by apply elem_of_nil in Hin. }
  apply wp_bind, wp_get_pods.
  destruct (w_pods w !! k1) as [pod1|] eqn:Hk1.
  2: { apply IH; [done|]. destruct Hflag as [?|(k & pod & Hin & Hl & Ha)];
         [by left|right]. exists k, pod. split_and!; [|done..].
       apply elem_of_cons in Hin as [->|?]; [congruence|done]. }
  destruct (Started pod1) eqn:Hs1.
  - destruct (GetState pod1) as [state e].
    assert (ab = true
            ∨ ∃ k pod, k ∈ rest ∧ w_pods w !! k = Some pod ∧ aborting pod)
      as Hflag'.
    { destruct Hflag as [?|(k & pod & Hin & Hl & Ha)]; [by left|right].
      exists k, pod. split_and!; [|done..].
      apply elem_of_cons in Hin as [->|?]; [|done].
      destruct Ha as [Ha _]. congruence. }
    apply wp_bind. destruct e.
    + apply wp_Eventf, IH; [by apply frozen_emit_event, frozen_eta|done].
    + by apply wp_ret, IH.
  - apply wp_bind.
    set (ab' := if Acknowledged pod1 || Finished pod1 then true else ab).
    assert (ab' = true
            ∨ ∃ k pod, k ∈ rest ∧ k ≠ k1 ∧ w_pods w !! k = Some pod
                       ∧ aborting pod)
      as Hflag'.
    { subst ab'. destruct Hflag as [->|(k & pod & Hin & Hl & Ha)].
      - left. by destruct (_ || _).
      - destruct (decide (k = k1)) as [->|Hne].
        + left. destruct Ha as [_ Ha]. simplify_eq. by rewrite Ha.
        + right. exists k, pod. split_and!; [|done..].
          apply elem_of_cons in Hin as [->|?]; done. }
    assert (∀ w1, frozen pods0 w1 → w_pods w1 = w_pods w →
              wp (e <- updateDrainStatus env k1 NotDrainingState ;;
                  (match e with
                   | Some e => recorder_Eventf EventTypeWarning "UpdateFailed" ;;
                               resultBuilder_Error e ;; ret tt
                   | None => ret tt
                   end) ;;
                  loadDrainState GetState env rest drains ab')
                 (λ r w', frozen pods0 w' ∧ r.2 = true) (frozen pods0) w1)
      as Hrest.
    { intros w1 Hw1 Hp1. apply wp_bind.
      destruct (updateDrainStatus_NotDraining env k1 w1 pod1) as [r Hr];
        [by rewrite Hp1|].
      unfold wp at 1. rewrite Hr.
      assert (w_pods w1 !! k1 = Some pod1) as Hk1' by (by rewrite Hp1).
      pose proof (frozen_clear pods0 w1 k1 pod1 Hw1 Hk1' Hs1) as Hfc.
      assert (ab' = true ∨ ∃ k pod, k ∈ rest
                ∧ <[k1:=cleared pod1]> (w_pods w1) !! k = Some pod
                ∧ aborting pod)
        as Hflag''.
      { destruct Hflag' as [?|(k & pod & ? & ? & ? & ?)]; [by left|right].
        exists k, pod. rewrite lookup_insert_ne by (by apply not_eq_sym).
        rewrite Hp1. by split_and!. }
      apply wp_bind. destruct r as [e|].
      - apply wp_bind, wp_Eventf, wp_bind, wp_Error. intros _ b.
        apply wp_ret, IH; [|exact Hflag''].
        cbn [w_pods w_trace w_builder].
        by eapply frozen_builder, frozen_emit_event.
      - apply wp_ret, IH; [exact Hfc | exact Hflag'']. }
    destruct (Acknowledged pod1 || Finished pod1).
    + apply wp_bind, wp_Eventf, wp_ret, Hrest; [|done].
      by apply frozen_emit_event, frozen_eta.
    + by apply wp_ret, Hrest.
Qed.

(** C2 (amended): in a pass that lists a pod carrying an acknowledged or
    finished marker but no started marker, no transition of the state
    machine is applied and nothing is handed over: the only writes are
    events and the updates that clear the acknowledged and finished markers
    of pods listed without a started marker, and every pod is left as
    listed or with these markers cleared. *)
Theorem aborting_pass_only_clears env vts items :
  pods0 = buildPods AliasFromPod items →
  client_List env = inr items →
  visits_all (range_pods env) pods0 →
  (∃ k pod, pods0 !! k = Some pod ∧ aborting pod) →
  frozen pods0
    (reconcileDrain TabletTypeLabel ExternalMasterTabletPoolName
       MysqldContainerName replicationRequeueDelay AliasFromPod GetState
       StateTransitions env vts initial).2.
Proof.
  intros Hpods0 Hlist Hall (k & pod & Hk & Hab).
  apply wp_snd. unfold reconcileDrain. rewrite Hlist, <- Hpods0.
  assert (∀ b, frozen pods0 {| w_pods := ∅; w_trace := []; w_builder := b |})
    as Hinit.
  { split; [|by apply Forall_nil]. intros k' pod' Hl. cbn in Hl.
    by rewrite lookup_empty in Hl. }
  destruct (topo_GetShard env) as [e|shard].
  { apply wp_bind, wp_Eventf, wp_RequeueAfter. intros _ b.
    cbn [initial w_pods w_trace w_builder]. apply frozen_emit_event, Hinit. }
  destruct (topo_GetTabletMapForShardByCell env) as [e|tablets].
  { apply wp_bind, wp_Eventf, wp_RequeueAfter. intros _ b.
    cbn [initial w_pods w_trace w_builder]. apply frozen_emit_event, Hinit. }
  apply wp_bind, wp_set_pods. cbn [w_trace w_builder initial].
  assert (frozen pods0 {| w_pods := pods0; w_trace := [];
                          w_builder := results.empty |}) as Hstart.
  { split; [|by apply Forall_nil]. intros k' pod' Hl. exists pod'.
    split; [done|by left]. }
  unfold reconcileAfterReads.
  destruct (isShardHealthy _ _).
  { apply wp_bind, wp_Eventf, wp_Result. intros _.
    by apply frozen_emit_event. }
  unfold reconcileHealthy. destruct (negb (HasPrimary shard)).
  { apply wp_bind, wp_Eventf, wp_Result. intros _.
    by apply frozen_emit_event. }
  apply wp_bind.
  eapply wp_mono;
    [apply (loadDrainState_aborting env (range_pods env) ∅ false _ Hstart)
    | | done].
  - right. exists k, pod. split_and!; [|done..].
    by eapply visits_all_elem.
  - intros [drains ab] w' [Hw' Hflag]. cbn in Hflag. subst ab.
    destruct (bool_decide _).
    + apply wp_Result. by intros _.
    + apply wp_bind, wp_Eventf, wp_Result. intros _.
      by apply frozen_emit_event, frozen_eta.
Qed.

End Aborting.

(** What the pass does in the scenario [aborted]: it clears the finished
    marker of tablet 101 and sends the update, between the two events. *)
Example aborted_pass_trace :
  w_trace (Scenario.reconcileDrain Scenario.aborted).2
  = [Eventf EventTypeWarning "AbortingDrain";
     Update (Scenario.key 101)
       (Scenario.pod "101" (Scenario.markers false false false));
     Eventf EventTypeWarning "AbortingDrain"].
Proof. vm_compute. reflexivity. Qed.

Lemma aborted_pods_aborting :
  ∃ k pod,
    buildPods Scenario.AliasFromPod Scenario.abortedPods !! k = Some pod
    ∧ aborting pod.
Proof.
  exists (Scenario.key 101),
    (Scenario.pod "101" (Scenario.markers false false true)).
  split; [vm_compute; reflexivity|]. split; reflexivity.
Qed.

(** C2 as the spec states it does not hold: in the scenario [aborted],
    where tablet 101 carries a finished marker and no started marker, the
    pass sends an update of the pod of tablet 101. *)
Lemma aborting_pass_updates_markers :
  ¬ (∀ env items,
       client_List env = inr items →
       visits_all (range_pods env) (buildPods Scenario.AliasFromPod items) →
       (∃ k pod, buildPods Scenario.AliasFromPod items !! k = Some pod
                 ∧ aborting pod) →
       let w := (Scenario.reconcileDrain env).2 in
       (∀ a, a ∈ w_trace w → isUpdate a = false)
       ∧ (∀ k pod, buildPods Scenario.AliasFromPod items !! k = Some pod →
                   w_pods w !! k = Some pod)).
Proof.
  intros Hclaim.
  destruct (Hclaim Scenario.aborted Scenario.abortedPods) as [Hno _].
  - reflexivity.
  - apply (bool_decide_unpack _). vm_compute. exact I.
  - exact aborted_pods_aborting.
  - rewrite aborted_pass_trace in Hno.
    specialize (Hno (Update (Scenario.key 101)
                       (Scenario.pod "101" (Scenario.markers false false false)))).
    discriminate Hno. right. left.
Qed.

Lemma aborting_pass_only_clears_witness :
  frozen (buildPods Scenario.AliasFromPod Scenario.abortedPods)
    (Scenario.reconcileDrain Scenario.aborted).2.
Proof.
  apply (aborting_pass_only_clears Scenario.TabletTypeLabel
           Scenario.ExternalMasterTabletPoolName Scenario.MysqldContainerName
           Scenario.replicationRequeueDelay Scenario.AliasFromPod
           Scenario.GetState Scenario.StateTransitions (G:=N)
           (buildPods Scenario.AliasFromPod Scenario.abortedPods)
           Scenario.aborted Scenario.vts Scenario.abortedPods).
  - reflexivity.
  - reflexivity.
  - apply (bool_decide_unpack _). vm_compute. exact I.
  - exact aborted_pods_aborting.
Defined.

(** ** Failure of the reads *)

Section Reads.

Variable TabletTypeLabel : string.
Variable ExternalMasterTabletPoolName : string.
Variable MysqldContainerName : string.
Variable replicationRequeueDelay : Duration.
Variable AliasFromPod : Pod -> TabletAlias.
Variable GetState : Pod -> State * option Error.
Variable StateTransitions : gmap string State -> gmap string State.
Context {G : Type} `{GTIDSet G}.

(** C4 (amended): when the pods are listed and a read of the topology
    server fails, of the shard record or of the tablet records, the pass
    emits one warning event, changes no pod and returns, without an error,
    the request to be run again after [replicationRequeueDelay].  When
    listing the pods fails, the pass emits one warning event, changes no pod
    and returns the error of the list call, with no delay. *)
Theorem read_failure_result env vts :
  (∀ items,
     client_List env = inr items →
     (∃ e, topo_GetShard env = inl e)
     ∨ (∃ e, topo_GetTabletMapForShardByCell env = inl e) →
     reconcileDrain TabletTypeLabel ExternalMasterTabletPoolName
       MysqldContainerName replicationRequeueDelay AliasFromPod GetState
       StateTransitions env vts initial
     = (Done ({| Requeue := false; RequeueAfter := replicationRequeueDelay |},
              None),
        {| w_pods := ∅;
           w_trace := [Eventf EventTypeWarning "TopoGetFailed"];
           w_builder := {| results.b_err := None;
                           results.b_requeueAfter := replicationRequeueDelay |}
        |}))
  ∧ (∀ e,
       client_List env = inl e →
       reconcileDrain TabletTypeLabel ExternalMasterTabletPoolName
         MysqldContainerName replicationRequeueDelay AliasFromPod GetState
         StateTransitions env vts initial
       = (Done ({| Requeue := false; RequeueAfter := 0 |}, Some e),
          {| w_pods := ∅;
             w_trace := [Eventf EventTypeWarning "ListFailed"];
             w_builder := {| results.b_err := Some e;
                             results.b_requeueAfter := 0 |} |})).
Proof.
  split.
  - intros items Hlist Hfail. unfold reconcileDrain. rewrite Hlist.
    destruct (topo_GetShard env) as [e1|shard]; [reflexivity|].
    destruct Hfail as [[e He]|[e He]]; [discriminate|].
    by rewrite He.
  - intros e Hlist. unfold reconcileDrain. by rewrite Hlist.
Qed.

End Reads.

(** C4 as the spec states it does not hold: in the scenario [listFails] the
    pod list call fails and the pass returns its error, not a request to be
    run again after the delay. *)
Lemma list_failure_returns_error :
  ¬ (∀ env : Env,
       (∃ e, client_List env = inl e) ∨ (∃ e, topo_GetShard env = inl e)
       ∨ (∃ e, topo_GetTabletMapForShardByCell env = inl e) →
       ∃ w reason,
         Scenario.reconcileDrain env
         = (Done ({| Requeue := false;
                     RequeueAfter := Scenario.replicationRequeueDelay |}, None),
            w)
         ∧ Eventf EventTypeWarning reason ∈ w_trace w).
Proof.
  intros Hclaim.
  destruct (Hclaim Scenario.listFails) as (w & reason & Hrun & _).
  { left. eexists. reflexivity. }
  assert ((Scenario.reconcileDrain Scenario.listFails).1
          = Done ({| Requeue := false; RequeueAfter := 0 |},
                  Some "the server is currently unable to handle the request"))
    as Hres by (vm_compute; reflexivity).
  rewrite Hrun in Hres. discriminate Hres.
Qed.

Lemma read_failure_result_witness :
  Scenario.reconcileDrain Scenario.topoFails
  = (Done ({| Requeue := false;
              RequeueAfter := Scenario.replicationRequeueDelay |}, None),
     {| w_pods := ∅;
        w_trace := [Eventf EventTypeWarning "TopoGetFailed"];
        w_builder :=
          {| results.b_err := None;
             results.b_requeueAfter := Scenario.replicationRequeueDelay |} |}).
Proof.
  apply (proj1 (read_failure_result Scenario.TabletTypeLabel
                  Scenario.ExternalMasterTabletPoolName
                  Scenario.MysqldContainerName
                  Scenario.replicationRequeueDelay Scenario.AliasFromPod
                  Scenario.GetState Scenario.StateTransitions (G:=N)
                  Scenario.topoFails Scenario.vts) Scenario.abortedPods).
  - reflexivity.
  - left. eexists. reflexivity.
Defined.

(** * Further properties *)

(** ** The gate of the safe upgrade *)

Lemma SplitN_nonempty image name version :
  SplitN image ":" 2 = [name; version] → image ≠ "".
Proof. by intros Hs ->. Qed.

(** The decision of the gate on two different images whose versions
    parse. *)
Lemma safeMysqldUpgrade_parsed
    (currentImage desiredImage name1 current name2 desired : string)
    (f1 a1 b1 c1 f2 a2 b2 c2 : string) :
  desiredImage ≠ currentImage →
  SplitN currentImage ":" 2 = [name1; current] →
  SplitN desiredImage ":" 2 = [name2; desired] →
  mysqlImageVersion_FindStringSubmatch current = [f1; a1; b1; c1] →
  mysqlImageVersion_FindStringSubmatch desired = [f2; a2; b2; c2] →
  let dst i := nth i [fst (Atoi a2); fst (Atoi b2); fst (Atoi c2)] 0 in
  let cur i := nth i [fst (Atoi a1); fst (Atoi b1); fst (Atoi c1)] 0 in
  safeMysqldUpgrade currentImage desiredImage
  = if bool_decide ([f1; a1; b1; c1] = [f2; a2; b2; c2]) then (false, None) else
    if dst 0%nat <? cur 0%nat
    then (false, Some ("cannot downgrade major version from " +:+ current
                         +:+ " to " +:+ desired)) else
    if (dst 0%nat =? cur 1%nat) && (dst 1%nat <? cur 1%nat)
    then (false, Some ("cannot downgrade minor version from " +:+ current
                         +:+ " to " +:+ desired)) else
    if (dst 0%nat =? 8) && (dst 1%nat =? 0)
       && (cur 0%nat =? 8) && (cur 1%nat =? 0)
    then
      if (dst 2%nat >=? 34) && (cur 2%nat >=? 34) then (false, None) else
      if dst 2%nat <? cur 2%nat
      then (false, Some ("cannot downgrade patch version from " +:+ current
                           +:+ " to " +:+ desired))
      else (negb (dst 2%nat =? cur 2%nat), None)
    else (negb (dst 0%nat =? cur 0%nat) || negb (dst 1%nat =? cur 1%nat), None).
Proof.
  intros Hne Hsc Hsd Hpc Hpd dst cur. unfold safeMysqldUpgrade.
  rewrite (bool_decide_eq_false_2 (currentImage = ""))
    by (by eapply SplitN_nonempty).
  rewrite (bool_decide_eq_false_2 (desiredImage = ""))
    by (by eapply SplitN_nonempty).
  rewrite (bool_decide_eq_false_2 (desiredImage = currentImage)) by done.
  rewrite Hsc, Hsd. cbn [length Nat.eqb negb orb nth].
  rewrite Hpc, Hpd. cbn [length Nat.eqb negb].
  reflexivity.
Qed.

Ltac gate_numbers Hc Hd Hne :=
  destruct Hc as (n1 & v1 & f1 & a1 & b1 & c1 & Hsc & Hpc & Ha1 & Hb1 & Hc1);
  destruct Hd as (n2 & v2 & f2 & a2 & b2 & c2 & Hsd & Hpd & Ha2 & Hb2 & Hc2);
  rewrite (safeMysqldUpgrade_parsed _ _ _ _ _ _ _ _ _ _ _ _ _ _
             Hne Hsc Hsd Hpc Hpd);
  cbn [nth]; rewrite ?Ha1, ?Hb1, ?Hc1, ?Ha2, ?Hb2, ?Hc2;
  clear Hsc Hsd Hpc Hpd.

Ltac gate_arith :=
  rewrite ?andb_true_iff, ?andb_false_iff, ?orb_true_iff, ?orb_false_iff,
    ?negb_true_iff, ?negb_false_iff, ?Z.geb_leb, ?Z.ltb_lt, ?Z.ltb_ge,
    ?Z.eqb_eq, ?Z.eqb_neq, ?Z.leb_le, ?Z.leb_gt in *.

(** The decision tree of the gate, one test at a time from the first. *)
Ltac gate_step :=
  match goal with
  | |- context [if ?c then _ else _] =>
      let Hc := fresh "Hc" in destruct c eqn:Hc
  end.

Ltac gate_cases :=
  try (let Heq := fresh "Heq" in
       case_bool_decide as Heq; [injection Heq as -> -> -> ->|]);
  repeat gate_step; cbn [fst snd]; gate_arith;
  first [done | lia | f_equal; gate_arith; lia].

(** Two images tagged with versions of the same three numbers, whatever
    their names and whatever follows the numbers in the tags, need no safe
    upgrade, and the gate reports no error. *)
Theorem same_version_numbers_no_safe_upgrade
    (currentImage desiredImage : string) (major minor patch : Z) :
  tagged_version currentImage major minor patch →
  tagged_version desiredImage major minor patch →
  safeMysqldUpgrade currentImage desiredImage = (false, None).
Proof.
  intros Hc Hd.
  destruct (decide (desiredImage = currentImage)) as [->|Hne].
  { unfold safeMysqldUpgrade. destruct (_ || _); [done|].
    by rewrite (bool_decide_eq_true_2 (currentImage = currentImage)). }
  gate_numbers Hc Hd Hne. gate_cases.
Qed.

(** Between two different images both tagged 8.0.x: when both patch
    numbers are at least 34 no safe upgrade is needed; otherwise a lower
    desired patch number is refused with an error, and a higher one needs
    the safe upgrade. *)
Theorem patch_change_within_8_0
    (currentImage desiredImage : string) (p q : Z) :
  tagged_version currentImage 8 0 p →
  tagged_version desiredImage 8 0 q →
  desiredImage ≠ currentImage →
  (34 <= p ∧ 34 <= q → safeMysqldUpgrade currentImage desiredImage = (false, None))
  ∧ (p < 34 ∨ q < 34 →
     (q < p → fst (safeMysqldUpgrade currentImage desiredImage) = false
              ∧ snd (safeMysqldUpgrade currentImage desiredImage) ≠ None)
     ∧ (p < q → safeMysqldUpgrade currentImage desiredImage = (true, None))).
Proof.
  intros Hc Hd Hne. gate_numbers Hc Hd Hne.
  split; [intros [? ?]|intros Hlow; split; intros Hpq].
  - gate_cases.
  - gate_cases.
  - gate_cases.
Qed.

(** Outside the 8.0 series a change of the patch number alone, up or
    down, needs no safe upgrade and is never refused. *)
Theorem patch_change_outside_8_0
    (currentImage desiredImage : string) (major minor p q : Z) :
  tagged_version currentImage major minor p →
  tagged_version desiredImage major minor q →
  ¬ (major = 8 ∧ minor = 0) →
  safeMysqldUpgrade currentImage desiredImage = (false, None).
Proof.
  intros Hc Hd Hseries.
  destruct (decide (desiredImage = currentImage)) as [->|Hne].
  { unfold safeMysqldUpgrade. destruct (_ || _); [done|].
    by rewrite (bool_decide_eq_true_2 (currentImage = currentImage)). }
  gate_numbers Hc Hd Hne. gate_cases.
Qed.

(** An upgrade of the major number, or of the minor number within one
    major number, needs the safe upgrade and is not refused, unless the
    desired major number equals the current minor number while the desired
    minor number is below it, which is what the test of the minor downgrade
    looks at. *)
Theorem version_upgrade_needs_safe_upgrade
    (currentImage desiredImage : string) (major1 minor1 p major2 minor2 q : Z) :
  tagged_version currentImage major1 minor1 p →
  tagged_version desiredImage major2 minor2 q →
  major1 < major2 ∨ (major1 = major2 ∧ minor1 < minor2) →
  ¬ (major2 = minor1 ∧ minor2 < minor1) →
  safeMysqldUpgrade currentImage desiredImage = (true, None).
Proof.
  intros Hc Hd Hup Hslip.
  assert (desiredImage ≠ currentImage) as Hne.
  { intros ->.
    destruct Hc as (n1 & v1 & f1 & a1 & b1 & c1 & Hsc & Hpc & Ha1 & Hb1 & Hc1).
    destruct Hd as (n2 & v2 & f2 & a2 & b2 & c2 & Hsd & Hpd & Ha2 & Hb2 & Hc2).
    rewrite Hsc in Hsd. injection Hsd as -> ->. rewrite Hpc in Hpd.
    injection Hpd as -> -> -> ->. lia. }
  gate_numbers Hc Hd Hne. gate_cases.
Qed.

(** The gate returns an error exactly when both images carry a version
    that parses and the numbers fall under one of its three refusals; with
    an error it never asks for the safe upgrade. *)
Theorem safeMysqldUpgrade_error_iff (currentImage desiredImage : string) :
  (snd (safeMysqldUpgrade currentImage desiredImage) ≠ None ↔
     ∃ major1 minor1 patch1 major2 minor2 patch2,
       tagged_version currentImage major1 minor1 patch1
       ∧ tagged_version desiredImage major2 minor2 patch2
       ∧ refused major1 minor1 patch1 major2 minor2 patch2)
  ∧ (snd (safeMysqldUpgrade currentImage desiredImage) ≠ None →
     fst (safeMysqldUpgrade currentImage desiredImage) = false).
Proof.
  assert (snd (safeMysqldUpgrade currentImage desiredImage) ≠ None →
          fst (safeMysqldUpgrade currentImage desiredImage) = false
          ∧ ∃ major1 minor1 patch1 major2 minor2 patch2,
              tagged_version currentImage major1 minor1 patch1
              ∧ tagged_version desiredImage major2 minor2 patch2
              ∧ refused major1 minor1 patch1 major2 minor2 patch2) as Honly.
  { unfold safeMysqldUpgrade.
    destruct (_ || _); [done|]. case_bool_decide as Hne; [done|].
    destruct (SplitN currentImage ":" 2) as [|n1 [|v1 [|]]] eqn:Hsc;
      cbn [length Nat.eqb negb nth]; try done.
    destruct (SplitN desiredImage ":" 2) as [|n2 [|v2 [|]]] eqn:Hsd;
      cbn [length Nat.eqb negb nth]; try done.
    destruct (mysqlImageVersion_FindStringSubmatch v1)
      as [|f1 [|a1 [|b1 [|c1 [|]]]]] eqn:Hpc;
      cbn [length Nat.eqb negb]; try done.
    destruct (mysqlImageVersion_FindStringSubmatch v2)
      as [|f2 [|a2 [|b2 [|c2 [|]]]]] eqn:Hpd;
      cbn [length Nat.eqb negb]; try done.
    case_bool_decide as Heq; [done|].
    unfold version_parts, part. cbn [tail map nth].
    intros Herr.
    assert (refused (Atoi a1).1 (Atoi b1).1 (Atoi c1).1
                    (Atoi a2).1 (Atoi b2).1 (Atoi c2).1) as Href.
    { revert Herr. unfold refused.
      repeat gate_step; cbn [snd]; try done; intros _; gate_arith; lia. }
    split.
    - revert Herr. repeat gate_step; cbn [snd fst]; done.
    - eexists _, _, _, _, _, _. split_and!; [| |exact Href].
      + by exists n1, v1, f1, a1, b1, c1.
      + by exists n2, v2, f2, a2, b2, c2. }
  split; [split|]; [by intros (_ & ?)%Honly | | by intros (? & _)%Honly].
  intros (major1 & minor1 & patch1 & major2 & minor2 & patch2 & Hc & Hd & Href).
  assert (desiredImage ≠ currentImage) as Hne.
  { intros ->.
    destruct Hc as (n1 & v1 & f1 & a1 & b1 & c1 & Hsc & Hpc & Ha1 & Hb1 & Hc1).
    destruct Hd as (n2 & v2 & f2 & a2 & b2 & c2 & Hsd & Hpd & Ha2 & Hb2 & Hc2).
    rewrite Hsc in Hsd. injection Hsd as -> ->. rewrite Hpc in Hpd.
    injection Hpd as -> -> -> ->. unfold refused in Href. lia. }
  unfold refused in Href.
  gate_numbers Hc Hd Hne. gate_cases.
Qed.


(** ** Further properties of updateDrainStatus *)

Lemma same_identity_refl pod : same_identity pod pod.
Proof. by repeat split. Qed.

Lemma same_identity_trans pod1 pod2 pod3 :
  same_identity pod1 pod2 → same_identity pod2 pod3 → same_identity pod1 pod3.
Proof.
  intros (? & ? & ? & ? & ?) (? & ? & ? & ? & ?).
  repeat split; congruence.
Qed.

(** The two ways in which a call ends when the pod exists and the target
    is not the draining state. *)
Lemma updateDrainStatus_run env k s w pod :
  w_pods w !! k = Some pod → s ≠ DrainingState →
  ∃ pod',
    same_identity pod' pod ∧ encodes pod' s
    ∧ (s = FinishedState → Acknowledged pod' = Acknowledged pod)
    ∧ (s = AcknowledgedState → Finished pod' = Finished pod)
    ∧ ((pod' = pod ∧ updateDrainStatus env k s w = (Done None, w))
       ∨ (pod' ≠ pod
          ∧ updateDrainStatus env k s w
            = (Done (client_Update env (length (w_trace w)) pod'),
               {| w_pods := <[k := pod']> (w_pods w);
                  w_trace := w_trace w ++ [Update k pod'];
                  w_builder := w_builder w |}))).
Proof.
  intros Hk Hs. destruct w as [pods tr b]. cbn in Hk.
  destruct pod as [n l [st ak fi] c cd].
  unfold updateDrainStatus, clientUpdate, bind, deref, ret, store_pod, now, emit.
  cbn [w_pods w_trace w_builder].
  destruct s; [|done| |].
  - eexists {| pod_Name := n; pod_Labels := l;
               pod_Markers := {| started := st; acknowledged := false;
                                 finished := false |};
               pod_Containers := c; pod_Conditions := cd |}.
    split_and!; [by repeat split|done|done|done|].
    destruct fi, ak;
      repeat first [rewrite Hk | rewrite lookup_insert_eq
                   | rewrite insert_insert_eq | progress cbn];
      first [by left | right; split; [by intros [=]|reflexivity]].
  - eexists {| pod_Name := n; pod_Labels := l;
               pod_Markers := {| started := st; acknowledged := true;
                                 finished := fi |};
               pod_Containers := c; pod_Conditions := cd |}.
    split_and!; [by repeat split|done|done|done|].
    destruct ak;
      repeat first [rewrite Hk | rewrite lookup_insert_eq | progress cbn];
      first [by left | right; split; [by intros [=]|reflexivity]].
  - eexists {| pod_Name := n; pod_Labels := l;
               pod_Markers := {| started := st; acknowledged := ak;
                                 finished := true |};
               pod_Containers := c; pod_Conditions := cd |}.
    split_and!; [by repeat split|done|done|done|].
    destruct fi;
      repeat first [rewrite Hk | rewrite lookup_insert_eq | progress cbn];
      first [by left | right; split; [by intros [=]|reflexivity]].
Qed.

Lemma updateDrainStatus_panic env k s w :
  s = DrainingState ∨ w_pods w !! k = None →
  ∃ msg, updateDrainStatus env k s w = (Panic msg, w).
Proof.
  intros [->|Hk]; [by eexists|].
  unfold updateDrainStatus, bind, deref. destruct s; [|by eexists|..];
    rewrite Hk; by eexists.
Qed.

(** What a call that returns has done: the pod under the alias now encodes
    the target and differs from what it was at most in its acknowledged and
    finished markers, of which the call sets one or clears both; an update
    is sent exactly when the pod has changed, it carries the changed pod,
    and its outcome is what the call returns. *)
Theorem updateDrainStatus_effect env k s w pod :
  w_pods w !! k = Some pod → s ≠ DrainingState →
  ∃ pod',
    same_identity pod' pod ∧ encodes pod' s
    ∧ (s = FinishedState → Acknowledged pod' = Acknowledged pod)
    ∧ (s = AcknowledgedState → Finished pod' = Finished pod)
    ∧ ((pod' = pod ∧ updateDrainStatus env k s w = (Done None, w))
       ∨ (pod' ≠ pod
          ∧ updateDrainStatus env k s w
            = (Done (client_Update env (length (w_trace w)) pod'),
               {| w_pods := <[k := pod']> (w_pods w);
                  w_trace := w_trace w ++ [Update k pod'];
                  w_builder := w_builder w |}))).
Proof. apply updateDrainStatus_run. Qed.

(** The call panics exactly when it is asked for the draining state, which
    only the drainer sets, or is given a nil pod; nothing has been written
    then. *)
Theorem updateDrainStatus_panics_iff env k s w :
  ((∃ msg, (updateDrainStatus env k s w).1 = Panic msg)
   ↔ s = DrainingState ∨ w_pods w !! k = None)
  ∧ ((∃ msg, (updateDrainStatus env k s w).1 = Panic msg) →
     (updateDrainStatus env k s w).2 = w).
Proof.
  destruct (decide (s = DrainingState)) as [->|Hs].
  { split; [split; [by left|intros _]|done]. eexists. reflexivity. }
  destruct (w_pods w !! k) as [pod|] eqn:Hk.
  - destruct (updateDrainStatus_run env k s w pod Hk Hs)
      as (pod' & _ & _ & _ & _ & [[_ ->]|[_ ->]]);
      (split; [split|]; [by intros [? ?]|by intros [?|?]|by intros [? ?]]).
  - destruct (updateDrainStatus_panic env k s w) as [msg ->]; [by right|].
    split; [split|]; [by right|by eexists|done].
Qed.


(** ** Further properties of candidatePrimary *)

Section MoreCandidates.

Variable TabletTypeLabel : string.
Variable ExternalMasterTabletPoolName : string.
Context {G : Type} `{GTIDSet G}.

Lemma eligible_isCandidate shard pods usingExternal k t :
  eligible TabletTypeLabel ExternalMasterTabletPoolName
    shard pods usingExternal k t →
  isCandidate TabletTypeLabel ExternalMasterTabletPoolName
    shard pods usingExternal k t = true.
Proof.
  intros (Hp & pod & Hk & Hr & Hs & Ha & Hf & Hrole). unfold isCandidate.
  rewrite Hp, Hk, Hr, Hs, Ha, Hf. cbn [negb orb].
  destruct usingExternal.
  - destruct Hrole as [Hl Ht].
    rewrite (bool_decide_eq_false_2 (label _ _ ≠ _)) by (by intros ?).
    destruct Ht as [Ht|Ht]; rewrite Ht; by case_bool_decide.
  - rewrite Hrole. by case_bool_decide.
Qed.

Lemma candidates_range_intro shard tablets pods usingExternal order k t :
  k ∈ order → tablets !! k = Some t →
  isCandidate TabletTypeLabel ExternalMasterTabletPoolName
    shard pods usingExternal k t = true →
  t ∈ candidates_range TabletTypeLabel ExternalMasterTabletPoolName
        shard tablets pods usingExternal order.
Proof.
  intros Hin Ht Hc. induction order as [|k' rest IH]; [by apply elem_of_nil in Hin|].
  cbn [candidates_range]. apply elem_of_cons in Hin as [<-|Hin].
  - rewrite Ht, Hc. left.
  - destruct (tablets !! k') as [t'|]; [|by apply IH].
    destruct (isCandidate _ _ _ _ _ k' t'); [right|]; by apply IH.
Qed.

(** The tablet returned is one of the candidates. *)
Lemma candidatePrimary_candidate env shard tablets pods usingExternal t :
  candidatePrimary TabletTypeLabel ExternalMasterTabletPoolName
    env shard tablets pods usingExternal = Some t →
  t ∈ candidates_range TabletTypeLabel ExternalMasterTabletPoolName
        shard tablets pods usingExternal (range_tablets env).
Proof.
  unfold candidatePrimary.
  destruct (candidates_range _ _ _ _ _ _ _) as [|first more] eqn:Hc; [done|].
  destruct (fst (fold_left remember _ _)) as [b|] eqn:Hb; intros [= <-].
  - apply remember_best in Hb as [?|(r & Hr & <-)]; [done|].
    apply received_elem in Hr.
    apply list_elem_of_fmap in Hr as (c & -> & Hc').
    by rewrite probe_tablet.
  - left.
Qed.

(** [candidatePrimary] reports that there is no candidate exactly when no
    tablet of the map passes the four filters: a probe that fails or a
    deadline that expires never makes it give up. *)
Theorem candidatePrimary_none_iff env shard tablets pods usingExternal :
  visits_all (range_tablets env) tablets →
  (candidatePrimary TabletTypeLabel ExternalMasterTabletPoolName
     env shard tablets pods usingExternal = None
   ↔ ∀ k t, tablets !! k = Some t →
            ¬ eligible TabletTypeLabel ExternalMasterTabletPoolName
                shard pods usingExternal k t).
Proof.
  intros Hall. split.
  - intros Hnone k t Ht Hel.
    assert (t ∈ candidates_range TabletTypeLabel ExternalMasterTabletPoolName
                  shard tablets pods usingExternal (range_tablets env)) as Hin.
    { eapply candidates_range_intro; [|done|by apply eligible_isCandidate].
      by eapply visits_all_elem. }
    unfold candidatePrimary in Hnone.
    destruct (candidates_range _ _ _ _ _ _ _) as [|first more];
      [by apply elem_of_nil in Hin|].
    by destruct (fst (fold_left remember _ _)).
  - intros Hno. unfold candidatePrimary.
    destruct (candidates_range _ _ _ _ _ _ _) as [|first more] eqn:Hc; [done|].
    exfalso.
    assert (first ∈ candidates_range TabletTypeLabel
              ExternalMasterTabletPoolName shard tablets pods usingExternal
              (range_tablets env)) as Hin by (rewrite Hc; left).
    apply candidates_range_elem in Hin as (k & _ & Ht & Hcand).
    eapply Hno; [done|]. by apply isCandidate_eligible.
Qed.

Lemma remember_responder (rs : list (candidateInfo G)) acc t :
  fst (fold_left remember rs acc) = Some t →
  fst acc = Some t ∨ ∃ r, r ∈ rs ∧ err r = None ∧ tablet r = t.
Proof.
  revert acc. induction rs as [|r rest IH]; intros acc; cbn [fold_left].
  - by left.
  - intros Hb. destruct (IH _ Hb) as [Ha|(r' & ? & ? & ?)].
    + unfold remember in Ha. destruct acc as [b h].
      destruct (err r) eqn:He; [by left|].
      destruct (IsZero h || negb (AtLeast h (position r))); [|by left].
      right. exists r. split_and!; [left|done|]. by simplify_eq/=.
    + right. exists r'. split_and!; [by right|done|done].
Qed.

Lemma remember_some_responder (rs : list (candidateInfo G)) acc :
  fst acc ≠ None ∨ (snd acc = None ∧ ∃ r, r ∈ rs ∧ err r = None) →
  fst (fold_left remember rs acc) ≠ None.
Proof.
  revert acc. induction rs as [|r rest IH]; intros [b h]; cbn [fold_left fst snd].
  - intros [?|(_ & r & Hr & _)]; [done|]. by apply elem_of_nil in Hr.
  - intros Hacc. apply IH. unfold remember.
    destruct (err r) eqn:He.
    + destruct Hacc as [?|(-> & r' & Hin & Hr')]; [by left|right].
      split; [done|]. exists r'. split; [|done].
      apply elem_of_cons in Hin as [->|?]; [congruence|done].
    + destruct Hacc as [Hb|(-> & _)].
      * left. by destruct (_ || _).
      * left. done.
Qed.

(** When the collector receives one result per candidate and at least one
    candidate responds, the tablet returned is a candidate that responded:
    a candidate whose probe failed is only returned when all have
    failed. *)
Theorem candidatePrimary_prefers_responders
    env shard tablets pods usingExternal :
  let cands :=
    candidates_range TabletTypeLabel ExternalMasterTabletPoolName
      shard tablets pods usingExternal (range_tablets env) in
  recv_order env ≡ₚ seq 0 (length cands) →
  (∃ c, c ∈ cands ∧ err (probe env c) = None) →
  ∃ t, candidatePrimary TabletTypeLabel ExternalMasterTabletPoolName
         env shard tablets pods usingExternal = Some t
       ∧ t ∈ cands ∧ err (probe env t) = None.
Proof.
  intros cands Hperm (c & Hc & Hresp).
  assert (received (recv_order env) (probe env <$> cands)
          ≡ₚ probe env <$> cands) as Hall.
  { apply received_all. by rewrite length_fmap. }
  unfold candidatePrimary. fold cands.
  destruct cands as [|first more] eqn:Hcands; [by apply elem_of_nil in Hc|].
  destruct (fst (fold_left remember _ _)) as [t|] eqn:Hb.
  - exists t. split; [done|].
    apply remember_responder in Hb as [?|(r & Hr & He & <-)]; [done|].
    apply received_elem in Hr.
    apply list_elem_of_fmap in Hr as (c' & -> & Hc').
    rewrite !probe_tablet. by split.
  - exfalso. revert Hb. apply remember_some_responder. right.
    split; [done|]. exists (probe env c). split; [|done].
    rewrite Hall. by apply list_elem_of_fmap_2.
Qed.

End MoreCandidates.


(** ** disableFastShutdown *)

Section FastShutdown.

Variable MysqldContainerName : string.

Lemma upgrade_write_cons pods tablets desiredImage k order a :
  upgrade_write MysqldContainerName pods tablets desiredImage order a →
  upgrade_write MysqldContainerName pods tablets desiredImage (k :: order) a.
Proof.
  destruct a; cbn; try done. intros (? & ? & ?). split_and!; [done| |done].
  by right.
Qed.

Lemma World_eta w :
  w = {| w_pods := w_pods w; w_trace := w_trace w ++ [];
         w_builder := w_builder w |}.
Proof. destruct w. cbn. by rewrite app_nil_r. Qed.

(** One run of [disableFastShutdown]: it returns, it only appends writes
    to the trace, and its result tells what happened to the pods it
    visited. *)
Lemma disableFastShutdown_run env tablets desiredImage order : ∀ w,
  ∃ r ext,
    disableFastShutdown MysqldContainerName env tablets desiredImage order w
    = (Done r, {| w_pods := w_pods w; w_trace := w_trace w ++ ext;
                  w_builder := w_builder w |})
    ∧ Forall (upgrade_write MysqldContainerName (w_pods w) tablets
                desiredImage order) ext
    ∧ match r with
      | None =>
          ∀ k pod tablet,
            k ∈ order → w_pods w !! k = Some pod →
            tablets !! k = Some tablet →
            let gate := safeMysqldUpgrade
                          (mysqldImage MysqldContainerName (pod_Containers pod))
                          desiredImage in
            gate.2 = None
            ∧ (gate.1 = true →
               ExecuteFetchAsDba k disableFastShutdownQuery ∈ ext
               ∧ ∃ n, tmc_ExecuteFetchAsDba env n tablet = None)
      | Some e =>
          ∃ k pod tablet,
            k ∈ order ∧ w_pods w !! k = Some pod ∧ tablets !! k = Some tablet
            ∧ let gate := safeMysqldUpgrade
                            (mysqldImage MysqldContainerName
                               (pod_Containers pod))
                            desiredImage in
              (gate.2 = Some e
               ∨ (gate = (true, None)
                  ∧ last ext
                    = Some (ExecuteFetchAsDba k disableFastShutdownQuery)
                  ∧ ∃ n e',
                      tmc_ExecuteFetchAsDba env n tablet = Some e'
                      ∧ e = "failed to disable fast shutdown for tablet "
                              +:+ k +:+ ": " +:+ e'))
      end.
Proof.
  induction order as [|k rest IH]; intros w; cbn [disableFastShutdown].
  { exists None, []. split_and!; [by rewrite <- World_eta|done|].
    intros k pod tablet Hin. by apply elem_of_nil in Hin. }
  unfold bind at 1, get_pods at 1.
  assert (∀ w1 pre,
    w_pods w1 = w_pods w → w_builder w1 = w_builder w →
    w_trace w1 = w_trace w ++ pre →
    Forall (upgrade_write MysqldContainerName (w_pods w) tablets
              desiredImage (k :: rest)) pre →
    (∀ pod tablet, w_pods w !! k = Some pod → tablets !! k = Some tablet →
       let gate := safeMysqldUpgrade
                     (mysqldImage MysqldContainerName (pod_Containers pod))
                     desiredImage in
       gate.2 = None
       ∧ (gate.1 = true →
          ExecuteFetchAsDba k disableFastShutdownQuery ∈ pre
          ∧ ∃ n, tmc_ExecuteFetchAsDba env n tablet = None)) →
    ∃ r ext,
      disableFastShutdown MysqldContainerName env tablets desiredImage rest w1
      = (Done r, {| w_pods := w_pods w; w_trace := w_trace w ++ ext;
                    w_builder := w_builder w |})
      ∧ Forall (upgrade_write MysqldContainerName (w_pods w) tablets
                  desiredImage (k :: rest)) ext
      ∧ match r with
        | None =>
            ∀ k0 pod tablet,
              k0 ∈ k :: rest → w_pods w !! k0 = Some pod →
              tablets !! k0 = Some tablet →
              let gate := safeMysqldUpgrade
                            (mysqldImage MysqldContainerName
                               (pod_Containers pod))
                            desiredImage in
              gate.2 = None
              ∧ (gate.1 = true →
                 ExecuteFetchAsDba k0 disableFastShutdownQuery ∈ ext
                 ∧ ∃ n, tmc_ExecuteFetchAsDba env n tablet = None)
        | Some e =>
            ∃ k0 pod tablet,
              k0 ∈ k :: rest ∧ w_pods w !! k0 = Some pod
              ∧ tablets !! k0 = Some tablet
              ∧ let gate := safeMysqldUpgrade
                              (mysqldImage MysqldContainerName
                                 (pod_Containers pod))
                              desiredImage in
                (gate.2 = Some e
                 ∨ (gate = (true, None)
                    ∧ last ext
                      = Some (ExecuteFetchAsDba k0 disableFastShutdownQuery)
                    ∧ ∃ n e',
                        tmc_ExecuteFetchAsDba env n tablet = Some e'
                        ∧ e = "failed to disable fast shutdown for tablet "
                                +:+ k0 +:+ ": " +:+ e'))
        end) as Hrest.
  { intros w1 pre Hp1 Hb1 Ht1 Hpre Hk.
    destruct (IH w1) as (r & ext & Hrun & Hext & Hr).
    rewrite Hp1 in Hext, Hr.
    exists r, (pre ++ ext). rewrite Hrun, Hp1, Hb1, Ht1, <- app_assoc.
    split_and!; [done| |].
    - apply Forall_app. split; [done|].
      eapply Forall_impl; [exact Hext|]. intros a. apply upgrade_write_cons.
    - destruct r as [e|].
      + destruct Hr as (k0 & pod & tablet & Hin & Hl & Ht & Hg).
        exists k0, pod, tablet. split_and!; [by right|done..|].
        cbn zeta in *. destruct Hg as [?|(? & Hlast & ?)]; [by left|right].
        split_and!; [done| |done]. by rewrite last_app, Hlast.
      + intros k0 pod tablet Hin Hl Ht.
        apply elem_of_cons in Hin as [->|Hin].
        * destruct (Hk pod tablet Hl Ht) as [? Hc]. split; [done|].
          intros Hg. destruct (Hc Hg) as [? ?]. split; [|done].
          apply elem_of_app. by left.
        * destruct (Hr k0 pod tablet Hin Hl Ht) as [? Hc]. split; [done|].
          intros Hg. destruct (Hc Hg) as [? ?]. split; [|done].
          apply elem_of_app. by right. }
  assert (∀ pre, pre = [] →
    w_trace w = w_trace w ++ pre) as Hnil.
  { intros ? ->. by rewrite app_nil_r. }
  destruct (w_pods w !! k) as [pod|] eqn:Hpod.
  2: { apply (Hrest w []); [done|done|by apply Hnil|done|]. by intros ? ? ?. }
  destruct (tablets !! k) as [tablet|] eqn:Htab.
  2: { apply (Hrest w []); [done|done|by apply Hnil|done|]. by intros ? ? ? ?. }
  destruct (safeMysqldUpgrade _ desiredImage) as [needsSafe [e|]] eqn:Hgate.
  { exists (Some e), []. rewrite <- World_eta. split_and!; [by destruct needsSafe|done|].
    exists k, pod, tablet. split_and!; [left|done|done|]. cbn zeta.
    rewrite Hgate. by left. }
  destruct needsSafe.
  2: { apply (Hrest w []); [done|done|by apply Hnil|done|].
       intros ? ? [= <-] [= <-]. cbn zeta. by rewrite Hgate. }
  unfold bind at 1, now at 1. unfold bind at 1, emit at 1.
  assert (upgrade_write MysqldContainerName (w_pods w) tablets desiredImage
            (k :: rest) (ExecuteFetchAsDba k disableFastShutdownQuery))
    as Hcmd.
  { split_and!; [done|left|]. by exists pod, tablet. }
  destruct (tmc_ExecuteFetchAsDba env (length (w_trace w)) tablet) as [e'|]
    eqn:Htmc.
  { exists (Some ("failed to disable fast shutdown for tablet "
                    +:+ k +:+ ": " +:+ e')),
      [ExecuteFetchAsDba k disableFastShutdownQuery].
    split_and!; [done|by apply Forall_singleton|].
    exists k, pod, tablet. split_and!; [left|done|done|]. cbn zeta. right.
    split_and!; [done|done|]. by exists (length (w_trace w)), e'. }
  unfold bind at 1, recorder_Eventf at 1, emit at 1.
  cbn [w_pods w_trace w_builder].
  apply (Hrest _ [ExecuteFetchAsDba k disableFastShutdownQuery;
                  Eventf EventTypeNormal "MySQL_Upgrade"]);
    cbn [w_pods w_trace w_builder]; [done|done|by rewrite <- app_assoc| |].
  - apply Forall_cons. split; [done|]. by apply Forall_singleton.
  - intros ? ? [= <-] [= <-]. cbn zeta. rewrite Hgate. split; [done|].
    intros _. split; [left|]. by exists (length (w_trace w)).
Qed.

(** [disableFastShutdown] always returns, changes neither a pod nor the
    result, and writes nothing but the command that disables the fast
    shutdown, sent only to visited pods that have a tablet record and whose
    mysqld image needs the safe upgrade to the desired image, and the
    event that reports it. *)
Theorem disableFastShutdown_writes env tablets desiredImage order w :
  ∃ r ext,
    disableFastShutdown MysqldContainerName env tablets desiredImage order w
    = (Done r, {| w_pods := w_pods w; w_trace := w_trace w ++ ext;
                  w_builder := w_builder w |})
    ∧ Forall (upgrade_write MysqldContainerName (w_pods w) tablets
                desiredImage order) ext.
Proof.
  destruct (disableFastShutdown_run env tablets desiredImage order w)
    as (r & ext & ? & ? & _).
  by exists r, ext.
Qed.

(** When [disableFastShutdown] returns no error, no visited pod with a
    tablet record is refused by the gate, and every such pod that needs the
    safe upgrade has been sent the command, which succeeded. *)
Theorem disableFastShutdown_success env tablets desiredImage order w w' :
  disableFastShutdown MysqldContainerName env tablets desiredImage order w
  = (Done None, w') →
  ∃ ext, w_trace w' = w_trace w ++ ext
    ∧ ∀ k pod tablet,
        k ∈ order → w_pods w !! k = Some pod → tablets !! k = Some tablet →
        let gate := safeMysqldUpgrade
                      (mysqldImage MysqldContainerName (pod_Containers pod))
                      desiredImage in
        gate.2 = None
        ∧ (gate.1 = true →
           ExecuteFetchAsDba k disableFastShutdownQuery ∈ ext
           ∧ ∃ n, tmc_ExecuteFetchAsDba env n tablet = None).
Proof.
  destruct (disableFastShutdown_run env tablets desiredImage order w)
    as (r & ext & -> & _ & Hr).
  intros [= -> <-]. by exists ext.
Qed.

(** When [disableFastShutdown] returns an error, it is the refusal of the
    gate for a visited pod, or the failure of the command for a visited pod
    that needs the safe upgrade, wrapped with the alias of the tablet; in
    the second case the failed command is the last write: no event follows
    and no other pod is visited. *)
Theorem disableFastShutdown_failure env tablets desiredImage order w w' e :
  disableFastShutdown MysqldContainerName env tablets desiredImage order w
  = (Done (Some e), w') →
  ∃ k pod tablet,
    k ∈ order ∧ w_pods w !! k = Some pod ∧ tablets !! k = Some tablet
    ∧ let gate := safeMysqldUpgrade
                    (mysqldImage MysqldContainerName (pod_Containers pod))
                    desiredImage in
      (gate.2 = Some e
       ∨ (gate = (true, None)
          ∧ last (w_trace w')
            = Some (ExecuteFetchAsDba k disableFastShutdownQuery)
          ∧ ∃ n e',
              tmc_ExecuteFetchAsDba env n tablet = Some e'
              ∧ e = "failed to disable fast shutdown for tablet "
                      +:+ k +:+ ": " +:+ e')).
Proof.
  destruct (disableFastShutdown_run env tablets desiredImage order w)
    as (r & ext & -> & _ & Hr).
  intros [= -> <-]. destruct Hr as (k & pod & tablet & ? & ? & ? & Hg).
  exists k, pod, tablet. split_and!; [done..|]. cbn zeta in *.
  destruct Hg as [?|(? & Hlast & ?)]; [by left|right].
  split_and!; [done| |done]. cbn [w_trace]. by rewrite last_app, Hlast.
Qed.

(** When no visited pod with a tablet record needs the safe upgrade, as
    when every pod already runs the desired image, [disableFastShutdown]
    writes nothing and returns no error. *)
Theorem disableFastShutdown_nothing_to_do env tablets desiredImage order w :
  (∀ k pod tablet,
     k ∈ order → w_pods w !! k = Some pod → tablets !! k = Some tablet →
     safeMysqldUpgrade (mysqldImage MysqldContainerName (pod_Containers pod))
       desiredImage = (false, None)) →
  disableFastShutdown MysqldContainerName env tablets desiredImage order w
  = (Done None, w).
Proof.
  induction order as [|k rest IH]; intros Hno; cbn [disableFastShutdown];
    [done|].
  assert (disableFastShutdown MysqldContainerName env tablets desiredImage
            rest w = (Done None, w)) as Hrest.
  { apply IH. intros k0 pod tablet Hin. apply Hno. by right. }
  unfold bind at 1, get_pods at 1.
  destruct (w_pods w !! k) as [pod|] eqn:Hpod; [|done].
  destruct (tablets !! k) as [tablet|] eqn:Htab; [|done].
  by rewrite (Hno k pod tablet) by (done || left).
Qed.

End FastShutdown.


(** ** Invariants of a pass *)

Section PassInvariant.

Variable TabletTypeLabel : string.
Variable ExternalMasterTabletPoolName : string.
Variable MysqldContainerName : string.
Variable replicationRequeueDelay : Duration.
Variable AliasFromPod : Pod -> TabletAlias.
Variable GetState : Pod -> State * option Error.
Variable StateTransitions : gmap string State -> gmap string State.
Context {G : Type} `{GTIDSet G}.

(** A property of the state kept by the result builder, by an event, by a
    command sent to a tablet and by [updateDrainStatus]. *)
Variable I : World → Prop.
Hypothesis I_builder : ignores_builder I.
Hypothesis I_Eventf : ∀ t r, preserves I (recorder_Eventf t r).
Hypothesis I_ExecuteFetchAsDba :
  ∀ k query, preserves I (emit (ExecuteFetchAsDba k query)).
Hypothesis I_updateDrainStatus :
  ∀ env k s, preserves I (updateDrainStatus env k s).

Ltac inv_step :=
  match goal with
  | |- preserves _ (ret _) => apply preserves_ret
  | |- preserves _ (panic _) => apply preserves_panic
  | |- preserves _ (bind _ _) => apply preserves_bind; [|intros ?]
  | |- preserves _ (recorder_Eventf _ _) => apply I_Eventf
  | |- preserves _ (emit (ExecuteFetchAsDba _ _)) =>
      apply I_ExecuteFetchAsDba
  | |- preserves _ (updateDrainStatus _ _ _) => apply I_updateDrainStatus
  | |- preserves _ get_pods => apply preserves_get_pods
  | |- preserves _ now => apply preserves_now
  | |- preserves _ resultBuilder_Result => apply preserves_Result
  | |- preserves _ (resultBuilder_Error _) =>
      apply preserves_Error, I_builder
  | |- preserves _ (resultBuilder_RequeueAfter _) =>
      apply preserves_RequeueAfter, I_builder
  | |- preserves _ (match ?x with _ => _ end) => destruct x eqn:?
  end.

Lemma inv_loadDrainState env order drains abortingDrain :
  preserves I (loadDrainState GetState env order drains abortingDrain).
Proof.
  revert drains abortingDrain.
  induction order as [|k rest IH]; intros drains abortingDrain;
    cbn [loadDrainState]; repeat inv_step; apply IH.
Qed.

Lemma inv_applyTransitions env P transitions order acknowledgedDrain :
  preserves I (applyTransitions env P transitions order acknowledgedDrain).
Proof.
  revert acknowledgedDrain.
  induction order as [|k rest IH]; intros acknowledgedDrain;
    cbn [applyTransitions]; repeat inv_step; apply IH.
Qed.

Lemma inv_disableFastShutdown env tablets desiredImage order :
  preserves I
    (disableFastShutdown MysqldContainerName env tablets desiredImage order).
Proof.
  induction order as [|k rest IH]; cbn [disableFastShutdown];
    repeat inv_step; apply IH.
Qed.

(** A property that the handover keeps as well is kept by the pass. *)
Hypothesis I_handover :
  ∀ a, isReparentWrite a = true → preserves I (emit a).

Lemma inv_afterTransitions env vts shard tablets drains :
  preserves I
    (applyTransitions env (TabletAliasString (PrimaryAlias shard))
       (StateTransitions drains) (range_transitions env) false) →
  preserves I
    (transitionAndReparent TabletTypeLabel ExternalMasterTabletPoolName
       MysqldContainerName replicationRequeueDelay StateTransitions
       env vts shard tablets drains).
Proof.
  intros Happly. unfold transitionAndReparent.
  apply preserves_bind; [exact Happly|intros ack].
  apply preserves_bind; [apply inv_disableFastShutdown|intros e].
  unfold handleExternalReparent.
  repeat first [inv_step | by apply I_handover].
Qed.

Lemma inv_transitionAndReparent env vts shard tablets drains :
  preserves I
    (transitionAndReparent TabletTypeLabel ExternalMasterTabletPoolName
       MysqldContainerName replicationRequeueDelay StateTransitions
       env vts shard tablets drains).
Proof. apply inv_afterTransitions, inv_applyTransitions. Qed.

Lemma inv_reconcileAfterReads env vts shard tablets :
  preserves I
    (reconcileAfterReads TabletTypeLabel ExternalMasterTabletPoolName
       MysqldContainerName replicationRequeueDelay GetState StateTransitions
       env vts shard tablets).
Proof.
  unfold reconcileAfterReads, reconcileHealthy.
  repeat inv_step; try apply inv_loadDrainState.
  apply inv_transitionAndReparent.
Qed.

End PassInvariant.

(** ** The pass changes nothing of a pod but its markers *)

Section OnlyMarkers.

Variable TabletTypeLabel : string.
Variable ExternalMasterTabletPoolName : string.
Variable MysqldContainerName : string.
Variable replicationRequeueDelay : Duration.
Variable AliasFromPod : Pod -> TabletAlias.
Variable GetState : Pod -> State * option Error.
Variable StateTransitions : gmap string State -> gmap string State.
Context {G : Type} `{GTIDSet G}.

Lemma only_markers_changed_emit pods0 a :
  isUpdate a = false → preserves (only_markers_changed pods0) (emit a).
Proof.
  intros Ha w [Hp Ht]. split; [done|]. cbn. intros k pod Hin.
  apply elem_of_app in Hin as [Hin|Hin%list_elem_of_singleton];
    [by eapply Ht|].
  by subst a.
Qed.

Lemma only_markers_changed_updateDrainStatus pods0 env k s :
  preserves (only_markers_changed pods0) (updateDrainStatus env k s).
Proof.
  intros w Hw.
  destruct (decide (s = DrainingState ∨ w_pods w !! k = None)) as [Hp|Hn].
  { by destruct (updateDrainStatus_panic env k s w Hp) as [msg ->]. }
  destruct (w_pods w !! k) as [pod|] eqn:Hk; [|destruct Hn; by right].
  assert (s ≠ DrainingState) as Hs by (intros ->; destruct Hn; by left).
  destruct (updateDrainStatus_run env k s w pod Hk Hs)
    as (pod' & Hid & _ & _ & _ & [[_ ->]|[_ ->]]); [done|].
  destruct Hw as [Hpods Htr].
  destruct (Hpods k pod Hk) as (pod0 & Hk0 & Hid0).
  assert (same_identity pod' pod0) as Hid'
    by (by eapply same_identity_trans).
  split; cbn.
  - intros k1 pod1. destruct (decide (k = k1)) as [<-|Hne].
    + rewrite lookup_insert_eq. intros [= <-]. by exists pod0.
    + rewrite lookup_insert_ne by done. apply Hpods.
  - intros k1 pod1 Hin.
    apply elem_of_app in Hin as [Hin|Hin%list_elem_of_singleton];
      [by eapply Htr|].
    injection Hin as -> ->. by exists pod0.
Qed.

(** In every pass, the pods of the state and the pods sent in an update
    carry the name, the labels, the containers, the conditions and the drain
    request with which they were listed: the reconciler changes nothing but
    the acknowledged and finished markers. *)
Theorem pass_changes_only_drain_markers env vts :
  only_markers_changed (listed_pods AliasFromPod env)
    (reconcileDrain TabletTypeLabel ExternalMasterTabletPoolName
       MysqldContainerName replicationRequeueDelay AliasFromPod GetState
       StateTransitions env vts initial).2.
Proof.
  assert (∀ pods0 b tr, (∀ a, a ∈ tr → isUpdate a = false) →
            only_markers_changed pods0
              {| w_pods := ∅; w_trace := tr; w_builder := b |}) as Hempty.
  { intros pods0 b tr Htr. split; cbn.
    - intros k pod Hl. by rewrite lookup_empty in Hl.
    - intros k pod Hin. by apply Htr in Hin. }
  assert (∀ t r a, a ∈ [Eventf t r] → isUpdate a = false) as Hevent.
  { intros t r a Hin. apply list_elem_of_singleton in Hin. by subst a. }
  unfold reconcileDrain, listed_pods.
  destruct (client_List env) as [e|items]; [by eapply Hempty, Hevent|].
  destruct (topo_GetShard env) as [e|shard]; [by eapply Hempty, Hevent|].
  destruct (topo_GetTabletMapForShardByCell env) as [e|tablets];
    [by eapply Hempty, Hevent|].
  unfold bind at 1, set_pods at 1. cbn [initial w_trace w_builder].
  apply inv_reconcileAfterReads.
  - by intros w b.
  - intros t r. by apply only_markers_changed_emit.
  - intros k query. by apply only_markers_changed_emit.
  - apply only_markers_changed_updateDrainStatus.
  - intros a Ha. apply only_markers_changed_emit. by destruct a.
  - split; cbn.
    + intros k pod Hk. exists pod. split; [done|apply same_identity_refl].
    + intros k pod Hin. by apply elem_of_nil in Hin.
Qed.

End OnlyMarkers.


(** ** The handover *)

Lemma wp_of_preserves {A} (I : World → Prop) (m : M A) w :
  preserves I m → I w → wp m (λ _, I) I w.
Proof.
  intros Hm Hw. specialize (Hm w Hw). unfold wp.
  by destruct (m w) as [[a|msg] w'].
Qed.

Lemma wp_and {A} (m : M A) Q1 Q2 E1 E2 w :
  wp m Q1 E1 w → wp m Q2 E2 w →
  wp m (λ a w', Q1 a w' ∧ Q2 a w') (λ w', E1 w' ∧ E2 w') w.
Proof. unfold wp. by destruct (m w) as [[a|msg] w']. Qed.

Lemma wp_emit a Q E w :
  Q tt {| w_pods := w_pods w; w_trace := w_trace w ++ [a];
          w_builder := w_builder w |} →
  wp (emit a) Q E w.
Proof. done. Qed.

Lemma wp_bind_any {A B} (m : M A) (k : A → M B) Q w :
  (∀ a w', wp (k a) Q (λ _, True) w') → wp (bind m k) Q (λ _, True) w.
Proof.
  intros Hk. unfold wp, bind. destruct (m w) as [[a|msg] w']; [|done].
  apply Hk.
Qed.

Lemma reparentWrites_snoc tr a :
  reparentWrites (tr ++ [a])
  = reparentWrites tr ++ (if isReparentWrite a then [a] else []).
Proof.
  unfold reparentWrites. rewrite List.filter_app. cbn.
  by destruct (isReparentWrite a).
Qed.

Lemma quiet_emit a :
  isReparentWrite a = false → preserves quiet (emit a).
Proof.
  intros Ha w Hw. unfold quiet in *. cbn.
  by rewrite reparentWrites_snoc, Hw, Ha.
Qed.

Lemma quiet_updateDrainStatus env k s :
  preserves quiet (updateDrainStatus env k s).
Proof.
  intros w Hw.
  destruct (decide (s = DrainingState ∨ w_pods w !! k = None)) as [Hp|Hn].
  { by destruct (updateDrainStatus_panic env k s w Hp) as [msg ->]. }
  destruct (w_pods w !! k) as [pod|] eqn:Hk; [|destruct Hn; by right].
  assert (s ≠ DrainingState) as Hs by (intros ->; destruct Hn; by left).
  destruct (updateDrainStatus_run env k s w pod Hk Hs)
    as (pod' & _ & _ & _ & _ & [[_ ->]|[_ ->]]); [done|].
  unfold quiet in *. cbn. by rewrite reparentWrites_snoc, Hw.
Qed.

Lemma quiet_builder : ignores_builder quiet.
Proof. by intros w b. Qed.

(** The loop over the transitions returns [acknowledgedDrain] unset only
    when no visited transition is to the acknowledged state. *)
Lemma applyTransitions_value env P transitions order : ∀ ack w,
  wp (applyTransitions env P transitions order ack)
     (λ a _, a = false →
             ack = false
             ∧ ∀ k, k ∈ order → transitions !! k ≠ Some AcknowledgedState)
     (λ _, True) w.
Proof.
  induction order as [|k rest IH]; intros ack w; cbn [applyTransitions].
  { apply wp_ret. intros ->. split; [done|]. intros k Hin.
    by apply elem_of_nil in Hin. }
  destruct (transitions !! k) as [state|] eqn:Hk.
  2: { eapply wp_mono; [apply IH| |done]. intros a w' Ha Hf.
       destruct (Ha Hf) as [Hack Hrest]. split; [done|].
       intros k' Hin. apply elem_of_cons in Hin as [->|Hin];
         [by rewrite Hk|by apply Hrest]. }
  destruct (bool_decide (state = FinishedState) && bool_decide (k = P))
    eqn:Hskip.
  { apply andb_prop in Hskip as [Hs%bool_decide_eq_true_1 _]. subst state.
    eapply wp_mono; [apply IH| |done]. intros a w' Ha Hf.
    destruct (Ha Hf) as [Hack Hrest]. split; [done|].
    intros k' Hin. apply elem_of_cons in Hin as [->|Hin];
      [by rewrite Hk|by apply Hrest]. }
  apply wp_bind_any. intros e w1. apply wp_bind_any. intros _ w2.
  eapply wp_mono; [apply IH| |done]. intros a w' Ha Hf.
  destruct (Ha Hf) as [Hack Hrest].
  case_bool_decide as Hstate; [done|]. split; [done|].
  intros k' Hin. apply elem_of_cons in Hin as [->|Hin];
    [rewrite Hk; congruence|by apply Hrest].
Qed.

Section Handover.

Variable TabletTypeLabel : string.
Variable ExternalMasterTabletPoolName : string.
Variable MysqldContainerName : string.
Variable replicationRequeueDelay : Duration.
Variable AliasFromPod : Pod -> TabletAlias.
Variable GetState : Pod -> State * option Error.
Variable StateTransitions : gmap string State -> gmap string State.
Context {G : Type} `{GTIDSet G}.

(** Phases 3 to 5 from a state without a handover: either they make no
    handover write, or they hand over once, to an eligible tablet, and the
    primary was finished or is proposed to be. *)
Lemma transitionAndReparent_handover env vts shard tablets drains w :
  quiet w →
  wp (transitionAndReparent TabletTypeLabel ExternalMasterTabletPoolName
        MysqldContainerName replicationRequeueDelay StateTransitions
        env vts shard tablets drains)
     (λ _ w',
        quiet w'
        ∨ ∃ k t,
            tablets !! k = Some t
            ∧ eligible TabletTypeLabel ExternalMasterTabletPoolName shard
                (w_pods w') (vts_UsingExternalDatastore vts) k t
            ∧ reparentWrites (w_trace w')
              = handover_writes env (vts_UsingExternalDatastore vts)
                  (PrimaryAlias shard) (Alias t)
            ∧ (stateAt drains (TabletAliasString (PrimaryAlias shard))
               = FinishedState
               ∨ (stateAt (StateTransitions drains)
                    (TabletAliasString (PrimaryAlias shard)) = FinishedState
                  ∧ ∀ k, k ∈ range_transitions env →
                         StateTransitions drains !! k
                         ≠ Some AcknowledgedState)))
     quiet w.
Proof.
  intros Hw. unfold transitionAndReparent.
  set (P := TabletAliasString (PrimaryAlias shard)).
  set (transitions := StateTransitions drains).
  apply wp_bind.
  eapply wp_mono;
    [apply wp_and;
       [apply (wp_of_preserves quiet), Hw;
        apply inv_applyTransitions;
          [apply quiet_builder
          |intros; by apply quiet_emit
          |apply quiet_updateDrainStatus]
       |apply applyTransitions_value]
    | |by intros w' [? _]].
  intros ack w1 [Hw1 Hack]. cbn beta in Hw1.
  apply wp_bind.
  eapply wp_mono;
    [apply (wp_of_preserves quiet), Hw1;
     apply inv_disableFastShutdown;
       [intros; by apply quiet_emit|intros; by apply quiet_emit]
    | |done].
  intros e w2 Hw2. cbn beta in Hw2.
  destruct e as [e|].
  { apply wp_bind, wp_Eventf, wp_Error. intros _ b. left.
    unfold quiet in *. cbn. by rewrite reparentWrites_snoc, Hw2. }
  destruct (ack && bool_decide (stateAt drains P ≠ FinishedState)) eqn:Hc1.
  { apply wp_bind, wp_Eventf, wp_Result. intros _. left.
    unfold quiet in *. cbn. by rewrite reparentWrites_snoc, Hw2. }
  destruct (bool_decide (stateAt drains P ≠ FinishedState)
            && bool_decide (stateAt transitions P ≠ FinishedState)) eqn:Hc2.
  { apply wp_bind, wp_Eventf, wp_Result. intros _. left.
    unfold quiet in *. cbn. by rewrite reparentWrites_snoc, Hw2. }
  assert (stateAt drains P = FinishedState
          ∨ (stateAt transitions P = FinishedState
             ∧ ∀ k, k ∈ range_transitions env →
                    transitions !! k ≠ Some AcknowledgedState)) as Hcond.
  { destruct (decide (stateAt drains P = FinishedState)) as [?|Hd];
      [by left|right].
    rewrite (bool_decide_eq_true_2 (stateAt drains P ≠ FinishedState))
      in Hc1, Hc2 by done.
    rewrite andb_true_r in Hc1. cbn [andb] in Hc2.
    apply bool_decide_ne_false in Hc2. split; [done|].
    by destruct (Hack Hc1). }
  apply wp_bind, wp_get_pods.
  destruct (candidatePrimary _ _ env shard tablets (w_pods w2) _)
    as [newPrimary|] eqn:Hcand.
  2: { apply wp_bind, wp_Eventf, wp_RequeueAfter. intros _ b. left.
       unfold quiet in *. cbn. by rewrite reparentWrites_snoc, Hw2. }
  apply candidatePrimary_candidate in Hcand.
  apply candidates_range_elem in Hcand as (k & _ & Hk & Hel).
  apply isCandidate_eligible in Hel.
  assert (∀ w3 (reparentErr : option Error),
    w_pods w3 = w_pods w2 →
    reparentWrites (w_trace w3) ++
      [plannedReparentCount_Inc (bool_decide (reparentErr = None))]
    = handover_writes env (vts_UsingExternalDatastore vts)
        (PrimaryAlias shard) (Alias newPrimary) →
    wp ((match reparentErr with
         | Some _ => recorder_Eventf EventTypeWarning "PlannedReparentFailed"
         | None => recorder_Eventf EventTypeNormal "PlannedReparent"
         end) ;;
        emit (plannedReparentCount_Inc (bool_decide (reparentErr = None))) ;;
        resultBuilder_Result)
       (λ _ w',
          quiet w'
          ∨ ∃ k t,
              tablets !! k = Some t
              ∧ eligible TabletTypeLabel ExternalMasterTabletPoolName shard
                  (w_pods w') (vts_UsingExternalDatastore vts) k t
              ∧ reparentWrites (w_trace w')
                = handover_writes env (vts_UsingExternalDatastore vts)
                    (PrimaryAlias shard) (Alias t)
              ∧ (stateAt drains P = FinishedState
                 ∨ (stateAt transitions P = FinishedState
                    ∧ ∀ k, k ∈ range_transitions env →
                           transitions !! k ≠ Some AcknowledgedState)))
       quiet w3) as Hend.
  { intros w3 reparentErr Hp3 Htr3. apply wp_bind.
    assert (∀ t r,
      reparentWrites ((w_trace w3 ++ [Eventf t r]) ++
        [plannedReparentCount_Inc (bool_decide (reparentErr = None))])
      = handover_writes env (vts_UsingExternalDatastore vts)
          (PrimaryAlias shard) (Alias newPrimary)) as Htr.
    { intros t r. by rewrite !reparentWrites_snoc, app_nil_r. }
    destruct reparentErr;
      (apply wp_Eventf, wp_bind, wp_emit, wp_Result; intros _; right;
       exists k, newPrimary; cbn [w_pods w_trace];
       rewrite Hp3; split_and!; [done|done|apply Htr|done]). }
  apply wp_bind.
  destruct (vts_UsingExternalDatastore vts).
  - unfold handleExternalReparent. apply wp_bind, wp_emit.
    destruct (wr_TabletExternallyReparented env (Alias newPrimary))
      as [e|] eqn:Hter.
    + apply wp_ret. apply (Hend _ (Some e)); [done|]. cbn [w_trace].
      rewrite reparentWrites_snoc, Hw2. unfold handover_writes.
      rewrite Hter. reflexivity.
    + apply wp_bind, wp_emit, wp_ret.
      apply (Hend _ (wr_ChangeTabletType env (PrimaryAlias shard)
                       TabletType_SPARE)); [done|].
      cbn [w_trace].
      rewrite !reparentWrites_snoc, Hw2. unfold handover_writes.
      rewrite Hter. reflexivity.
  - apply wp_bind, wp_emit, wp_ret.
    apply (Hend _ (wr_PlannedReparentShard env (Alias newPrimary))); [done|].
    cbn [w_trace]. by rewrite reparentWrites_snoc, Hw2.
Qed.

End Handover.


(** ** The drain states that a pass loads *)

Section Drains.

Variable GetState : Pod -> State * option Error.

Lemma drains_loaded_cons pods k order drains :
  drains_loaded GetState pods (k :: order) drains
  = drains_loaded GetState pods order
      match pods !! k with
      | Some pod =>
          if Started pod then <[k := (GetState pod).1]> drains else drains
      | None => drains
      end.
Proof. done. Qed.

(** Clearing the markers of a pod without a drain request does not change
    what is loaded. *)
Lemma drains_loaded_insert pods k pod order : ∀ drains,
  pods !! k = Some pod → Started pod = false →
  drains_loaded GetState (<[k := cleared pod]> pods) order drains
  = drains_loaded GetState pods order drains.
Proof.
  intros drains Hk Hs. revert drains.
  induction order as [|k' rest IH]; intros drains; [done|].
  rewrite !drains_loaded_cons, IH. f_equal.
  destruct (decide (k = k')) as [<-|Hne].
  - rewrite lookup_insert_eq, Hk. change (Started (cleared pod)) with (Started pod).
    by rewrite Hs.
  - by rewrite lookup_insert_ne.
Qed.

Lemma drains_loaded_lookup pods order : ∀ drains k,
  drains_loaded GetState pods order drains !! k
  = match pods !! k with
    | Some pod =>
        if Started pod && bool_decide (k ∈ order)
        then Some (GetState pod).1 else drains !! k
    | None => drains !! k
    end.
Proof.
  induction order as [|k' rest IH]; intros drains k.
  { cbn. destruct (pods !! k) as [pod|]; [|done].
    rewrite (bool_decide_eq_false_2 (k ∈ [])) by apply not_elem_of_nil.
    by rewrite andb_false_r. }
  rewrite drains_loaded_cons, IH.
  destruct (pods !! k) as [pod|] eqn:Hk.
  - destruct (Started pod) eqn:Hs; cbn [andb].
    + destruct (decide (k ∈ rest)) as [Hin|Hnin].
      * rewrite !bool_decide_eq_true_2; [done|by right|done].
      * rewrite (bool_decide_eq_false_2 (k ∈ rest)) by done.
        destruct (decide (k = k')) as [<-|Hne].
        -- rewrite Hk, Hs, lookup_insert_eq.
           rewrite bool_decide_eq_true_2; [done|left].
        -- rewrite (bool_decide_eq_false_2 (k ∈ k' :: rest)).
           2: { intros [?|?]%elem_of_cons; done. }
           destruct (pods !! k') as [pod'|]; [|done].
           destruct (Started pod'); [|done].
           by rewrite lookup_insert_ne.
    + destruct (decide (k = k')) as [<-|Hne]; [by rewrite Hk, Hs|].
      destruct (pods !! k') as [pod'|]; [|done].
      destruct (Started pod'); [|done].
      by rewrite lookup_insert_ne.
  - destruct (decide (k = k')) as [<-|Hne]; [by rewrite Hk|].
    destruct (pods !! k') as [pod'|]; [|done].
    destruct (Started pod'); [|done].
    by rewrite lookup_insert_ne.
Qed.

(** A loop that visits every pod loads the state of every pod that carries
    a drain request, whatever its order. *)
Lemma drains_loaded_all pods order :
  visits_all order pods →
  drains_loaded GetState pods order ∅ = drainStates GetState pods.
Proof.
  intros Hall. apply map_eq. intros k.
  rewrite drains_loaded_lookup. unfold drainStates.
  rewrite lookup_fmap, lookup_empty.
  destruct (pods !! k) as [pod|] eqn:Hk.
  - rewrite bool_decide_eq_true_2 by (by eapply visits_all_elem).
    rewrite andb_true_r. destruct (Started pod) eqn:Hs.
    + by rewrite (map_lookup_filter_Some_2 _ _ k pod).
    + rewrite (map_lookup_filter_None_2 _ _ k); [done|].
      right. intros pod' Hk'. cbn. congruence.
  - rewrite (map_lookup_filter_None_2 _ _ k); [done|by left].
Qed.

Lemma drains_loaded_none pods order drains :
  (∀ k pod, pods !! k = Some pod → Started pod = false) →
  drains_loaded GetState pods order drains = drains.
Proof.
  intros Hno. apply map_eq. intros k. rewrite drains_loaded_lookup.
  destruct (pods !! k) as [pod|] eqn:Hk; [|done].
  by rewrite (Hno k pod Hk).
Qed.

(** The loop over the pods returns, only clears, and loads the state of
    the visited pods that carry a drain request. *)
Lemma loadDrainState_run pods0 env order : ∀ drains abortingDrain w,
  frozen pods0 w →
  wp (loadDrainState GetState env order drains abortingDrain)
     (λ r w', frozen pods0 w'
              ∧ r.1 = drains_loaded GetState (w_pods w) order drains)
     (λ _, False) w.
Proof.
  induction order as [|k1 rest IH]; intros drains ab w Hw;
    cbn [loadDrainState].
  { by apply wp_ret. }
  rewrite drains_loaded_cons.
  assert (∀ drains ab w' pods',
            frozen pods0 w' → w_pods w' = pods' →
            wp (loadDrainState GetState env rest drains ab)
               (λ r w'', frozen pods0 w''
                         ∧ r.1 = drains_loaded GetState pods' rest drains)
               (λ _, False) w') as IH'.
  { intros ? ? ? ? ? <-. by apply IH. }
  apply wp_bind, wp_get_pods.
  destruct (w_pods w !! k1) as [pod1|] eqn:Hk1; [|by apply IH'].
  destruct (Started pod1) eqn:Hs1.
  - destruct (GetState pod1) as [state e]. cbn [fst].
    apply wp_bind. destruct e.
    + apply wp_Eventf, IH'; [|done].
      by apply frozen_emit_event, frozen_eta.
    + by apply wp_ret, IH'.
  - apply wp_bind.
    assert (∀ ab' w1, frozen pods0 w1 → w_pods w1 = w_pods w →
              wp (e <- updateDrainStatus env k1 NotDrainingState ;;
                  (match e with
                   | Some e => recorder_Eventf EventTypeWarning "UpdateFailed" ;;
                               resultBuilder_Error e ;; ret tt
                   | None => ret tt
                   end) ;;
                  loadDrainState GetState env rest drains ab')
                 (λ r w', frozen pods0 w'
                          ∧ r.1 = drains_loaded GetState (w_pods w) rest drains)
                 (λ _, False) w1)
      as Hrest.
    { intros ab' w1 Hw1 Hp1. apply wp_bind.
      destruct (updateDrainStatus_NotDraining env k1 w1 pod1) as [r Hr];
        [by rewrite Hp1|].
      unfold wp at 1. rewrite Hr.
      assert (w_pods w1 !! k1 = Some pod1) as Hk1' by (by rewrite Hp1).
      pose proof (frozen_clear pods0 w1 k1 pod1 Hw1 Hk1' Hs1) as Hfc.
      rewrite <- (drains_loaded_insert (w_pods w) k1 pod1 rest drains Hk1 Hs1).
      rewrite <- Hp1.
      apply wp_bind. destruct r as [e|].
      - apply wp_bind, wp_Eventf, wp_bind, wp_Error. intros _ b.
        apply wp_ret, IH'; [|done].
        cbn [w_pods w_trace w_builder].
        by eapply frozen_builder, frozen_emit_event.
      - by apply wp_ret, IH'. }
    destruct (Acknowledged pod1 || Finished pod1).
    + apply wp_bind, wp_Eventf, wp_ret, Hrest; [|done].
      by apply frozen_emit_event, frozen_eta.
    + by apply wp_ret, Hrest.
Qed.

End Drains.

Lemma frozen_quiet pods0 w : frozen pods0 w → quiet w.
Proof.
  intros [_ Ht]. unfold quiet, reparentWrites.
  induction Ht as [|a tr Ha _ IH]; [done|]. cbn.
  by destruct a.
Qed.


(** ** What a pass hands over *)

Section PassHandover.

Variable TabletTypeLabel : string.
Variable ExternalMasterTabletPoolName : string.
Variable MysqldContainerName : string.
Variable replicationRequeueDelay : Duration.
Variable AliasFromPod : Pod -> TabletAlias.
Variable GetState : Pod -> State * option Error.
Variable StateTransitions : gmap string State -> gmap string State.
Context {G : Type} `{GTIDSet G}.

(** A pass makes no handover write, or it hands over once: the reads have
    succeeded, the shard is healthy and has a primary, the new primary is
    an eligible tablet, and the primary was finished or is proposed to
    be. *)
Lemma reconcileDrain_handover env vts :
  let w' :=
    (reconcileDrain TabletTypeLabel ExternalMasterTabletPoolName
       MysqldContainerName replicationRequeueDelay AliasFromPod GetState
       StateTransitions env vts initial).2 in
  quiet w'
  ∨ ∃ shard tablets k t,
      topo_GetShard env = inr shard
      ∧ topo_GetTabletMapForShardByCell env = inr tablets
      ∧ isShardHealthy (range_status env) vts = None
      ∧ HasPrimary shard = true
      ∧ tablets !! k = Some t
      ∧ eligible TabletTypeLabel ExternalMasterTabletPoolName shard
          (w_pods w') (vts_UsingExternalDatastore vts) k t
      ∧ reparentWrites (w_trace w')
        = handover_writes env (vts_UsingExternalDatastore vts)
            (PrimaryAlias shard) (Alias t)
      ∧ let drains :=
          drains_loaded GetState (listed_pods AliasFromPod env)
            (range_pods env) ∅ in
        stateAt drains (TabletAliasString (PrimaryAlias shard))
        = FinishedState
        ∨ (stateAt (StateTransitions drains)
             (TabletAliasString (PrimaryAlias shard)) = FinishedState
           ∧ ∀ k, k ∈ range_transitions env →
                  StateTransitions drains !! k ≠ Some AcknowledgedState).
Proof.
  cbn zeta. apply wp_snd. unfold reconcileDrain, listed_pods.
  destruct (client_List env) as [e|items].
  { apply wp_bind, wp_Eventf, wp_Error. intros _ b. by left. }
  destruct (topo_GetShard env) as [e|shard].
  { apply wp_bind, wp_Eventf, wp_RequeueAfter. intros _ b. by left. }
  destruct (topo_GetTabletMapForShardByCell env) as [e|tablets].
  { apply wp_bind, wp_Eventf, wp_RequeueAfter. intros _ b. by left. }
  apply wp_bind, wp_set_pods. cbn [w_trace w_builder initial].
  set (pods0 := buildPods AliasFromPod items).
  assert (frozen pods0 {| w_pods := pods0; w_trace := [];
                          w_builder := results.empty |}) as Hstart.
  { split; [|by apply Forall_nil]. intros k' pod' Hl. exists pod'.
    split; [done|by left]. }
  unfold reconcileAfterReads.
  destruct (isShardHealthy _ _) eqn:Hhealthy.
  { apply wp_bind, wp_Eventf, wp_Result. intros _. by left. }
  unfold reconcileHealthy. destruct (HasPrimary shard) eqn:Hprimary; cbn [negb].
  2: { apply wp_bind, wp_Eventf, wp_Result. intros _. by left. }
  apply wp_bind.
  eapply wp_mono;
    [apply (loadDrainState_run GetState pods0 env (range_pods env) ∅ false
              _ Hstart)
    | |done].
  intros [drains ab] w1 [Hw1 Hdrains]. cbn [fst w_pods] in Hdrains.
  apply frozen_quiet in Hw1. subst drains.
  destruct (bool_decide _).
  { apply wp_Result. intros _. by left. }
  destruct ab.
  { apply wp_bind, wp_Eventf, wp_Result. intros _. left.
    unfold quiet in *. cbn. by rewrite reparentWrites_snoc, Hw1. }
  eapply wp_mono;
    [by apply transitionAndReparent_handover| |by left].
  intros r w2 [Hq|(k & t & Ht & Hel & Htr & Hcond)]; [by left|right].
  exists shard, tablets, k, t. by split_and!.
Qed.

(** A pass hands a shard over at most once, through the call that the
    kind of datastore asks for: it makes no reparent call and does not
    count a reparent, or it makes one call of [PlannedReparentShard], or,
    on an external datastore, one call of [TabletExternallyReparented],
    followed when it succeeds by the change of the old primary to SPARE;
    and then it counts one reparent, as succeeded exactly when the last call
    succeeded. *)
Theorem pass_hands_over_at_most_once env vts :
  let w' :=
    (reconcileDrain TabletTypeLabel ExternalMasterTabletPoolName
       MysqldContainerName replicationRequeueDelay AliasFromPod GetState
       StateTransitions env vts initial).2 in
  reparentWrites (w_trace w') = []
  ∨ ∃ shard newPrimary,
      topo_GetShard env = inr shard
      ∧ reparentWrites (w_trace w')
        = handover_writes env (vts_UsingExternalDatastore vts)
            (PrimaryAlias shard) newPrimary.
Proof.
  destruct (reconcileDrain_handover env vts)
    as [Hq|(shard & tablets & k & t & ? & _ & _ & _ & _ & _ & ? & _)];
    [by left|right].
  by exists shard, (Alias t).
Qed.

Lemma reparentWrites_elem a tr :
  a ∈ tr → isReparentWrite a = true → a ∈ reparentWrites tr.
Proof.
  intros Hin Ha. apply list_elem_of_In, List.filter_In.
  split; [by apply list_elem_of_In|done].
Qed.

(** The tablet named by a reparent call of a pass is a tablet of the
    shard that is eligible with the pods as the pass leaves them: it is not
    the current primary, and its pod is ready, carries no marker of a drain
    and has the required role. *)
Theorem handover_target_is_eligible env vts a newPrimary :
  let w' :=
    (reconcileDrain TabletTypeLabel ExternalMasterTabletPoolName
       MysqldContainerName replicationRequeueDelay AliasFromPod GetState
       StateTransitions env vts initial).2 in
  a ∈ w_trace w' → handover_target a = Some newPrimary →
  ∃ shard tablets k t,
    topo_GetShard env = inr shard
    ∧ topo_GetTabletMapForShardByCell env = inr tablets
    ∧ tablets !! k = Some t ∧ Alias t = newPrimary
    ∧ eligible TabletTypeLabel ExternalMasterTabletPoolName shard
        (w_pods w') (vts_UsingExternalDatastore vts) k t.
Proof.
  intros w' Hin Ha.
  assert (a ∈ reparentWrites (w_trace w')) as Hin'.
  { apply reparentWrites_elem; [done|]. by destruct a. }
  destruct (reconcileDrain_handover env vts)
    as [Hq|(shard & tablets & k & t & ? & ? & _ & _ & ? & ? & Htr & _)].
  { unfold quiet in Hq. fold w' in Hq. rewrite Hq in Hin'.
    by apply elem_of_nil in Hin'. }
  exists shard, tablets, k, t. split_and!; [done..| |done].
  fold w' in Htr. rewrite Htr in Hin'. unfold handover_writes in Hin'.
  destruct (vts_UsingExternalDatastore vts);
    [destruct (wr_TabletExternallyReparented env (Alias t))|];
    repeat (apply elem_of_cons in Hin' as [->|Hin']);
    try (by apply elem_of_nil in Hin'); cbn in Ha; congruence.
Qed.

(** A pass whose loops visit every pod and every transition hands the
    shard over only when the shard is healthy and has a primary, and the
    pod of the primary was listed in the finished state, or the state
    machine proposes the finished state for it and the acknowledged state
    for no tablet. *)
Theorem handover_requires_finished_primary env vts shard :
  let w' :=
    (reconcileDrain TabletTypeLabel ExternalMasterTabletPoolName
       MysqldContainerName replicationRequeueDelay AliasFromPod GetState
       StateTransitions env vts initial).2 in
  let drains := drainStates GetState (listed_pods AliasFromPod env) in
  let primaryAliasStr := TabletAliasString (PrimaryAlias shard) in
  topo_GetShard env = inr shard →
  visits_all (range_pods env) (listed_pods AliasFromPod env) →
  visits_all (range_transitions env) (StateTransitions drains) →
  reparentWrites (w_trace w') ≠ [] →
  isShardHealthy (range_status env) vts = None
  ∧ HasPrimary shard = true
  ∧ (stateAt drains primaryAliasStr = FinishedState
     ∨ (stateAt (StateTransitions drains) primaryAliasStr = FinishedState
        ∧ ∀ k, StateTransitions drains !! k ≠ Some AcknowledgedState)).
Proof.
  intros w' drains P Hshard Hpods Htrans Hwrites.
  destruct (reconcileDrain_handover env vts)
    as [Hq|(shard' & tablets & k & t & Hshard' & _ & ? & ? & _ & _ & _
            & Hcond)]; [done|].
  rewrite Hshard in Hshard'. injection Hshard' as <-.
  cbn zeta in Hcond. rewrite (drains_loaded_all _ _ _ Hpods) in Hcond.
  fold drains P in Hcond. split_and!; [done..|].
  destruct Hcond as [?|[? Hack]]; [by left|right]. split; [done|].
  intros k' Hk'. eapply Hack; [|done].
  eapply visits_all_elem; [exact Htrans|done].
Qed.

(** When no listed pod carries a drain request, the pass applies no
    transition and hands nothing over: its only writes are events and the
    updates that clear the markers of a pod, and every pod is left as listed
    or with its markers cleared. *)
Theorem no_drain_request_pass_only_clears env vts :
  (∀ k pod, listed_pods AliasFromPod env !! k = Some pod →
            Started pod = false) →
  frozen (listed_pods AliasFromPod env)
    (reconcileDrain TabletTypeLabel ExternalMasterTabletPoolName
       MysqldContainerName replicationRequeueDelay AliasFromPod GetState
       StateTransitions env vts initial).2.
Proof.
  intros Hno. apply wp_snd. revert Hno. unfold reconcileDrain, listed_pods.
  assert (∀ pods0 b,
            frozen pods0 {| w_pods := ∅; w_trace := []; w_builder := b |})
    as Hinit.
  { split; [|by apply Forall_nil]. intros k' pod' Hl. cbn in Hl.
    by rewrite lookup_empty in Hl. }
  destruct (client_List env) as [e|items]; intros Hno.
  { apply wp_bind, wp_Eventf, wp_Error. intros _ b.
    cbn [initial w_pods w_trace w_builder]. apply frozen_emit_event, Hinit. }
  destruct (topo_GetShard env) as [e|shard].
  { apply wp_bind, wp_Eventf, wp_RequeueAfter. intros _ b.
    cbn [initial w_pods w_trace w_builder]. apply frozen_emit_event, Hinit. }
  destruct (topo_GetTabletMapForShardByCell env) as [e|tablets].
  { apply wp_bind, wp_Eventf, wp_RequeueAfter. intros _ b.
    cbn [initial w_pods w_trace w_builder]. apply frozen_emit_event, Hinit. }
  apply wp_bind, wp_set_pods. cbn [w_trace w_builder initial].
  set (pods0 := buildPods AliasFromPod items) in *.
  assert (frozen pods0 {| w_pods := pods0; w_trace := [];
                          w_builder := results.empty |}) as Hstart.
  { split; [|by apply Forall_nil]. intros k' pod' Hl. exists pod'.
    split; [done|by left]. }
  unfold reconcileAfterReads.
  destruct (isShardHealthy _ _).
  { apply wp_bind, wp_Eventf, wp_Result. intros _.
    by apply frozen_emit_event. }
  unfold reconcileHealthy. destruct (negb (HasPrimary shard)).
  { apply wp_bind, wp_Eventf, wp_Result. intros _.
    by apply frozen_emit_event. }
  apply wp_bind.
  eapply wp_mono;
    [apply (loadDrainState_run GetState pods0 env (range_pods env) ∅ false
              _ Hstart)
    | |done].
  intros [drains ab] w1 [Hw1 Hdrains]. cbn [fst w_pods] in Hdrains.
  rewrite drains_loaded_none in Hdrains by done. subst drains.
  rewrite bool_decide_eq_true_2 by apply map_size_empty.
  apply wp_Result. by intros _.
Qed.

(** When the reads succeed but the shard is unhealthy or has no primary,
    the pass returns after one warning event: it sends no update, no
    command and no reparent call, and leaves the pods as listed. *)
Theorem unhealthy_pass_does_nothing env vts items shard tablets :
  client_List env = inr items →
  topo_GetShard env = inr shard →
  topo_GetTabletMapForShardByCell env = inr tablets →
  isShardHealthy (range_status env) vts ≠ None ∨ HasPrimary shard = false →
  ∃ r b,
    reconcileDrain TabletTypeLabel ExternalMasterTabletPoolName
      MysqldContainerName replicationRequeueDelay AliasFromPod GetState
      StateTransitions env vts initial
    = (Done r,
       {| w_pods := buildPods AliasFromPod items;
          w_trace := [Eventf EventTypeWarning "NotReconcilingDrain"];
          w_builder := b |}).
Proof.
  intros Hlist Hshard Htablets Hcond.
  unfold reconcileDrain. rewrite Hlist, Hshard, Htablets.
  unfold reconcileAfterReads, reconcileHealthy.
  destruct (isShardHealthy _ _) as [e|]; [by eexists _, _|].
  destruct Hcond as [?| ->]; [done|]. by eexists _, _.
Qed.

End PassHandover.


(** ** When a pass panics *)

Lemma wp_panic {A} (m : M A) (E : Prop) w msg :
  wp m (λ _ _, True) (λ _, E) w → (m w).1 = Panic msg → E.
Proof. unfold wp. destruct (m w) as [[a|msg'] w']; [done|by intros]. Qed.

Lemma covers_emit pods0 a : preserves (covers pods0) (emit a).
Proof. by intros w Hw. Qed.

Lemma covers_builder pods0 : ignores_builder (covers pods0).
Proof. by intros w b. Qed.

Lemma covers_updateDrainStatus pods0 env k s :
  preserves (covers pods0) (updateDrainStatus env k s).
Proof.
  intros w Hw.
  destruct (decide (s = DrainingState ∨ w_pods w !! k = None)) as [Hp|Hn].
  { by destruct (updateDrainStatus_panic env k s w Hp) as [msg ->]. }
  destruct (w_pods w !! k) as [pod|] eqn:Hk; [|destruct Hn; by right].
  assert (s ≠ DrainingState) as Hs by (intros ->; destruct Hn; by left).
  destruct (updateDrainStatus_run env k s w pod Hk Hs)
    as (pod' & _ & _ & _ & _ & [[_ ->]|[_ ->]]); [done|].
  intros k' Hk'. cbn in Hk'. apply Hw.
  destruct (decide (k = k')) as [<-|Hne].
  - by rewrite lookup_insert_eq in Hk'.
  - by rewrite lookup_insert_ne in Hk'.
Qed.

(** The loop over the transitions panics only at a transition that it
    does not skip and that proposes the draining state or names a tablet
    without a pod. *)
Lemma applyTransitions_panics pods0 env P transitions order : ∀ ack w,
  covers pods0 w →
  wp (applyTransitions env P transitions order ack)
     (λ _ w', covers pods0 w')
     (λ _, ∃ k s, k ∈ order ∧ transitions !! k = Some s
                  ∧ ¬ (s = FinishedState ∧ k = P)
                  ∧ (s = DrainingState ∨ pods0 !! k = None)) w.
Proof.
  induction order as [|k rest IH]; intros ack w Hw; cbn [applyTransitions].
  { by apply wp_ret. }
  assert (∀ ack' w',
    covers pods0 w' →
    wp (applyTransitions env P transitions rest ack')
       (λ _ w'', covers pods0 w'')
       (λ _, ∃ k0 s, k0 ∈ k :: rest ∧ transitions !! k0 = Some s
                     ∧ ¬ (s = FinishedState ∧ k0 = P)
                     ∧ (s = DrainingState ∨ pods0 !! k0 = None)) w')
    as IH'.
  { intros ack' w' Hw'. eapply wp_mono; [by apply IH|done|].
    intros _ (k0 & s & Hin & ?). exists k0, s. split; [by right|done]. }
  destruct (transitions !! k) as [state|] eqn:Hk; [|by apply IH'].
  destruct (bool_decide (state = FinishedState) && bool_decide (k = P))
    eqn:Hskip; [by apply IH'|].
  assert (¬ (state = FinishedState ∧ k = P)) as Hnskip.
  { intros [-> ->]. by rewrite !bool_decide_eq_true_2 in Hskip. }
  apply wp_bind.
  destruct (decide (state = DrainingState ∨ w_pods w !! k = None)) as [Hp|Hn].
  { destruct (updateDrainStatus_panic env k state w Hp) as [msg Hrun].
    unfold wp at 1. rewrite Hrun. exists k, state.
    split_and!; [left|done|done|]. destruct Hp as [?|?]; [by left|right].
    by apply Hw. }
  pose proof (covers_updateDrainStatus pods0 env k state w Hw) as Hw1.
  destruct (w_pods w !! k) as [pod|] eqn:Hpod; [|destruct Hn; by right].
  assert (state ≠ DrainingState) as Hs by (intros ->; destruct Hn; by left).
  destruct (updateDrainStatus_run env k state w pod Hpod Hs)
    as (pod' & _ & _ & _ & _ & [[_ Hrun]|[_ Hrun]]);
    unfold wp at 1; rewrite Hrun in *; cbn [snd] in Hw1; apply wp_bind.
  - by apply wp_ret, IH'.
  - destruct (client_Update env _ pod') as [e|].
    + apply wp_bind, wp_Eventf, wp_bind, wp_Error. intros _ b.
      by apply wp_ret, IH'.
    + by apply wp_ret, IH'.
Qed.

Section PassPanics.

Variable TabletTypeLabel : string.
Variable ExternalMasterTabletPoolName : string.
Variable MysqldContainerName : string.
Variable replicationRequeueDelay : Duration.
Variable AliasFromPod : Pod -> TabletAlias.
Variable GetState : Pod -> State * option Error.
Variable StateTransitions : gmap string State -> gmap string State.
Context {G : Type} `{GTIDSet G}.

(** A pass whose first loop visits every pod panics only when the state
    machine proposes, for a tablet that the loop over the transitions does
    not skip, the draining state, or a state for a tablet without a listed
    pod. *)
Theorem pass_panics_only_on_bad_transition env vts msg :
  let drains := drainStates GetState (listed_pods AliasFromPod env) in
  visits_all (range_pods env) (listed_pods AliasFromPod env) →
  (reconcileDrain TabletTypeLabel ExternalMasterTabletPoolName
     MysqldContainerName replicationRequeueDelay AliasFromPod GetState
     StateTransitions env vts initial).1 = Panic msg →
  ∃ shard k s,
    topo_GetShard env = inr shard
    ∧ k ∈ range_transitions env
    ∧ StateTransitions drains !! k = Some s
    ∧ ¬ (s = FinishedState ∧ k = TabletAliasString (PrimaryAlias shard))
    ∧ (s = DrainingState ∨ listed_pods AliasFromPod env !! k = None).
Proof.
  intros drains Hall Hpanic. eapply wp_panic; [|exact Hpanic].
  clear Hpanic. revert drains Hall. unfold reconcileDrain, listed_pods.
  destruct (client_List env) as [e|items]; intros Hall.
  { by apply wp_bind, wp_Eventf, wp_Error. }
  destruct (topo_GetShard env) as [e|shard].
  { by apply wp_bind, wp_Eventf, wp_RequeueAfter. }
  destruct (topo_GetTabletMapForShardByCell env) as [e|tablets].
  { by apply wp_bind, wp_Eventf, wp_RequeueAfter. }
  apply wp_bind, wp_set_pods. cbn [w_trace w_builder initial].
  set (pods0 := buildPods AliasFromPod items) in *.
  set (drains := drainStates GetState pods0).
  assert (frozen pods0 {| w_pods := pods0; w_trace := [];
                          w_builder := results.empty |}) as Hstart.
  { split; [|by apply Forall_nil]. intros k' pod' Hl. exists pod'.
    split; [done|by left]. }
  unfold reconcileAfterReads.
  destruct (isShardHealthy _ _).
  { by apply wp_bind, wp_Eventf, wp_Result. }
  unfold reconcileHealthy. destruct (negb (HasPrimary shard)).
  { by apply wp_bind, wp_Eventf, wp_Result. }
  apply wp_bind.
  eapply wp_mono;
    [apply wp_and;
       [apply (loadDrainState_run GetState pods0 env (range_pods env) ∅ false
                 _ Hstart)
       |apply (wp_of_preserves (covers pods0));
          [apply inv_loadDrainState;
             [apply covers_builder
             |intros; apply covers_emit
             |apply covers_updateDrainStatus]
          |by intros k]]
    | |by intros w' [? _]].
  intros [loaded ab] w1 [[_ Hdrains] Hw1]. cbn [fst w_pods] in Hdrains.
  rewrite (drains_loaded_all _ _ _ Hall) in Hdrains. fold drains in Hdrains.
  subst loaded. cbn beta in Hw1.
  destruct (bool_decide _); [by apply wp_Result|].
  destruct ab; [by apply wp_bind, wp_Eventf, wp_Result|].
  unfold transitionAndReparent. apply wp_bind.
  eapply wp_mono; [by apply (applyTransitions_panics pods0)| |].
  2: { intros _ (k & s & ? & ? & ? & ?). by exists shard, k, s. }
  intros ack w2 _. apply wp_bind. unfold wp at 1.
  destruct (disableFastShutdown_run MysqldContainerName env tablets
              (vts_MysqldImage vts) (range_pods_upgrade env) w2)
    as (e & ext & -> & _).
  destruct e as [e|]; [by apply wp_bind, wp_Eventf, wp_Error|].
  destruct (_ && _); [by apply wp_bind, wp_Eventf, wp_Result|].
  destruct (_ && _); [by apply wp_bind, wp_Eventf, wp_Result|].
  apply wp_bind, wp_get_pods.
  destruct (candidatePrimary _ _ _ _ _ _ _);
    [|by apply wp_bind, wp_Eventf, wp_RequeueAfter].
  apply wp_bind.
  assert (∀ (E : World → Prop) (reparentErr : option Error) w3,
    wp ((match reparentErr with
         | Some _ => recorder_Eventf EventTypeWarning "PlannedReparentFailed"
         | None => recorder_Eventf EventTypeNormal "PlannedReparent"
         end) ;;
        emit (plannedReparentCount_Inc (bool_decide (reparentErr = None))) ;;
        resultBuilder_Result)
       (λ _ _, True) E w3) as Hend.
  { intros E reparentErr w3. apply wp_bind.
    destruct reparentErr; by apply wp_Eventf, wp_bind, wp_emit, wp_Result. }
  destruct (vts_UsingExternalDatastore vts).
  - unfold handleExternalReparent. apply wp_bind, wp_emit.
    destruct (wr_TabletExternallyReparented env _) as [e|].
    + apply wp_ret. apply (Hend _ (Some e)).
    + apply wp_bind, wp_emit, wp_ret. apply Hend.
  - apply wp_bind, wp_emit, wp_ret. apply Hend.
Qed.

End PassPanics.


(** ** The map of the listed pods *)

Section BuildPods.

Variable AliasFromPod : Pod -> TabletAlias.

Lemma buildPods_snoc items pod :
  buildPods AliasFromPod (items ++ [pod])
  = <[TabletAliasString (Some (AliasFromPod pod)) := pod]>
      (buildPods AliasFromPod items).
Proof. unfold buildPods. by rewrite foldl_app. Qed.

(** The map built from the listed pods holds, under an alias, the last
    listed pod with this alias: a later pod replaces an earlier one, and an
    alias of no listed pod is absent. *)
Theorem buildPods_lookup items k pod :
  buildPods AliasFromPod items !! k = Some pod
  ↔ ∃ before after,
      items = before ++ pod :: after
      ∧ TabletAliasString (Some (AliasFromPod pod)) = k
      ∧ ∀ later, later ∈ after →
                 TabletAliasString (Some (AliasFromPod later)) ≠ k.
Proof.
  induction items as [|last items IH] using rev_ind.
  { split.
    - intros Hl. cbn in Hl. by rewrite lookup_empty in Hl.
    - intros (before & after & Heq & _). by destruct before. }
  rewrite buildPods_snoc.
  destruct (decide (TabletAliasString (Some (AliasFromPod last)) = k))
    as [Hk|Hk].
  - rewrite Hk, lookup_insert_eq. split.
    + intros [= <-]. exists items, []. split_and!; [done..|].
      intros later Hin. by apply elem_of_nil in Hin.
    + intros (before & after & Heq & _ & Hafter).
      destruct after as [|a after _] using rev_ind.
      * apply app_inj_tail in Heq as [_ ->]. done.
      * rewrite app_comm_cons, app_assoc in Heq.
        apply app_inj_tail in Heq as [_ ->].
        destruct (Hafter a); [|done]. apply elem_of_app. right. left.
  - rewrite lookup_insert_ne by done. rewrite IH. split.
    + intros (before & after & -> & ? & Hafter).
      exists before, (after ++ [last]). split_and!; [|done|].
      * by rewrite <- app_assoc.
      * intros later [?|Hin%list_elem_of_singleton]%elem_of_app;
          [by apply Hafter|by subst].
    + intros (before & after & Heq & ? & Hafter).
      destruct after as [|a after _] using rev_ind.
      * apply app_inj_tail in Heq as [_ ->]. done.
      * rewrite app_comm_cons, app_assoc in Heq.
        apply app_inj_tail in Heq as [-> ->].
        exists before, after. split_and!; [done..|].
        intros later Hin. apply Hafter, elem_of_app. by left.
Qed.

End BuildPods.


(** ** Every update is accounted for *)

Section Accounted.

Variable TabletTypeLabel : string.
Variable ExternalMasterTabletPoolName : string.
Variable MysqldContainerName : string.
Variable replicationRequeueDelay : Duration.
Variable AliasFromPod : Pod -> TabletAlias.
Variable GetState : Pod -> State * option Error.
Variable StateTransitions : gmap string State -> gmap string State.
Context {G : Type} `{GTIDSet G}.

Lemma accounted_emit pods0 transitions P a :
  isUpdate a = false →
  preserves (λ w, Forall (accounted pods0 transitions P) (w_trace w)) (emit a).
Proof.
  intros Ha w Hw. cbn. apply Forall_app. split; [done|].
  apply Forall_singleton. by destruct a.
Qed.

Lemma accounted_frozen pods0 transitions P w :
  frozen pods0 w → Forall (accounted pods0 transitions P) (w_trace w).
Proof.
  intros [_ Ht]. eapply Forall_impl; [exact Ht|].
  intros [] Ha; try done. by left.
Qed.

(** The loop over the transitions sends only updates that carry the
    proposed state. *)
Lemma accounted_applyTransitions pods0 env P transitions order ack :
  preserves (λ w, Forall (accounted pods0 transitions P) (w_trace w))
    (applyTransitions env P transitions order ack).
Proof.
  revert ack. induction order as [|k rest IH]; intros ack;
    cbn [applyTransitions]; [apply preserves_ret|].
  destruct (transitions !! k) as [state|] eqn:Hk; [|apply IH].
  destruct (bool_decide (state = FinishedState) && bool_decide (k = P))
    eqn:Hskip; [apply IH|].
  assert (¬ (state = FinishedState ∧ k = P)) as Hnskip.
  { intros [-> ->]. by rewrite !bool_decide_eq_true_2 in Hskip. }
  apply preserves_bind.
  2: { intros e. apply preserves_bind; [|intros _; apply IH].
       destruct e; [|apply preserves_ret].
       apply preserves_bind; [by apply accounted_emit|intros _].
       apply preserves_bind; [|intros _; apply preserves_ret].
       apply preserves_Error. by intros w b. }
  intros w Hw.
  destruct (decide (state = DrainingState ∨ w_pods w !! k = None)) as [Hp|Hn].
  { by destruct (updateDrainStatus_panic env k state w Hp) as [msg ->]. }
  destruct (w_pods w !! k) as [pod|] eqn:Hpod; [|destruct Hn; by right].
  assert (state ≠ DrainingState) as Hs by (intros ->; destruct Hn; by left).
  destruct (updateDrainStatus_run env k state w pod Hpod Hs)
    as (pod' & _ & Henc & _ & _ & [[_ ->]|[_ ->]]); [done|].
  cbn. apply Forall_app. split; [done|]. apply Forall_singleton.
  right. by exists state.
Qed.

(** In a pass whose first loop visits every pod, every update sent to
    Kubernetes either clears the acknowledged and finished markers of a pod
    listed without a drain request, or carries a pod that encodes the state
    which the state machine proposes for it from the states of the listed
    pods with a drain request; this state is never the finished state for
    the primary. *)
Theorem every_update_is_accounted_for env vts shard k pod :
  let w' :=
    (reconcileDrain TabletTypeLabel ExternalMasterTabletPoolName
       MysqldContainerName replicationRequeueDelay AliasFromPod GetState
       StateTransitions env vts initial).2 in
  let pods0 := listed_pods AliasFromPod env in
  topo_GetShard env = inr shard →
  visits_all (range_pods env) pods0 →
  Update k pod ∈ w_trace w' →
  accounted pods0 (StateTransitions (drainStates GetState pods0))
    (TabletAliasString (PrimaryAlias shard)) (Update k pod).
Proof.
  intros w' pods0 Hshard Hall Hin.
  assert (Forall (accounted pods0
                    (StateTransitions (drainStates GetState pods0))
                    (TabletAliasString (PrimaryAlias shard))) (w_trace w'))
    as Hacc; [|by eapply Forall_forall in Hacc].
  clear Hin. subst w'. apply wp_snd.
  revert pods0 Hall. unfold reconcileDrain, listed_pods. rewrite Hshard.
  destruct (client_List env) as [e|items]; intros Hall.
  { apply wp_bind, wp_Eventf, wp_Error. intros _ b. cbn.
    by apply Forall_singleton. }
  destruct (topo_GetTabletMapForShardByCell env) as [e|tablets].
  { apply wp_bind, wp_Eventf, wp_RequeueAfter. intros _ b. cbn.
    by apply Forall_singleton. }
  apply wp_bind, wp_set_pods. cbn [w_trace w_builder initial].
  set (pods0 := buildPods AliasFromPod items) in *.
  set (transitions := StateTransitions (drainStates GetState pods0)).
  set (P := TabletAliasString (PrimaryAlias shard)).
  assert (frozen pods0 {| w_pods := pods0; w_trace := [];
                          w_builder := results.empty |}) as Hstart.
  { split; [|by apply Forall_nil]. intros k' pod' Hl. exists pod'.
    split; [done|by left]. }
  unfold reconcileAfterReads.
  destruct (isShardHealthy _ _).
  { apply wp_bind, wp_Eventf, wp_Result. intros _. cbn.
    by apply Forall_singleton. }
  unfold reconcileHealthy. destruct (negb (HasPrimary shard)).
  { apply wp_bind, wp_Eventf, wp_Result. intros _. cbn.
    by apply Forall_singleton. }
  apply wp_bind.
  eapply wp_mono;
    [apply (loadDrainState_run GetState pods0 env (range_pods env) ∅ false
              _ Hstart)
    | |done].
  intros [drains ab] w1 [Hw1 Hdrains]. cbn [fst w_pods] in Hdrains.
  rewrite (drains_loaded_all _ _ _ Hall) in Hdrains. subst drains.
  apply (accounted_frozen pods0 transitions P) in Hw1.
  destruct (bool_decide _); [apply wp_Result; by intros _|].
  destruct ab.
  { apply wp_bind, wp_Eventf, wp_Result. intros _. cbn.
    apply Forall_app. split; [done|]. by apply Forall_singleton. }
  apply (wp_of_preserves
           (λ w, Forall (accounted pods0 transitions P) (w_trace w)));
    [|done].
  apply inv_afterTransitions.
  - by intros w b.
  - intros t r. by apply accounted_emit.
  - intros k' query. by apply accounted_emit.
  - intros a Ha. apply accounted_emit. by destruct a.
  - apply accounted_applyTransitions.
Qed.

End Accounted.

Lemma replicaAcknowledged_trace :
  w_trace (Scenario.reconcileDrain Cases.replicaAcknowledged).2
  = [Update (Scenario.key 101)
       (Scenario.pod "101" (Scenario.markers true true true));
     Eventf EventTypeNormal "NotReparentingPrimary"].
Proof. vm_compute. reflexivity. Qed.

Lemma every_update_is_accounted_for_witness :
  let pods0 := listed_pods Scenario.AliasFromPod Cases.replicaAcknowledged in
  accounted pods0
    (Scenario.StateTransitions (drainStates Scenario.GetState pods0))
    (Scenario.key 100)
    (Update (Scenario.key 101)
       (Scenario.pod "101" (Scenario.markers true true true))).
Proof.
  apply (every_update_is_accounted_for Scenario.TabletTypeLabel
           Scenario.ExternalMasterTabletPoolName Scenario.MysqldContainerName
           Scenario.replicationRequeueDelay Scenario.AliasFromPod
           Scenario.GetState Scenario.StateTransitions (G:=N)
           Cases.replicaAcknowledged Scenario.vts Scenario.shard100).
  - reflexivity.
  - apply (bool_decide_unpack _). vm_compute. exact I.
  - change (reconcileDrain _ _ _ _ _ _ _ _ _ _)
      with (Scenario.reconcileDrain Cases.replicaAcknowledged).
    rewrite replicaAcknowledged_trace. left.
Defined.


(** ** The two loops over the pods and over the transitions *)

Section Loops.

Variable GetState : Pod -> State * option Error.

Lemma aborting_cleared pod : ¬ aborting (cleared pod).
Proof. by intros [_ ?]. Qed.

(** The loop that loads the drain state always returns.  It returns the
    states of the visited pods that carry a drain request; it sets
    [abortingDrain] exactly when a visited pod carries an acknowledged or
    finished marker without a drain request; and it leaves every pod as it
    was, but for the visited pods without a drain request, whose
    acknowledged and finished markers it clears. *)
Theorem loadDrainState_result env order : ∀ drains abortingDrain w,
  ∃ abortingDrain' w',
    loadDrainState GetState env order drains abortingDrain w
    = (Done (drains_loaded GetState (w_pods w) order drains, abortingDrain'),
       w')
    ∧ (abortingDrain' = true
       ↔ abortingDrain = true
         ∨ ∃ k pod, k ∈ order ∧ w_pods w !! k = Some pod ∧ aborting pod)
    ∧ ∀ k,
        w_pods w' !! k
        = match w_pods w !! k with
          | Some pod =>
              Some (if negb (Started pod) && bool_decide (k ∈ order)
                    then cleared pod else pod)
          | None => None
          end.
Proof.
  induction order as [|k1 rest IH]; intros drains ab w;
    cbn [loadDrainState].
  { exists ab, w. split_and!; [done| |].
    - split; [by left|]. intros [?|(k & pod & Hin & _)]; [done|].
      by apply elem_of_nil in Hin.
    - intros k. destruct (w_pods w !! k) as [pod|]; [|done].
      rewrite (bool_decide_eq_false_2 (k ∈ [])) by apply not_elem_of_nil.
      by rewrite andb_false_r. }
  rewrite drains_loaded_cons. unfold bind at 1, get_pods at 1.
  assert (∀ drains1 ab1 w1,
    (∀ k, w_pods w1 !! k
          = match w_pods w !! k with
            | Some pod =>
                Some (if negb (Started pod) && bool_decide (k = k1)
                      then cleared pod else pod)
            | None => None
            end) →
    drains_loaded GetState (w_pods w1) rest drains1
    = drains_loaded GetState (w_pods w) rest drains1 →
    (ab1 = true
     ↔ ab = true ∨ ∃ pod, w_pods w !! k1 = Some pod ∧ aborting pod) →
    ∃ ab' w',
      loadDrainState GetState env rest drains1 ab1 w1
      = (Done (drains_loaded GetState (w_pods w) rest drains1, ab'), w')
      ∧ (ab' = true
         ↔ ab = true
           ∨ ∃ k pod, k ∈ k1 :: rest ∧ w_pods w !! k = Some pod
                      ∧ aborting pod)
      ∧ ∀ k,
          w_pods w' !! k
          = match w_pods w !! k with
            | Some pod =>
                Some (if negb (Started pod) && bool_decide (k ∈ k1 :: rest)
                      then cleared pod else pod)
            | None => None
            end) as Hrest.
  { intros drains1 ab1 w1 Hpods Hloaded Hab.
    destruct (IH drains1 ab1 w1) as (ab' & w' & Hrun & Hab' & Hpods').
    exists ab', w'. rewrite Hrun, Hloaded. split_and!; [done| |].
    - rewrite Hab', Hab. split.
      + intros [[?|(pod & ? & ?)]|(k & pod & Hin & Hk & Ha)].
        * by left.
        * right. exists k1, pod. split_and!; [left|done..].
        * right. rewrite Hpods in Hk.
          destruct (w_pods w !! k) as [pod0|] eqn:Hk0; [|done].
          injection Hk as <-.
          destruct (negb (Started pod0) && bool_decide (k = k1));
            [by apply aborting_cleared in Ha|].
          exists k, pod0. split_and!; [by right|done..].
      + intros [?|(k & pod & Hin & Hk & Ha)]; [by left; left|].
        destruct (decide (k = k1)) as [->|Hne];
          [left; right; by exists pod|].
        right. exists k, pod. split; [|split; [|done]].
        * apply elem_of_cons in Hin as [?|?]; done.
        * by rewrite Hpods, Hk, (bool_decide_eq_false_2 (k = k1)),
            andb_false_r.
    - intros k. rewrite Hpods', Hpods.
      destruct (w_pods w !! k) as [pod|]; [|done]. f_equal.
      destruct (Started pod) eqn:Hs; cbn [negb andb]; [by rewrite Hs|].
      destruct (decide (k = k1)) as [->|Hne].
      + rewrite (bool_decide_eq_true_2 (k1 = k1)) by done.
        rewrite (bool_decide_eq_true_2 (k1 ∈ k1 :: rest)) by left.
        change (Started (cleared pod)) with (Started pod). rewrite Hs.
        cbn [negb andb]. by destruct (bool_decide (k1 ∈ rest)).
      + rewrite (bool_decide_eq_false_2 (k = k1)) by done. rewrite Hs.
        cbn [negb andb].
        destruct (decide (k ∈ rest)) as [Hin|Hnin].
        * rewrite (bool_decide_eq_true_2 (k ∈ rest)) by done.
          by rewrite (bool_decide_eq_true_2 (k ∈ k1 :: rest)) by (by right).
        * rewrite (bool_decide_eq_false_2 (k ∈ rest)) by done.
          rewrite (bool_decide_eq_false_2 (k ∈ k1 :: rest)); [done|].
          intros [?|?]%elem_of_cons; done. }
  destruct (w_pods w !! k1) as [pod1|] eqn:Hk1.
  2: { apply Hrest; [|done|].
       - intros k. destruct (w_pods w !! k) as [pod|] eqn:Hk; [|done].
         rewrite (bool_decide_eq_false_2 (k = k1)) by congruence.
         by rewrite andb_false_r.
       - split; [by left|]. by intros [?|(? & ? & _)]. }
  assert (∀ w1, w_pods w1 = w_pods w → Started pod1 = true →
            ∀ k, w_pods w1 !! k
                 = match w_pods w !! k with
                   | Some pod =>
                       Some (if negb (Started pod) && bool_decide (k = k1)
                             then cleared pod else pod)
                   | None => None
                   end) as Hsame.
  { intros w1 -> Hs k. destruct (w_pods w !! k) as [pod|] eqn:Hk; [|done].
    destruct (decide (k = k1)) as [->|Hne].
    - rewrite Hk1 in Hk. injection Hk as <-. by rewrite Hs.
    - rewrite (bool_decide_eq_false_2 (k = k1)) by done.
      by rewrite andb_false_r. }
  destruct (Started pod1) eqn:Hs1.
  - destruct (GetState pod1) as [state e]. cbn [fst].
    assert (ab = true ↔ ab = true ∨ ∃ pod, Some pod1 = Some pod ∧ aborting pod)
      as Hab.
    { split; [by left|]. intros [?|(pod & [= <-] & [? _])]; congruence. }
    unfold bind at 1. destruct e; cbn.
    + apply Hrest; [by apply Hsame|done|done].
    + apply Hrest; [by apply Hsame|done|done].
  - assert (∀ w1 ab1,
      w_pods w1 = w_pods w →
      (ab1 = true ↔ ab = true ∨ aborting pod1) →
      ∃ ab' w',
        (e <- updateDrainStatus env k1 NotDrainingState ;;
         (match e with
          | Some e => recorder_Eventf EventTypeWarning "UpdateFailed" ;;
                      resultBuilder_Error e ;; ret tt
          | None => ret tt
          end) ;;
         loadDrainState GetState env rest drains ab1) w1
        = (Done (drains_loaded GetState (w_pods w) rest drains, ab'), w')
        ∧ (ab' = true
           ↔ ab = true
             ∨ ∃ k pod, k ∈ k1 :: rest ∧ w_pods w !! k = Some pod
                        ∧ aborting pod)
        ∧ ∀ k,
            w_pods w' !! k
            = match w_pods w !! k with
              | Some pod =>
                  Some (if negb (Started pod) && bool_decide (k ∈ k1 :: rest)
                        then cleared pod else pod)
              | None => None
              end) as Hclear.
    { intros w1 ab1 Hp1 Hab1.
      destruct (updateDrainStatus_NotDraining env k1 w1 pod1) as [r Hr];
        [by rewrite Hp1|].
      unfold bind at 1. rewrite Hr.
      assert (∀ w2, w_pods w2 = <[k1:=cleared pod1]> (w_pods w) →
                ∃ ab' w',
                  loadDrainState GetState env rest drains ab1 w2
                  = (Done (drains_loaded GetState (w_pods w) rest drains, ab'),
                     w')
                  ∧ (ab' = true
                     ↔ ab = true
                       ∨ ∃ k pod, k ∈ k1 :: rest ∧ w_pods w !! k = Some pod
                                  ∧ aborting pod)
                  ∧ ∀ k,
                      w_pods w' !! k
                      = match w_pods w !! k with
                        | Some pod =>
                            Some (if negb (Started pod)
                                     && bool_decide (k ∈ k1 :: rest)
                                  then cleared pod else pod)
                        | None => None
                        end) as Hgo.
      { intros w2 Hp2. apply Hrest.
        - intros k. rewrite Hp2. destruct (decide (k = k1)) as [->|Hne].
          + rewrite lookup_insert_eq, Hk1, Hs1.
            by rewrite bool_decide_eq_true_2.
          + rewrite lookup_insert_ne by done.
            destruct (w_pods w !! k) as [pod|]; [|done].
            rewrite (bool_decide_eq_false_2 (k = k1)) by done.
            by rewrite andb_false_r.
        - rewrite Hp2. by apply drains_loaded_insert.
        - rewrite Hab1. split; (intros [?|Ha]; [by left|right]).
          + by exists pod1.
          + destruct Ha as (pod & [= <-] & ?). done. }
      unfold bind at 1. destruct r as [e|]; cbn.
      - apply Hgo. cbn. by rewrite Hp1.
      - apply Hgo. cbn. by rewrite Hp1. }
    unfold bind at 1.
    destruct (Acknowledged pod1 || Finished pod1) eqn:Hm; cbn.
    + apply Hclear; [done|]. split; [intros _; right; by split|done].
    + apply Hclear; [done|]. split; [by left|].
      intros [?|[_ ?]]; [done|congruence].
Qed.

End Loops.


Lemma updateDrainStatus_done env k s w r w1 :
  updateDrainStatus env k s w = (Done r, w1) →
  ∃ pod pod' upd,
    w_pods w !! k = Some pod
    ∧ same_identity pod' pod ∧ encodes pod' s
    ∧ w_pods w1 = <[k := pod']> (w_pods w)
    ∧ w_trace w1 = w_trace w ++ upd
    ∧ (pod' ≠ pod → Update k pod' ∈ upd)
    ∧ (encodes pod s → pod' = pod).
Proof.
  intros Hrun.
  destruct (decide (s = DrainingState ∨ w_pods w !! k = None)) as [Hp|Hn].
  { destruct (updateDrainStatus_panic env k s w Hp) as [msg Hpanic].
    rewrite Hpanic in Hrun. discriminate Hrun. }
  destruct (w_pods w !! k) as [pod|] eqn:Hk; [|destruct Hn; by right].
  assert (s ≠ DrainingState) as Hs by (intros ->; destruct Hn; by left).
  destruct (updateDrainStatus_run env k s w pod Hk Hs)
    as (pod' & Hid & Henc & _ & _ & [[-> Hrun']|[Hne Hrun']]);
    rewrite Hrun' in Hrun; injection Hrun as <- <-.
  - exists pod, pod, []. split_and!; [done..| | |done|done].
    + by rewrite insert_id.
    + by rewrite app_nil_r.
  - exists pod, pod', [Update k pod']. split_and!; [done..| |].
    + intros _. left.
    + intros Hfix. apply (updateDrainStatus_fixed env k s w pod Hk) in Hfix.
      rewrite Hrun' in Hfix. injection Hfix as _ Hw.
      apply (f_equal (λ w, length (w_trace w))) in Hw. cbn in Hw.
      rewrite length_app in Hw. cbn in Hw. lia.
Qed.

(** When the loop over the transitions returns, it reports an
    acknowledged drain exactly when it was entered with one or a visited
    transition is to the acknowledged state; for every visited transition
    but the one that would finish the primary, the pod now encodes the
    proposed state, differs from what it was at most in its acknowledged
    and finished markers, and an update carrying it has been sent if it
    has changed; every other pod is as it was. *)
Theorem applyTransitions_result env P transitions order : ∀ ack w r w',
  applyTransitions env P transitions order ack w = (Done r, w') →
  ∃ ext,
    w_trace w' = w_trace w ++ ext
    ∧ (r = true
       ↔ ack = true
         ∨ ∃ k, k ∈ order ∧ transitions !! k = Some AcknowledgedState)
    ∧ (∀ k s,
         k ∈ order → transitions !! k = Some s →
         ¬ (s = FinishedState ∧ k = P) →
         ∃ pod pod',
           w_pods w !! k = Some pod ∧ w_pods w' !! k = Some pod'
           ∧ same_identity pod' pod ∧ encodes pod' s
           ∧ (pod' ≠ pod → Update k pod' ∈ ext)
           ∧ (encodes pod s → pod' = pod))
    ∧ (∀ k,
         k ∉ order ∨ transitions !! k = None
         ∨ (transitions !! k = Some FinishedState ∧ k = P) →
         w_pods w' !! k = w_pods w !! k).
Proof.
  induction order as [|k1 rest IH]; intros ack w r w';
    cbn [applyTransitions].
  { intros [= <- <-]. exists []. split_and!.
    - by rewrite app_nil_r.
    - split; [by left|]. intros [?|(k & Hin & _)]; [done|].
      by apply elem_of_nil in Hin.
    - intros k s Hin. by apply elem_of_nil in Hin.
    - done. }
  destruct (transitions !! k1) as [state|] eqn:Hk1.
  2: { intros Hrun. destruct (IH _ _ _ _ Hrun) as (ext & Ht & Hr & Ha & Hb).
       exists ext. split_and!; [done| | |].
       - rewrite Hr. split; (intros [?|(k & Hin & Hk)]; [by left|right]).
         + exists k. split; [by right|done].
         + exists k. split; [|done].
           apply elem_of_cons in Hin as [->|?]; [congruence|done].
       - intros k s Hin Hk. apply Ha; [|done].
         apply elem_of_cons in Hin as [->|?]; [congruence|done].
       - intros k Hk. apply Hb. destruct Hk as [Hk|Hk]; [left|by right].
         intros ?. apply Hk. by right. }
  destruct (bool_decide (state = FinishedState) && bool_decide (k1 = P))
    eqn:Hskip.
  { apply andb_prop in Hskip
      as [Hs%bool_decide_eq_true_1 HP%bool_decide_eq_true_1].
    subst state.
    intros Hrun. destruct (IH _ _ _ _ Hrun) as (ext & Ht & Hr & Ha & Hb).
    exists ext. split_and!; [done| | |].
    - rewrite Hr. split; (intros [?|(k & Hin & Hk)]; [by left|right]).
      + exists k. split; [by right|done].
      + exists k. split; [|done].
        apply elem_of_cons in Hin as [->|?]; [congruence|done].
    - intros k s Hin Hk Hns. apply Ha; [|done..].
      apply elem_of_cons in Hin as [->|?]; [|done].
      destruct Hns. split; congruence.
    - intros k Hk. destruct (decide (k ∈ rest)) as [Hin|Hnin];
        [|apply Hb; by left].
      apply Hb. destruct Hk as [Hk|Hk]; [|by right].
      destruct Hk. by right. }
  assert (¬ (state = FinishedState ∧ k1 = P)) as Hnskip.
  { intros [-> ->]. by rewrite !bool_decide_eq_true_2 in Hskip. }
  unfold bind at 1.
  destruct (updateDrainStatus env k1 state w) as [[e|msg] w1] eqn:Hupd;
    [|discriminate].
  apply updateDrainStatus_done in Hupd
    as (pod1 & pod1' & upd & Hpod1 & Hid1 & Henc1 & Hp1 & Ht1 & Hupd & Hfix).
  set (ack1 := if bool_decide (state = AcknowledgedState) then true else ack).
  assert (∀ w2 ev,
    w_pods w2 = w_pods w1 → w_trace w2 = w_trace w1 ++ ev →
    applyTransitions env P transitions rest ack1 w2 = (Done r, w') →
    ∃ ext,
      w_trace w' = w_trace w ++ ext
      ∧ (r = true
         ↔ ack = true
           ∨ ∃ k, k ∈ k1 :: rest ∧ transitions !! k = Some AcknowledgedState)
      ∧ (∀ k s,
           k ∈ k1 :: rest → transitions !! k = Some s →
           ¬ (s = FinishedState ∧ k = P) →
           ∃ pod pod',
             w_pods w !! k = Some pod ∧ w_pods w' !! k = Some pod'
             ∧ same_identity pod' pod ∧ encodes pod' s
             ∧ (pod' ≠ pod → Update k pod' ∈ ext)
             ∧ (encodes pod s → pod' = pod))
      ∧ (∀ k,
           k ∉ k1 :: rest ∨ transitions !! k = None
           ∨ (transitions !! k = Some FinishedState ∧ k = P) →
           w_pods w' !! k = w_pods w !! k)) as Hrest.
  { intros w2 ev Hp2 Ht2 Hrun.
    destruct (IH _ _ _ _ Hrun) as (ext & Ht & Hr & Ha & Hb).
    assert (∀ k, k ≠ k1 → w_pods w2 !! k = w_pods w !! k) as Hother.
    { intros k Hne. rewrite Hp2, Hp1. by apply lookup_insert_ne. }
    assert (w_pods w2 !! k1 = Some pod1') as Hk1'.
    { rewrite Hp2, Hp1. by apply lookup_insert_eq. }
    exists (upd ++ ev ++ ext). split_and!.
    - by rewrite Ht, Ht2, Ht1, <- !app_assoc.
    - rewrite Hr. subst ack1. split.
      + intros [Hack|(k & Hin & Hk)].
        * case_bool_decide as Hst; [|by left]. right. exists k1.
          split; [left|congruence].
        * right. exists k. split; [by right|done].
      + intros [->|(k & Hin & Hk)].
        * left. by case_bool_decide.
        * apply elem_of_cons in Hin as [->|Hin].
          -- left. rewrite Hk1 in Hk. injection Hk as ->.
             by rewrite bool_decide_eq_true_2.
          -- right. by exists k.
    - intros k s Hin Hk Hns.
      destruct (decide (k = k1)) as [->|Hne].
      + rewrite Hk1 in Hk. injection Hk as <-.
        destruct (decide (k1 ∈ rest)) as [Hin'|Hnin].
        * destruct (Ha k1 state Hin' Hk1 Hns)
            as (pod2 & pod2' & Hl2 & Hl2' & Hid2 & Henc2 & Hupd2 & Hfix2).
          rewrite Hk1' in Hl2. injection Hl2 as <-.
          rewrite (Hfix2 Henc1) in *.
          exists pod1, pod1'. split_and!; [done..| |done].
          intros Hne. apply elem_of_app. left. by apply Hupd.
        * exists pod1, pod1'. split_and!; [done| |done..| |done].
          -- rewrite Hb by (by left). done.
          -- intros Hne. apply elem_of_app. left. by apply Hupd.
      + apply elem_of_cons in Hin as [?|Hin]; [done|].
        destruct (Ha k s Hin Hk Hns)
          as (pod2 & pod2' & Hl2 & Hl2' & Hid2 & Henc2 & Hupd2 & Hfix2).
        exists pod2, pod2'. rewrite <- (Hother k Hne).
        split_and!; [done..| |done].
        intros Hne'. rewrite !elem_of_app. right. right. by apply Hupd2.
    - intros k Hk.
      assert (k ≠ k1) as Hne.
      { intros ->. destruct Hk as [Hk|[Hk|[Hk ?]]].
        - apply Hk. left.
        - congruence.
        - apply Hnskip. split; congruence. }
      rewrite <- (Hother k Hne). apply Hb.
      destruct Hk as [Hk|Hk]; [left|by right].
      intros ?. apply Hk. by right. }
  unfold bind at 1. destruct e as [e|]; cbn.
  - apply (Hrest _ [Eventf EventTypeWarning "UpdateFailed"]); done.
  - apply (Hrest _ []); [done|by rewrite app_nil_r].
Qed.

Lemma applyTransitions_result_witness :
  ∃ ext,
    w_trace Cases.applyTransitions.2 = w_trace Cases.twoPods ++ ext
    ∧ (false = true
       ↔ false = true
         ∨ ∃ k, k ∈ Scenario.keys Scenario.three
                ∧ Cases.finishReplica !! k = Some AcknowledgedState)
    ∧ (∀ k s,
         k ∈ Scenario.keys Scenario.three →
         Cases.finishReplica !! k = Some s →
         ¬ (s = FinishedState ∧ k = Scenario.key 100) →
         ∃ pod pod',
           w_pods Cases.twoPods !! k = Some pod
           ∧ w_pods Cases.applyTransitions.2 !! k = Some pod'
           ∧ same_identity pod' pod ∧ encodes pod' s
           ∧ (pod' ≠ pod → Update k pod' ∈ ext)
           ∧ (encodes pod s → pod' = pod))
    ∧ (∀ k,
         k ∉ Scenario.keys Scenario.three
         ∨ Cases.finishReplica !! k = None
         ∨ (Cases.finishReplica !! k = Some FinishedState
            ∧ k = Scenario.key 100) →
         w_pods Cases.applyTransitions.2 !! k = w_pods Cases.twoPods !! k).
Proof.
  apply (applyTransitions_result Scenario.aborted (Scenario.key 100)
           Cases.finishReplica (Scenario.keys Scenario.three) false
           Cases.twoPods false Cases.applyTransitions.2).
  vm_compute. reflexivity.
Defined.


(** ** Witnesses of the further properties *)

Lemma tagged_mysql_8_0_30 : tagged_version "mysql:8.0.30" 8 0 30.
Proof.
  exists "mysql", "8.0.30", "8.0.30", "8", "0", "30".
  split_and!; reflexivity.
Qed.

Lemma tagged_mysql_8_0_33 : tagged_version "mysql:8.0.33" 8 0 33.
Proof.
  exists "mysql", "8.0.33", "8.0.33", "8", "0", "33".
  split_and!; reflexivity.
Qed.

Lemma tagged_percona_8_0_33 : tagged_version "percona:8.0.33-25" 8 0 33.
Proof.
  exists "percona", "8.0.33-25", "8.0.33", "8", "0", "33".
  split_and!; reflexivity.
Qed.

Lemma tagged_mysql_8_4_0 : tagged_version "mysql:8.4.0" 8 4 0.
Proof.
  exists "mysql", "8.4.0", "8.4.0", "8", "4", "0".
  split_and!; reflexivity.
Qed.

Lemma tagged_mysql_8_4_3 : tagged_version "mysql:8.4.3" 8 4 3.
Proof.
  exists "mysql", "8.4.3", "8.4.3", "8", "4", "3".
  split_and!; reflexivity.
Qed.

Lemma tagged_mysql_5_7_44 : tagged_version "mysql:5.7.44" 5 7 44.
Proof.
  exists "mysql", "5.7.44", "5.7.44", "5", "7", "44".
  split_and!; reflexivity.
Qed.

Lemma same_version_numbers_no_safe_upgrade_witness :
  safeMysqldUpgrade "mysql:8.0.33" "percona:8.0.33-25" = (false, None).
Proof.
  apply (same_version_numbers_no_safe_upgrade
           "mysql:8.0.33" "percona:8.0.33-25" 8 0 33).
  - exact tagged_mysql_8_0_33.
  - exact tagged_percona_8_0_33.
Defined.

Lemma patch_change_within_8_0_witness :
  (34 <= 30 ∧ 34 <= 33 →
   safeMysqldUpgrade "mysql:8.0.30" "mysql:8.0.33" = (false, None))
  ∧ (30 < 34 ∨ 33 < 34 →
     (33 < 30 → fst (safeMysqldUpgrade "mysql:8.0.30" "mysql:8.0.33") = false
                ∧ snd (safeMysqldUpgrade "mysql:8.0.30" "mysql:8.0.33") ≠ None)
     ∧ (30 < 33 →
        safeMysqldUpgrade "mysql:8.0.30" "mysql:8.0.33" = (true, None))).
Proof.
  apply (patch_change_within_8_0 "mysql:8.0.30" "mysql:8.0.33" 30 33).
  - exact tagged_mysql_8_0_30.
  - exact tagged_mysql_8_0_33.
  - discriminate.
Defined.

Lemma patch_change_outside_8_0_witness :
  safeMysqldUpgrade "mysql:8.4.3" "mysql:8.4.0" = (false, None).
Proof.
  apply (patch_change_outside_8_0 "mysql:8.4.3" "mysql:8.4.0" 8 4 3 0).
  - exact tagged_mysql_8_4_3.
  - exact tagged_mysql_8_4_0.
  - lia.
Defined.

Lemma version_upgrade_needs_safe_upgrade_witness :
  safeMysqldUpgrade "mysql:5.7.44" "mysql:8.4.0" = (true, None).
Proof.
  apply (version_upgrade_needs_safe_upgrade
           "mysql:5.7.44" "mysql:8.4.0" 5 7 44 8 4 0).
  - exact tagged_mysql_5_7_44.
  - exact tagged_mysql_8_4_0.
  - lia.
  - lia.
Defined.

Lemma updateDrainStatus_effect_witness :
  let env := Scenario.aborted in
  let k := Scenario.key 101 in
  let w := Scenario.onePod (Scenario.markers true true false) in
  let pod := Scenario.pod "101" (Scenario.markers true true false) in
  ∃ pod',
    same_identity pod' pod ∧ encodes pod' FinishedState
    ∧ (FinishedState = FinishedState → Acknowledged pod' = Acknowledged pod)
    ∧ (FinishedState = AcknowledgedState → Finished pod' = Finished pod)
    ∧ ((pod' = pod
        ∧ updateDrainStatus env k FinishedState w = (Done None, w))
       ∨ (pod' ≠ pod
          ∧ updateDrainStatus env k FinishedState w
            = (Done (client_Update env (length (w_trace w)) pod'),
               {| w_pods := <[k := pod']> (w_pods w);
                  w_trace := w_trace w ++ [Update k pod'];
                  w_builder := w_builder w |}))).
Proof.
  apply (updateDrainStatus_effect Scenario.aborted (Scenario.key 101)
           FinishedState (Scenario.onePod (Scenario.markers true true false))
           (Scenario.pod "101" (Scenario.markers true true false))).
  - vm_compute. reflexivity.
  - discriminate.
Defined.

Lemma candidatePrimary_none_iff_witness :
  Scenario.candidatePrimary Scenario.four Scenario.probes593 = None
  ↔ ∀ k t, Scenario.tablets Scenario.four !! k = Some t →
           ¬ eligible Scenario.TabletTypeLabel
               Scenario.ExternalMasterTabletPoolName Scenario.shard100
               Scenario.fourPods false k t.
Proof.
  apply (candidatePrimary_none_iff Scenario.TabletTypeLabel
           Scenario.ExternalMasterTabletPoolName (G:=N) Scenario.probes593
           Scenario.shard100 (Scenario.tablets Scenario.four)
           Scenario.fourPods false).
  apply (bool_decide_unpack _). vm_compute. exact I.
Defined.

Lemma candidatePrimary_prefers_responders_witness :
  ∃ t, Scenario.candidatePrimary Scenario.four Scenario.probes593 = Some t
       ∧ t ∈ Scenario.candidates Scenario.four Scenario.probes593
       ∧ err (probe (G:=N) Scenario.probes593 t) = None.
Proof.
  apply (candidatePrimary_prefers_responders Scenario.TabletTypeLabel
           Scenario.ExternalMasterTabletPoolName (G:=N) Scenario.probes593
           Scenario.shard100 (Scenario.tablets Scenario.four)
           Scenario.fourPods false).
  - vm_compute. reflexivity.
  - exists Scenario.A. split; [|vm_compute; reflexivity].
    assert (candidates_range Scenario.TabletTypeLabel
              Scenario.ExternalMasterTabletPoolName Scenario.shard100
              (Scenario.tablets Scenario.four) Scenario.fourPods false
              (range_tablets Scenario.probes593)
            = [Scenario.A; Scenario.B; Scenario.C]) as ->
      by (vm_compute; reflexivity).
    left.
Defined.

Lemma disableFastShutdown_success_witness :
  ∃ ext,
    w_trace (Cases.disableFastShutdown "mysql:8.0.33").2
    = w_trace Cases.threePods ++ ext
    ∧ ∀ k pod tablet,
        k ∈ Scenario.keys Scenario.three →
        w_pods Cases.threePods !! k = Some pod →
        Scenario.tablets Scenario.three !! k = Some tablet →
        let gate := safeMysqldUpgrade
                      (mysqldImage Scenario.MysqldContainerName
                         (pod_Containers pod))
                      "mysql:8.0.33" in
        gate.2 = None
        ∧ (gate.1 = true →
           ExecuteFetchAsDba k disableFastShutdownQuery ∈ ext
           ∧ ∃ n, tmc_ExecuteFetchAsDba Scenario.aborted n tablet = None).
Proof.
  apply (disableFastShutdown_success Scenario.MysqldContainerName
           Scenario.aborted (Scenario.tablets Scenario.three) "mysql:8.0.33"
           (Scenario.keys Scenario.three) Cases.threePods
           (Cases.disableFastShutdown "mysql:8.0.33").2).
  vm_compute. reflexivity.
Defined.

Lemma disableFastShutdown_failure_witness :
  ∃ k pod tablet,
    k ∈ Scenario.keys Scenario.three
    ∧ w_pods Cases.threePods !! k = Some pod
    ∧ Scenario.tablets Scenario.three !! k = Some tablet
    ∧ let gate := safeMysqldUpgrade
                    (mysqldImage Scenario.MysqldContainerName
                       (pod_Containers pod))
                    "mysql:5.7.44" in
      (gate.2 = Some "cannot downgrade major version from 8.0.30 to 5.7.44"
       ∨ (gate = (true, None)
          ∧ last (w_trace (Cases.disableFastShutdown "mysql:5.7.44").2)
            = Some (ExecuteFetchAsDba k disableFastShutdownQuery)
          ∧ ∃ n e',
              tmc_ExecuteFetchAsDba Scenario.aborted n tablet = Some e'
              ∧ "cannot downgrade major version from 8.0.30 to 5.7.44"
                = "failed to disable fast shutdown for tablet "
                    +:+ k +:+ ": " +:+ e')).
Proof.
  apply (disableFastShutdown_failure Scenario.MysqldContainerName
           Scenario.aborted (Scenario.tablets Scenario.three) "mysql:5.7.44"
           (Scenario.keys Scenario.three) Cases.threePods
           (Cases.disableFastShutdown "mysql:5.7.44").2
           "cannot downgrade major version from 8.0.30 to 5.7.44").
  vm_compute. reflexivity.
Defined.

Lemma threePods_run_desired_image k pod :
  w_pods Cases.threePods !! k = Some pod →
  mysqldImage Scenario.MysqldContainerName (pod_Containers pod)
  = "mysql:8.0.30".
Proof.
  revert k pod. apply (bool_decide_unpack (map_Forall _ _)).
  vm_compute. exact I.
Qed.

Lemma disableFastShutdown_nothing_to_do_witness :
  Cases.disableFastShutdown "mysql:8.0.30" = (Done None, Cases.threePods).
Proof.
  apply (disableFastShutdown_nothing_to_do Scenario.MysqldContainerName
           Scenario.aborted (Scenario.tablets Scenario.three) "mysql:8.0.30"
           (Scenario.keys Scenario.three) Cases.threePods).
  intros k pod tablet _ Hpod _.
  rewrite (threePods_run_desired_image k pod Hpod). reflexivity.
Defined.

Lemma primaryAcknowledged_trace :
  w_trace (Scenario.reconcileDrain Scenario.primaryAcknowledged).2
  = [PlannedReparentShard (Scenario.alias 101) plannedReparentTimeout
       tolerableReplicationLag;
     Eventf EventTypeNormal "PlannedReparent";
     plannedReparentCount_Inc true].
Proof. vm_compute. reflexivity. Qed.

Lemma handover_target_is_eligible_witness :
  ∃ shard tablets k t,
    topo_GetShard Scenario.primaryAcknowledged = inr shard
    ∧ topo_GetTabletMapForShardByCell Scenario.primaryAcknowledged
      = inr tablets
    ∧ tablets !! k = Some t ∧ Alias t = Scenario.alias 101
    ∧ eligible Scenario.TabletTypeLabel Scenario.ExternalMasterTabletPoolName
        shard (w_pods (Scenario.reconcileDrain Scenario.primaryAcknowledged).2)
        (vts_UsingExternalDatastore Scenario.vts) k t.
Proof.
  apply (handover_target_is_eligible Scenario.TabletTypeLabel
           Scenario.ExternalMasterTabletPoolName Scenario.MysqldContainerName
           Scenario.replicationRequeueDelay Scenario.AliasFromPod
           Scenario.GetState Scenario.StateTransitions (G:=N)
           Scenario.primaryAcknowledged Scenario.vts
           (PlannedReparentShard (Scenario.alias 101) plannedReparentTimeout
              tolerableReplicationLag)
           (Scenario.alias 101)).
  - change (reconcileDrain _ _ _ _ _ _ _ _ _ _)
      with (Scenario.reconcileDrain Scenario.primaryAcknowledged).
    rewrite primaryAcknowledged_trace. left.
  - reflexivity.
Defined.

Lemma handover_requires_finished_primary_witness :
  let drains :=
    drainStates Scenario.GetState
      (listed_pods Scenario.AliasFromPod Scenario.primaryAcknowledged) in
  isShardHealthy (range_status Scenario.primaryAcknowledged) Scenario.vts
  = None
  ∧ HasPrimary Scenario.shard100 = true
  ∧ (stateAt drains (Scenario.key 100) = FinishedState
     ∨ (stateAt (Scenario.StateTransitions drains) (Scenario.key 100)
        = FinishedState
        ∧ ∀ k, Scenario.StateTransitions drains !! k
               ≠ Some AcknowledgedState)).
Proof.
  apply (handover_requires_finished_primary Scenario.TabletTypeLabel
           Scenario.ExternalMasterTabletPoolName Scenario.MysqldContainerName
           Scenario.replicationRequeueDelay Scenario.AliasFromPod
           Scenario.GetState Scenario.StateTransitions (G:=N)
           Scenario.primaryAcknowledged Scenario.vts Scenario.shard100).
  - reflexivity.
  - apply (bool_decide_unpack _). vm_compute. exact I.
  - apply (bool_decide_unpack _). vm_compute. exact I.
  - change (reconcileDrain _ _ _ _ _ _ _ _ _ _)
      with (Scenario.reconcileDrain Scenario.primaryAcknowledged).
    rewrite primaryAcknowledged_trace. discriminate.
Defined.

Lemma no_drain_request_pass_only_clears_witness :
  frozen (listed_pods Scenario.AliasFromPod Cases.noRequests)
    (Scenario.reconcileDrain Cases.noRequests).2.
Proof.
  apply (no_drain_request_pass_only_clears Scenario.TabletTypeLabel
           Scenario.ExternalMasterTabletPoolName Scenario.MysqldContainerName
           Scenario.replicationRequeueDelay Scenario.AliasFromPod
           Scenario.GetState Scenario.StateTransitions (G:=N)
           Cases.noRequests Scenario.vts).
  apply (bool_decide_unpack (map_Forall _ _)). vm_compute. exact I.
Defined.

Lemma unhealthy_pass_does_nothing_witness :
  ∃ r b,
    Cases.unhealthyPass
    = (Done r,
       {| w_pods := buildPods Scenario.AliasFromPod Scenario.abortedPods;
          w_trace := [Eventf EventTypeWarning "NotReconcilingDrain"];
          w_builder := b |}).
Proof.
  apply (unhealthy_pass_does_nothing Scenario.TabletTypeLabel
           Scenario.ExternalMasterTabletPoolName Scenario.MysqldContainerName
           Scenario.replicationRequeueDelay Scenario.AliasFromPod
           Scenario.GetState Scenario.StateTransitions (G:=N)
           Cases.statusVisited Scenario.unavailable Scenario.abortedPods
           Scenario.shard100 (Scenario.tablets Scenario.three)).
  - reflexivity.
  - reflexivity.
  - reflexivity.
  - left. vm_compute. discriminate.
Defined.

Lemma pass_panics_only_on_bad_transition_witness :
  let drains :=
    drainStates Scenario.GetState
      (listed_pods Scenario.AliasFromPod Cases.replicaDraining) in
  ∃ shard k s,
    topo_GetShard Cases.replicaDraining = inr shard
    ∧ k ∈ range_transitions Cases.replicaDraining
    ∧ Cases.stuck drains !! k = Some s
    ∧ ¬ (s = FinishedState ∧ k = TabletAliasString (PrimaryAlias shard))
    ∧ (s = DrainingState
       ∨ listed_pods Scenario.AliasFromPod Cases.replicaDraining !! k = None).
Proof.
  apply (pass_panics_only_on_bad_transition Scenario.TabletTypeLabel
           Scenario.ExternalMasterTabletPoolName Scenario.MysqldContainerName
           Scenario.replicationRequeueDelay Scenario.AliasFromPod
           Scenario.GetState Cases.stuck (G:=N)
           Cases.replicaDraining Scenario.vts
           "Programming error, the controller should never set a pod as Draining").
  - apply (bool_decide_unpack _). vm_compute. exact I.
  - vm_compute. reflexivity.
Defined.
